(** * all-mighty-push: the reliability core, embedded and verified

    A shallow embedding of the TypeScript sources of the push-notification
    library: the retry decision ([shouldRetry]), the retry policy calculator
    ([calculateNextRetry]), the circuit breaker, the token-bucket rate
    limiter, the orchestrator's [sendNotification] and the worker's
    [processRetry].

    Conventions of the embedding.
    - A JavaScript [number] that counts something (attempts, failures,
      status codes, millisecond timestamps) is a [Z]; a [number] that may be
      fractional (delays, factors, token counts, seconds) is an exact rational
      [Q].  The range and rounding of IEEE doubles are not modelled.
    - A [Date] is its time value, an integral number of milliseconds;
      [new Date(v)] truncates [v] toward zero as the language does.
    - An optional field is an [option]; truthiness tests are written out.
    - [async] code is sequential code in a state-and-exception monad: a
      rejected promise is a [Throw] completion, a fulfilled one a [Normal]
      completion.  Interleaving of several calls is not modelled.
    - External collaborators (storage, provider, hooks, metrics, limiter)
      are arbitrary computations over the external world [E]; the clock, the
      random source and the UUID source are operations of [E] as well. *)

From Stdlib Require Import ZArith QArith Qpower Qround Qminmax Qabs Lia Lqa Sorted.
From stdpp Require Import gmap strings list pretty.

Local Open Scope Z_scope.

(** ** JavaScript values *)

Definition Date := Z.

(** [new Date(v)]: the time value is [v] truncated toward zero. *)
Definition new_Date (v : Q) : Date := Z.quot (Qnum v) (Zpos (Qden v)).

(** [a > b] on numbers. *)
Definition Qgt_bool (a b : Q) : bool := negb (Qle_bool a b).

(** Truthiness of an optional string: [undefined] and [""] are falsy. *)
Definition truthy_string (s : option string) : bool :=
  match s with
  | Some s => negb (String.eqb s "")
  | None => false
  end.

(** Truthiness of an optional number: [undefined] and [0] are falsy. *)
Definition truthy_number (n : option Z) : bool :=
  match n with
  | Some n => negb (n =? 0)
  | None => false
  end.

(** ** Errors (types/errors.ts) *)

Inductive CircuitBreakerState := closed | open | half_open.

Inductive ErrorClass :=
| PlainError
| ConfigurationError
| ValidationError
| ProviderError
| StorageError
| CircuitBreakerOpenError
| RateLimitError
| TypeError.

(** The [details] object of a [PushError], as far as the core fills it. *)
Inductive ErrorDetails :=
| no_details
| field_details (field : string)
| breaker_details (state : CircuitBreakerState) (failureCount : Z)
    (lastFailureTime : option Date)
| operation_details (operation : string).

Record JsError := {
  err_name : ErrorClass;
  err_message : string;
  err_details : ErrorDetails;
}.

Definition new_Error (message : string) : JsError :=
  {| err_name := PlainError; err_message := message; err_details := no_details |}.

(** What a [throw] carries: an [Error] object, or any other value, of which
    only [String(value)] is ever observed. *)
Inductive Thrown :=
| ThrownError (e : JsError)
| ThrownValue (repr : string).

(** [error instanceof Error ? error : new Error(String(error))] *)
Definition as_Error (t : Thrown) : JsError :=
  match t with
  | ThrownError e => e
  | ThrownValue s => new_Error s
  end.

(** ** Completions and the monad of effectful code *)

Inductive Completion (A : Type) :=
| Normal (a : A)
| Throw (t : Thrown).
Arguments Normal {A} a.
Arguments Throw {A} t.

Definition M (S A : Type) : Type := S -> Completion A * S.

Definition ret {S A} (a : A) : M S A := fun s => (Normal a, s).

Definition throw {S A} (t : Thrown) : M S A := fun s => (Throw t, s).

Definition bind {S A B} (m : M S A) (k : A -> M S B) : M S B :=
  fun s =>
    match m s with
    | (Normal a, s') => k a s'
    | (Throw t, s') => (Throw t, s')
    end.

(** [try { body } catch (error) { handler }] *)
Definition try_catch {S A} (body : M S A) (handler : Thrown -> M S A) : M S A :=
  fun s =>
    match body s with
    | (Normal a, s') => (Normal a, s')
    | (Throw t, s') => handler t s'
    end.

(** [try { body } finally { after }], for an [after] that cannot throw. *)
Definition try_finally {S A} (body : M S A) (after : S -> S) : M S A :=
  fun s => let '(c, s') := body s in (c, after s').

(** Lift a total state transformer. *)
Definition perform {S A} (f : S -> A * S) : M S A :=
  fun s => let '(a, s') := f s in (Normal a, s').

(** Run a computation on the second component of a pair of states. *)
Definition on_snd {S E A} (m : M E A) : M (S * E) A :=
  fun '(s, e) => let '(c, e') := m e in (c, (s, e')).

Definition get {S} : M S S := fun s => (Normal s, s).
Definition modify {S} (f : S -> S) : M S unit := fun s => (Normal tt, f s).

Declare Scope js_scope.
Delimit Scope js_scope with js.
Notation "x <- m ;; k" := (bind m (fun x => k))
  (at level 100, m at next level, right associativity) : js_scope.
Notation "m ;; k" := (bind m (fun _ => k))
  (at level 100, k at level 200, right associativity) : js_scope.

(** ** The runtime: clock, random source, UUID source *)

Class Runtime (E : Type) := {
  Date_now : E -> Z * E;
  Math_random : E -> Q * E;
  randomUUID : E -> string * E;
}.

(** ** Data model (types/subscription.ts, types/results.ts, types/configuration.ts) *)

Inductive SubscriptionStatus := active | blocked | expired.

Record SubscriptionKeys := {
  p256dh : option string;
  auth : option string;
}.

Record Subscription := {
  id : string;
  endpoint : option string;
  keys : option SubscriptionKeys;
  userId : option string;
  createdAt : Date;
  updatedAt : Date;
  lastUsedAt : option Date;
  failedCount : Z;
  status : SubscriptionStatus;
  expiresAt : option Date;
  metadata : option string;
}.

(** The payload and the send options are opaque to the core. *)
Record NotificationPayload := {
  title : string;
  body : string;
  payload_rest : string;
}.

Record SendOptions := {
  ttl : option Z;
  urgency : option string;
  topic : option string;
}.

Definition no_options : SendOptions :=
  {| ttl := None; urgency := None; topic := None |}.

Record ProviderResult := {
  pr_success : bool;
  pr_statusCode : option Z;
  pr_error : option JsError;
  pr_shouldRetry : bool;
  pr_retryAfter : option Q;
}.

Record SendResult := {
  sr_success : bool;
  sr_subscriptionId : string;
  sr_error : option JsError;
  sr_enqueued : option bool;
}.

Record RetryEntry := {
  re_id : string;
  re_subscriptionId : string;
  re_payload : NotificationPayload;
  re_attempt : Z;
  re_nextRetryAt : Date;
  re_lastError : option string;
  re_createdAt : Date;
}.

Record RetryPolicy := {
  maxRetries : Z;
  baseDelay : Q;
  backoffFactor : Q;
  maxDelay : Q;
  jitter : bool;
}.

Definition DEFAULT_RETRY_POLICY : RetryPolicy :=
  {| maxRetries := 8; baseDelay := 1000; backoffFactor := 2;
     maxDelay := 3600000; jitter := true |}.

(** ** Retry decision (retry/shouldRetry.ts) *)

Definition shouldRetry (result : ProviderResult) (attempt maxRetries : Z) : bool :=
  if attempt >=? maxRetries then false
  else if negb (pr_shouldRetry result) then false
  else if truthy_number (pr_statusCode result)
          && match pr_statusCode result with
             | Some c => (c >=? 500) && (c <? 600)
             | None => false
             end
       then true
  else if match pr_statusCode result with
          | Some c => c =? 429
          | None => false
          end
       then true
  else pr_shouldRetry result.

(** ** Retry policy calculator (retry/calculateNextRetry.ts) *)

(** [retryAfter !== undefined && retryAfter > 0] *)
Definition retryAfter_given (retryAfter : option Q) : bool :=
  match retryAfter with
  | Some r => Qgt_bool r 0
  | None => false
  end.

Section CalculateNextRetry.
Context {E : Type} `{Runtime E}.

Definition calculateNextRetry (attempt : Z) (policy : RetryPolicy)
    (retryAfter : option Q) (e : E) : Date * E :=
  match (if retryAfter_given retryAfter then retryAfter else None) with
  | Some retryAfter =>
      let '(now, e1) := Date_now e in
      (new_Date (inject_Z now + retryAfter * 1000), e1)
  | None =>
      let delay := (baseDelay policy * backoffFactor policy ^ attempt)%Q in
      let delay := Qmin delay (maxDelay policy) in
      if jitter policy then
        let jitterAmount := (delay * (1 # 4))%Q in
        let '(rnd, e1) := Math_random e in
        let jitterOffset := ((rnd * 2 - 1) * jitterAmount)%Q in
        let delay := (delay + jitterOffset)%Q in
        let delay := Qmax 0 delay in
        let '(now, e2) := Date_now e1 in
        (new_Date (inject_Z now + delay), e2)
      else
        let '(now, e1) := Date_now e in
        (new_Date (inject_Z now + delay), e1)
  end.
End CalculateNextRetry.

(** ** Circuit breaker (circuit-breaker/CircuitBreaker.ts) *)

Record CircuitBreakerConfig := {
  failureThreshold : Z;
  resetTimeout : Z;
  halfOpenMaxAttempts : Z;
}.

Definition DEFAULT_CIRCUIT_BREAKER_CONFIG : CircuitBreakerConfig :=
  {| failureThreshold := 5; resetTimeout := 60000; halfOpenMaxAttempts := 3 |}.

Record Partial_CircuitBreakerConfig := {
  p_failureThreshold : option Z;
  p_resetTimeout : option Z;
  p_halfOpenMaxAttempts : option Z;
}.

(** [{ ...base, ...over }] on one optional field. *)
Definition spread {A} (base : A) (over : option A) : A :=
  match over with
  | Some a => a
  | None => base
  end.

(** Optional chaining, [o?.f]. *)
Definition chain {A B} (o : option A) (f : A -> option B) : option B :=
  match o with
  | Some a => f a
  | None => None
  end.

Notation "o ?. f" := (chain o f) (at level 40, left associativity).

Definition spread_opt {A} (base over : option A) : option A :=
  match over with
  | Some a => Some a
  | None => base
  end.

Record CircuitBreaker := {
  cb_state : CircuitBreakerState;
  cb_failureCount : Z;
  cb_successCount : Z;
  cb_lastFailureTime : option Date;
  cb_config : CircuitBreakerConfig;
}.

(** [constructor(config)]: [{ ...DEFAULT_CONFIG, ...config }], state [closed]. *)
Definition new_CircuitBreaker (config : Partial_CircuitBreakerConfig) : CircuitBreaker :=
  {| cb_state := closed;
     cb_failureCount := 0;
     cb_successCount := 0;
     cb_lastFailureTime := None;
     cb_config :=
       {| failureThreshold :=
            spread (failureThreshold DEFAULT_CIRCUIT_BREAKER_CONFIG)
                   (p_failureThreshold config);
          resetTimeout :=
            spread (resetTimeout DEFAULT_CIRCUIT_BREAKER_CONFIG)
                   (p_resetTimeout config);
          halfOpenMaxAttempts :=
            spread (halfOpenMaxAttempts DEFAULT_CIRCUIT_BREAKER_CONFIG)
                   (p_halfOpenMaxAttempts config) |} |}.

Definition total_config (c : CircuitBreakerConfig) : Partial_CircuitBreakerConfig :=
  {| p_failureThreshold := Some (failureThreshold c);
     p_resetTimeout := Some (resetTimeout c);
     p_halfOpenMaxAttempts := Some (halfOpenMaxAttempts c) |}.

Definition getState (cb : CircuitBreaker) : CircuitBreakerState := cb_state cb.
Definition getFailureCount (cb : CircuitBreaker) : Z := cb_failureCount cb.

Definition reset (cb : CircuitBreaker) : CircuitBreaker :=
  {| cb_state := closed;
     cb_failureCount := 0;
     cb_successCount := 0;
     cb_lastFailureTime := None;
     cb_config := cb_config cb |}.

Definition onSuccess (cb : CircuitBreaker) : CircuitBreaker :=
  match cb_state cb with
  | half_open =>
      let successCount := cb_successCount cb + 1 in
      if successCount >=? halfOpenMaxAttempts (cb_config cb) then
        {| cb_state := closed;
           cb_failureCount := 0;
           cb_successCount := 0;
           cb_lastFailureTime := None;
           cb_config := cb_config cb |}
      else
        {| cb_state := half_open;
           cb_failureCount := cb_failureCount cb;
           cb_successCount := successCount;
           cb_lastFailureTime := cb_lastFailureTime cb;
           cb_config := cb_config cb |}
  | closed =>
      {| cb_state := closed;
         cb_failureCount := 0;
         cb_successCount := cb_successCount cb;
         cb_lastFailureTime := cb_lastFailureTime cb;
         cb_config := cb_config cb |}
  | open => cb
  end.

Definition CircuitBreakerOpen (cb : CircuitBreaker) : JsError :=
  {| err_name := CircuitBreakerOpenError;
     err_message := "Circuit breaker is open";
     err_details :=
       breaker_details (cb_state cb) (cb_failureCount cb) (cb_lastFailureTime cb) |}.

Section CircuitBreakerMethods.
Context {E : Type} `{Runtime E}.

Definition onFailure (cb : CircuitBreaker) (e : E) : CircuitBreaker * E :=
  let failureCount := cb_failureCount cb + 1 in
  let '(now, e1) := Date_now e in
  if failureCount >=? failureThreshold (cb_config cb) then
    ({| cb_state := open;
        cb_failureCount := failureCount;
        cb_successCount := 0;
        cb_lastFailureTime := Some now;
        cb_config := cb_config cb |}, e1)
  else
    ({| cb_state := cb_state cb;
        cb_failureCount := failureCount;
        cb_successCount := cb_successCount cb;
        cb_lastFailureTime := Some now;
        cb_config := cb_config cb |}, e1).

Definition shouldAttemptReset (cb : CircuitBreaker) (e : E) : bool * E :=
  match cb_lastFailureTime cb with
  | None => (false, e)
  | Some lastFailureTime =>
      let '(now, e1) := Date_now e in
      let timeSinceLastFailure := now - lastFailureTime in
      (timeSinceLastFailure >=? resetTimeout (cb_config cb), e1)
  end.

(** The first half of [execute]: the guard taken before [fn] is called.
    [inl cb'] lets the call through with the breaker in state [cb'];
    [inr err] rejects it. *)
Definition guard_call (cb : CircuitBreaker) (e : E)
    : (CircuitBreaker + JsError) * E :=
  match cb_state cb with
  | open =>
      let '(attempt_reset, e1) := shouldAttemptReset cb e in
      if attempt_reset then
        (inl {| cb_state := half_open;
                cb_failureCount := cb_failureCount cb;
                cb_successCount := 0;
                cb_lastFailureTime := cb_lastFailureTime cb;
                cb_config := cb_config cb |}, e1)
      else (inr (CircuitBreakerOpen cb), e1)
  | _ => (inl cb, e)
  end.

(** [execute(fn)].  The wrapped function is an external computation: it
    runs on [E] and has no access to the breaker's private fields. *)
Definition execute {T} (fn : M E T) : M (CircuitBreaker * E) T :=
  fun '(cb, e) =>
    match guard_call cb e with
    | (inr err, e1) => (Throw (ThrownError err), (cb, e1))
    | (inl cb1, e1) =>
        match fn e1 with
        | (Normal result, e2) => (Normal result, (onSuccess cb1, e2))
        | (Throw error, e2) =>
            let '(cb2, e3) := onFailure cb1 e2 in
            (Throw error, (cb2, e3))
        end
    end.
End CircuitBreakerMethods.

(** ** Token bucket (rate-limiter/TokenBucketRateLimiter.ts) *)

Record TokenBucketRateLimiter := {
  capacity : Q;
  refillRate : Q;
  tokens : Q;
  lastRefill : Date;
}.

Section TokenBucketMethods.
Context {E : Type} `{Runtime E}.

Definition new_TokenBucketRateLimiter (capacity refillRate : Q) (e : E)
    : TokenBucketRateLimiter * E :=
  let '(now, e1) := Date_now e in
  ({| capacity := capacity; refillRate := refillRate;
      tokens := capacity; lastRefill := now |}, e1).

Definition refill (tb : TokenBucketRateLimiter) (e : E)
    : TokenBucketRateLimiter * E :=
  let '(now, e1) := Date_now e in
  let elapsed := (inject_Z (now - lastRefill tb) / 1000)%Q in
  let tokensToAdd := (elapsed * refillRate tb)%Q in
  ({| capacity := capacity tb; refillRate := refillRate tb;
      tokens := Qmin (capacity tb) (tokens tb + tokensToAdd);
      lastRefill := now |}, e1).


End TokenBucketMethods.

(** ** Adapter interfaces (types/adapters.ts, types/configuration.ts) *)

(** [Partial<Subscription>] as passed to [updateSubscription]. *)
Record SubscriptionUpdate := {
  upd_endpoint : option string;
  upd_keys : option SubscriptionKeys;
  upd_userId : option string;
  upd_lastUsedAt : option Date;
  upd_failedCount : option Z;
  upd_status : option SubscriptionStatus;
  upd_expiresAt : option Date;
  upd_metadata : option string;
}.

(** [{ lastUsedAt: now }] *)
Definition only_lastUsedAt (now : Date) : SubscriptionUpdate :=
  {| upd_endpoint := None; upd_keys := None; upd_userId := None;
     upd_lastUsedAt := Some now; upd_failedCount := None; upd_status := None;
     upd_expiresAt := None; upd_metadata := None |}.

(** [{ lastUsedAt: now, failedCount: 0 }] *)
Definition delivered_update (now : Date) : SubscriptionUpdate :=
  {| upd_endpoint := None; upd_keys := None; upd_userId := None;
     upd_lastUsedAt := Some now; upd_failedCount := Some 0; upd_status := None;
     upd_expiresAt := None; upd_metadata := None |}.

(** [{ status: 'expired', failedCount: failedCount + 1 }] *)
Definition expired_update (failedCount : Z) : SubscriptionUpdate :=
  {| upd_endpoint := None; upd_keys := None; upd_userId := None;
     upd_lastUsedAt := None; upd_failedCount := Some (failedCount + 1);
     upd_status := Some expired; upd_expiresAt := None; upd_metadata := None |}.

Record VapidKeys := {
  publicKey : option string;
  privateKey : option string;
  subject : option string;
}.

Record Partial_RetryPolicy := {
  p_maxRetries : option Z;
  p_baseDelay : option Q;
  p_backoffFactor : option Q;
  p_maxDelay : option Q;
  p_jitter : option bool;
}.

Record BatchConfig := {
  batchSize : Z;
  concurrency : Z;
}.

Record Partial_BatchConfig := {
  p_batchSize : option Z;
  p_concurrency : option Z;
}.

Definition DEFAULT_BATCH_CONFIG : BatchConfig :=
  {| batchSize := 50; concurrency := 10 |}.

Section Adapters.
Variable E : Type.

Record StorageAdapter := {
  getSubscriptionById : string -> M E (option Subscription);
  updateSubscription : string -> SubscriptionUpdate -> M E Subscription;
  enqueueRetry : RetryEntry -> M E unit;
  dequeueRetry : Z -> M E (list RetryEntry);
  ackRetry : string -> M E unit;
  close : M E unit;
}.

Record ProviderAdapter := {
  send : Subscription -> NotificationPayload -> SendOptions -> M E ProviderResult;
  getName : string;
}.

Record MetricsAdapter := {
  increment : string -> M E unit;
  gauge : string -> Z -> M E unit;
}.

Record RateLimiter := {
  acquire : M E unit;
}.

Record LifecycleHooks := {
  hook_onSend : option (Subscription -> NotificationPayload -> M E unit);
  hook_onSuccess : option (Subscription -> ProviderResult -> M E unit);
  hook_onFailure : option (Subscription -> JsError -> M E unit);
  hook_onRetry : option (Subscription -> Z -> M E unit);
}.

(** [PushConfiguration]; every field may be absent, so the same record
    serves as the [Partial<PushConfiguration>] given to [configure]. *)
Record PushConfiguration := {
  vapidKeys : option VapidKeys;
  storageAdapter : option StorageAdapter;
  providerAdapter : option ProviderAdapter;
  retryPolicy : option Partial_RetryPolicy;
  rateLimiter : option RateLimiter;
  metricsAdapter : option MetricsAdapter;
  circuitBreaker_config : option Partial_CircuitBreakerConfig;
  batchConfig : option Partial_BatchConfig;
  lifecycleHooks : option LifecycleHooks;
}.

Record PushCore := {
  config : option PushConfiguration;
  circuitBreaker : option CircuitBreaker;
  isShuttingDown : bool;
  inFlightOperations : nat;
}.
End Adapters.

Arguments getSubscriptionById {E}.
Arguments updateSubscription {E}.
Arguments enqueueRetry {E}.
Arguments dequeueRetry {E}.
Arguments ackRetry {E}.
Arguments close {E}.
Arguments send {E}.
Arguments getName {E}.
Arguments increment {E}.
Arguments gauge {E}.
Arguments acquire {E}.
Arguments hook_onSend {E}.
Arguments hook_onSuccess {E}.
Arguments hook_onFailure {E}.
Arguments hook_onRetry {E}.
Arguments vapidKeys {E}.
Arguments storageAdapter {E}.
Arguments providerAdapter {E}.
Arguments retryPolicy {E}.
Arguments rateLimiter {E}.
Arguments metricsAdapter {E}.
Arguments circuitBreaker_config {E}.
Arguments batchConfig {E}.
Arguments lifecycleHooks {E}.
Arguments config {E}.
Arguments circuitBreaker {E}.
Arguments isShuttingDown {E}.
Arguments inFlightOperations {E}.

Definition new_PushCore {E} : PushCore E :=
  {| config := None; circuitBreaker := None;
     isShuttingDown := false; inFlightOperations := 0%nat |}.

(** ** Core orchestrator (core/PushCore.ts) *)

Definition merge_retryPolicy (old new : option Partial_RetryPolicy)
    : Partial_RetryPolicy :=
  let field {A} (dflt : A) (f : Partial_RetryPolicy -> option A) : option A :=
    Some (spread (spread dflt (old ?. f)) (new ?. f)) in
  {| p_maxRetries := field (maxRetries DEFAULT_RETRY_POLICY) p_maxRetries;
     p_baseDelay := field (baseDelay DEFAULT_RETRY_POLICY) p_baseDelay;
     p_backoffFactor := field (backoffFactor DEFAULT_RETRY_POLICY) p_backoffFactor;
     p_maxDelay := field (maxDelay DEFAULT_RETRY_POLICY) p_maxDelay;
     p_jitter := field (jitter DEFAULT_RETRY_POLICY) p_jitter |}.

Definition merge_circuitBreaker (old new : option Partial_CircuitBreakerConfig)
    : Partial_CircuitBreakerConfig :=
  let field (dflt : Z) (f : Partial_CircuitBreakerConfig -> option Z) : option Z :=
    Some (spread (spread dflt (old ?. f)) (new ?. f)) in
  {| p_failureThreshold :=
       field (failureThreshold DEFAULT_CIRCUIT_BREAKER_CONFIG) p_failureThreshold;
     p_resetTimeout :=
       field (resetTimeout DEFAULT_CIRCUIT_BREAKER_CONFIG) p_resetTimeout;
     p_halfOpenMaxAttempts :=
       field (halfOpenMaxAttempts DEFAULT_CIRCUIT_BREAKER_CONFIG) p_halfOpenMaxAttempts |}.

Definition merge_batchConfig (old new : option Partial_BatchConfig)
    : Partial_BatchConfig :=
  let field (dflt : Z) (f : Partial_BatchConfig -> option Z) : option Z :=
    Some (spread (spread dflt (old ?. f)) (new ?. f)) in
  {| p_batchSize := field (batchSize DEFAULT_BATCH_CONFIG) p_batchSize;
     p_concurrency := field (concurrency DEFAULT_BATCH_CONFIG) p_concurrency |}.

Definition configure {E} (options : PushConfiguration E) (this : PushCore E)
    : PushCore E :=
  let old := config this in
  let merged {A} (f : PushConfiguration E -> option A) : option A :=
    spread_opt (old ?. f) (f options) in
  let breaker_config :=
    merge_circuitBreaker (old ?. circuitBreaker_config)
                         (circuitBreaker_config options) in
  {| config := Some
       {| vapidKeys := merged vapidKeys;
          storageAdapter := merged storageAdapter;
          providerAdapter := merged providerAdapter;
          retryPolicy :=
            Some (merge_retryPolicy (old ?. retryPolicy) (retryPolicy options));
          rateLimiter := merged rateLimiter;
          metricsAdapter := merged metricsAdapter;
          circuitBreaker_config := Some breaker_config;
          batchConfig :=
            Some (merge_batchConfig (old ?. batchConfig) (batchConfig options));
          lifecycleHooks := merged lifecycleHooks |};
     circuitBreaker := Some (new_CircuitBreaker breaker_config);
     isShuttingDown := isShuttingDown this;
     inFlightOperations := inFlightOperations this |}.

Definition new_ConfigurationError (message : string) (details : ErrorDetails) : Thrown :=
  ThrownError {| err_name := ConfigurationError; err_message := message;
                 err_details := details |}.

Definition new_ValidationError (message field : string) : Thrown :=
  ThrownError {| err_name := ValidationError; err_message := message;
                 err_details := field_details field |}.

(** Calling a method of [undefined]. *)
Definition undefined_dereference : Thrown :=
  ThrownError {| err_name := TypeError;
                 err_message := "Cannot read properties of undefined";
                 err_details := no_details |}.

(** [console.error] writes to the process's standard error; the log is not
    part of the model. *)
Definition console_error {S} : M S unit := ret tt.

(** [verifySubscription(subscription)] *)
Definition verifySubscription {S} (subscription : Subscription) : M S unit :=
  if negb (truthy_string (endpoint subscription)) then
    throw (new_ValidationError "Subscription must have an endpoint" "endpoint")
  else
    match keys subscription with
    | None => throw (new_ValidationError "Subscription must have keys" "keys")
    | Some k =>
        if negb (truthy_string (p256dh k)) then
          throw (new_ValidationError "Subscription keys must include p256dh"
                                     "keys.p256dh")
        else if negb (truthy_string (auth k)) then
          throw (new_ValidationError "Subscription keys must include auth"
                                     "keys.auth")
        else ret tt
    end.

(** [if (hook) { try { await hook(...args) } catch (error) { console.error } }] *)
Definition run_hook {E} (hook : option (M E unit)) : M E unit :=
  match hook with
  | Some hook => try_catch hook (fun _ => console_error)
  | None => ret tt
  end.

(** The body of [emitMetric]: [gauge] when a value is given, [increment]
    otherwise, errors logged and dropped. *)
Definition run_metric {E} (adapter : option (MetricsAdapter E)) (metric : string)
    (value : option Z) : M E unit :=
  match adapter with
  | Some m =>
      try_catch
        match value with
        | Some v => gauge m metric v
        | None => increment m metric
        end
        (fun _ => console_error)
  | None => ret tt
  end.

(** The test of [verifySubscription]: endpoint and both keys present. *)
Definition subscription_valid (subscription : Subscription) : bool :=
  truthy_string (endpoint subscription)
  && match keys subscription with
     | Some k => truthy_string (p256dh k) && truthy_string (auth k)
     | None => false
     end.

(** The test of [validateConfiguration]: credentials and storage present. *)
Definition configuration_complete {E} (pc : PushCore E) : bool :=
  match config pc with
  | Some c =>
      match vapidKeys c with
      | Some v => truthy_string (publicKey v) && truthy_string (privateKey v)
      | None => false
      end
      && match storageAdapter c with
         | Some _ => true
         | None => false
         end
  | None => false
  end.

Section PushCoreMethods.
Context {E : Type} `{Runtime E}.
Local Open Scope js_scope.

Abbreviation State := (PushCore E * E)%type.

Definition this : M State (PushCore E) := fun '(pc, e) => (Normal pc, (pc, e)).

Definition validateConfiguration : M State unit :=
  pc <- this;;
  match config pc with
  | None =>
      throw (new_ConfigurationError
               "Push notification system is not configured. Call configure() first."
               no_details)
  | Some c =>
      match vapidKeys c with
      | None =>
          throw (new_ConfigurationError
                   "VAPID keys are required. Provide vapidKeys in configuration."
                   (field_details "vapidKeys"))
      | Some v =>
          if negb (truthy_string (publicKey v))
             || negb (truthy_string (privateKey v)) then
            throw (new_ConfigurationError
                     "VAPID keys must include both publicKey and privateKey."
                     no_details)
          else
            match storageAdapter c with
            | None =>
                throw (new_ConfigurationError
                         "Storage adapter is required. Provide storageAdapter in configuration."
                         (field_details "storageAdapter"))
            | Some _ => ret tt
            end
      end
  end.

Definition getProviderAdapter : M State (ProviderAdapter E) :=
  pc <- this;;
  match config pc with
  | None => throw (new_ConfigurationError "Configuration is required" no_details)
  | Some c =>
      match providerAdapter c with
      | Some provider => ret provider
      | None =>
          throw (new_ConfigurationError
                   "Provider adapter is required. Please configure providerAdapter."
                   no_details)
      end
  end.

Definition ensureNotShuttingDown : M State unit :=
  pc <- this;;
  if isShuttingDown pc then
    throw (ThrownError (new_Error
      "Push notification system is shutting down. No new operations allowed."))
  else ret tt.

Definition set_inFlight (f : nat -> nat) : State -> State :=
  fun '(pc, e) =>
    ({| config := config pc; circuitBreaker := circuitBreaker pc;
        isShuttingDown := isShuttingDown pc;
        inFlightOperations := f (inFlightOperations pc) |}, e).

(** [trackOperation(operation)]: the handle is in the in-flight set from
    the start of the operation until it settles. *)
Definition trackOperation {T} (operation : M State T) : M State T :=
  modify (set_inFlight S);;
  try_finally operation (set_inFlight Nat.pred).

(** [emitHook(hookName, ...args)]; [call] selects the hook and applies it
    to its arguments. *)
Definition emitHook (call : LifecycleHooks E -> option (M E unit)) : M State unit :=
  pc <- this;;
  on_snd (run_hook (config pc ?. lifecycleHooks ?. call)).

Definition emitMetric (metric : string) (value : option Z) : M State unit :=
  pc <- this;;
  on_snd (run_metric (config pc ?. metricsAdapter) metric value).

(** [this.config!.storageAdapter] *)
Definition the_storageAdapter : M State (StorageAdapter E) :=
  pc <- this;;
  match config pc ?. storageAdapter with
  | Some storage => ret storage
  | None => throw undefined_dereference
  end.

(** [this.circuitBreaker.execute(fn)], the breaker being a field of [this]. *)
Definition circuitBreaker_execute {T} (cb : CircuitBreaker) (fn : M E T)
    : M State T :=
  fun '(pc, e) =>
    let '(c, (cb', e')) := execute fn (cb, e) in
    (c, ({| config := config pc; circuitBreaker := Some cb';
            isShuttingDown := isShuttingDown pc;
            inFlightOperations := inFlightOperations pc |}, e')).

Definition effective_retryPolicy (c : PushConfiguration E) : RetryPolicy :=
  {| maxRetries := spread 8 (retryPolicy c ?. p_maxRetries);
     baseDelay := spread 1000%Q (retryPolicy c ?. p_baseDelay);
     backoffFactor := spread 2%Q (retryPolicy c ?. p_backoffFactor);
     maxDelay := spread 3600000%Q (retryPolicy c ?. p_maxDelay);
     jitter := match retryPolicy c ?. p_jitter with
               | Some false => false
               | _ => true
               end |}.

(** The four hooks, applied to their arguments. *)
Definition call_onSend (subscription : Subscription) (payload : NotificationPayload)
    (hooks : LifecycleHooks E) : option (M E unit) :=
  (fun hook => hook subscription payload) <$> hook_onSend hooks.

Definition call_onSuccess (subscription : Subscription) (result : ProviderResult)
    (hooks : LifecycleHooks E) : option (M E unit) :=
  (fun hook => hook subscription result) <$> hook_onSuccess hooks.

Definition call_onFailure (subscription : Subscription) (error : JsError)
    (hooks : LifecycleHooks E) : option (M E unit) :=
  (fun hook => hook subscription error) <$> hook_onFailure hooks.

Definition call_onRetry (subscription : Subscription) (attempt : Z)
    (hooks : LifecycleHooks E) : option (M E unit) :=
  (fun hook => hook subscription attempt) <$> hook_onRetry hooks.

(** "Acquire rate limiter token if configured" *)
Definition acquire_token : M State unit :=
  pc <- this;;
  match config pc ?. rateLimiter with
  | Some limiter => on_snd (acquire limiter)
  | None => ret tt
  end.

(** "Send through circuit breaker if configured" *)
Definition provider_call (subscription : Subscription)
    (payload : NotificationPayload) (options : SendOptions)
    : M State ProviderResult :=
  provider <- getProviderAdapter;;
  pc <- this;;
  match circuitBreaker pc with
  | Some cb =>
      circuitBreaker_execute cb (send provider subscription payload options)
  | None => on_snd (send provider subscription payload options)
  end.

(** "Handle success" *)
Definition handle_success (startTime : Z) (subscription : Subscription)
    (result : ProviderResult) : M State SendResult :=
  storage <- the_storageAdapter;;
  now <- on_snd (perform Date_now);;
  on_snd (updateSubscription storage (id subscription) (only_lastUsedAt now));;
  emitHook (call_onSuccess subscription result);;
  emitMetric "push.send.success" None;;
  finished <- on_snd (perform Date_now);;
  emitMetric "push.send.duration" (Some (finished - startTime));;
  ret {| sr_success := true; sr_subscriptionId := id subscription;
         sr_error := None; sr_enqueued := None |}.

(** "Handle failure - check if we should retry" *)
Definition handle_failure (subscription : Subscription)
    (payload : NotificationPayload) (result : ProviderResult)
    : M State SendResult :=
  pc <- this;;
  match config pc with
  | None => throw undefined_dereference
  | Some c =>
      let retryPolicy := effective_retryPolicy c in
      let shouldRetryResult := shouldRetry result 0 (maxRetries retryPolicy) in
      if shouldRetryResult then
        nextRetryAt <- on_snd (perform
          (calculateNextRetry 0 retryPolicy (pr_retryAfter result)));;
        storage <- the_storageAdapter;;
        uuid <- on_snd (perform randomUUID);;
        created <- on_snd (perform Date_now);;
        on_snd (enqueueRetry storage
          {| re_id := uuid;
             re_subscriptionId := id subscription;
             re_payload := payload;
             re_attempt := 0;
             re_nextRetryAt := nextRetryAt;
             re_lastError := err_message <$> pr_error result;
             re_createdAt := created |});;
        emitHook (call_onRetry subscription 0);;
        emitMetric "push.send.retry_enqueued" None;;
        ret {| sr_success := false; sr_subscriptionId := id subscription;
               sr_error := pr_error result; sr_enqueued := Some true |}
      else
        emitHook (call_onFailure subscription
                    (default (new_Error "Send failed") (pr_error result)));;
        emitMetric "push.send.failure" None;;
        ret {| sr_success := false; sr_subscriptionId := id subscription;
               sr_error := pr_error result; sr_enqueued := Some false |}
  end.

(** The body of the [try] block of [sendNotification]. *)
Definition send_pipeline (startTime : Z) (subscription : Subscription)
    (payload : NotificationPayload) (options : SendOptions) : M State SendResult :=
  emitHook (call_onSend subscription payload);;
  emitMetric "push.send.attempt" None;;
  verifySubscription subscription;;
  acquire_token;;
  result <- provider_call subscription payload options;;
  if pr_success result then handle_success startTime subscription result
  else handle_failure subscription payload result.

(** The [catch] block of [sendNotification]. *)
Definition send_recovery (subscription : Subscription) (error : Thrown)
    : M State SendResult :=
  let err := as_Error error in
  emitHook (call_onFailure subscription err);;
  emitMetric "push.send.error" None;;
  ret {| sr_success := false; sr_subscriptionId := id subscription;
         sr_error := Some err; sr_enqueued := Some false |}.

(** The [async] closure run by [sendNotification]. *)
Definition send_operation (subscription : Subscription)
    (payload : NotificationPayload) (options : SendOptions) : M State SendResult :=
  startTime <- on_snd (perform Date_now);;
  try_catch (send_pipeline startTime subscription payload options)
            (send_recovery subscription).

Definition sendNotification (subscription : Subscription)
    (payload : NotificationPayload) (options : SendOptions) : M State SendResult :=
  ensureNotShuttingDown;;
  validateConfiguration;;
  trackOperation (send_operation subscription payload options).
End PushCoreMethods.

(** ** Retry worker (worker/RetryWorker.ts) *)

Record WorkerOptions := {
  pollInterval : Z;
  worker_concurrency : Z;
  worker_batchSize : Z;
  errorBackoff : Z;
}.

Definition DEFAULT_WORKER_OPTIONS : WorkerOptions :=
  {| pollInterval := 5000; worker_concurrency := 10;
     worker_batchSize := 50; errorBackoff := 10000 |}.

Record RetryWorker (E : Type) := {
  running : bool;
  processing : gset string;
  worker_options : WorkerOptions;
  storage : StorageAdapter E;
  provider : ProviderAdapter E;
  worker_retryPolicy : RetryPolicy;
  worker_metricsAdapter : option (MetricsAdapter E);
}.
Arguments running {E}.
Arguments processing {E}.
Arguments worker_options {E}.
Arguments storage {E}.
Arguments provider {E}.
Arguments worker_retryPolicy {E}.
Arguments worker_metricsAdapter {E}.

Definition new_RetryWorker {E} (storage : StorageAdapter E)
    (provider : ProviderAdapter E) (retryPolicy : RetryPolicy)
    (metricsAdapter : option (MetricsAdapter E)) : RetryWorker E :=
  {| running := false; processing := ∅;
     worker_options := DEFAULT_WORKER_OPTIONS;
     storage := storage; provider := provider;
     worker_retryPolicy := retryPolicy;
     worker_metricsAdapter := metricsAdapter |}.

Section RetryWorkerMethods.
Context {E : Type} `{Runtime E}.
Local Open Scope js_scope.

Abbreviation WState := (RetryWorker E * E)%type.

Definition set_processing (f : gset string -> gset string) : WState -> WState :=
  fun '(w, e) =>
    ({| running := running w; processing := f (processing w);
        worker_options := worker_options w;
        storage := storage w; provider := provider w;
        worker_retryPolicy := worker_retryPolicy w;
        worker_metricsAdapter := worker_metricsAdapter w |}, e).

Definition worker_emitMetric (w : RetryWorker E) (metric : string)
    (value : option Z) : M WState unit :=
  on_snd (run_metric (worker_metricsAdapter w) metric value).

(** The body of the [try] block of [processRetry]. *)
Definition processRetry_body (w : RetryWorker E) (retry : RetryEntry)
    : M WState unit :=
  worker_emitMetric w "worker.retry.processing" None;;
  subscription <- on_snd (getSubscriptionById (storage w) (re_subscriptionId retry));;
  match subscription with
  | None =>
      on_snd (ackRetry (storage w) (re_id retry));;
      worker_emitMetric w "worker.retry.subscription_not_found" None
  | Some subscription =>
      result <- on_snd (send (provider w) subscription (re_payload retry) no_options);;
      if pr_success result then
        on_snd (ackRetry (storage w) (re_id retry));;
        now <- on_snd (perform Date_now);;
        on_snd (updateSubscription (storage w) (id subscription)
                                   (delivered_update now));;
        worker_emitMetric w "worker.retry.success" None
      else
        let shouldRetryAgain :=
          shouldRetry result (re_attempt retry) (maxRetries (worker_retryPolicy w)) in
        if shouldRetryAgain then
          nextRetryAt <- on_snd (perform
            (calculateNextRetry (re_attempt retry + 1) (worker_retryPolicy w)
                                (pr_retryAfter result)));;
          on_snd (enqueueRetry (storage w)
            {| re_id := re_id retry;
               re_subscriptionId := re_subscriptionId retry;
               re_payload := re_payload retry;
               re_attempt := re_attempt retry + 1;
               re_nextRetryAt := nextRetryAt;
               re_lastError := err_message <$> pr_error result;
               re_createdAt := re_createdAt retry |});;
          on_snd (ackRetry (storage w) (re_id retry));;
          worker_emitMetric w "worker.retry.re_enqueued" None
        else
          on_snd (ackRetry (storage w) (re_id retry));;
          on_snd (updateSubscription (storage w) (id subscription)
                                     (expired_update (failedCount subscription)));;
          worker_emitMetric w "worker.retry.max_retries_exceeded" None
  end.

(** The [catch] block of [processRetry]. *)
Definition processRetry_recovery (w : RetryWorker E) (retry : RetryEntry)
    (error : Thrown) : M WState unit :=
  console_error;;
  worker_emitMetric w "worker.retry.error" None;;
  try_catch (on_snd (ackRetry (storage w) (re_id retry)))
            (fun ackError => console_error).

Definition processRetry (retry : RetryEntry) : M WState unit :=
  fun '(w, e) =>
    (modify (set_processing (fun p => {[ re_id retry ]} ∪ p));;
     try_finally
       (try_catch (processRetry_body w retry) (processRetry_recovery w retry))
       (set_processing (fun p => p ∖ {[ re_id retry ]}))) (w, e).
End RetryWorkerMethods.

(** ** SQLite storage adapter (push-storage-sqlite/src/index.ts)

    The two tables of the schema, with the primary-key and foreign-key
    constraints of [retry_queue].  JSON encoding of the [keys], [payload]
    and [metadata] columns is the identity here. *)

Record SubscriptionRow := {
  row_id : string;
  row_endpoint : string;
  row_keys : SubscriptionKeys;
  row_user_id : option string;
  row_created_at : Z;
  row_updated_at : Z;
  row_last_used_at : option Z;
  row_failed_count : Z;
  row_status : SubscriptionStatus;
  row_expires_at : option Z;
  row_metadata : option string;
}.

Record Database := {
  subscriptions : gmap string SubscriptionRow;
  retry_queue : list RetryEntry;
  db_closed : bool;
}.

(** [x ? new Date(x) : undefined] on a nullable integer column. *)
Definition date_column (x : option Z) : option Date :=
  match x with
  | Some t => if t =? 0 then None else Some t
  | None => None
  end.

Definition rowToSubscription (row : SubscriptionRow) : Subscription :=
  {| id := row_id row;
     endpoint := Some (row_endpoint row);
     keys := Some (row_keys row);
     userId := row_user_id row;
     createdAt := row_created_at row;
     updatedAt := row_updated_at row;
     lastUsedAt := date_column (row_last_used_at row);
     failedCount := row_failed_count row;
     status := row_status row;
     expiresAt := date_column (row_expires_at row);
     metadata := row_metadata row |}.

(** The [UPDATE subscriptions SET ... WHERE id = ?] built by
    [updateSubscription]: [updated_at] always, the other columns when the
    update mentions them. *)
Definition apply_update (now : Z) (updates : SubscriptionUpdate)
    (row : SubscriptionRow) : SubscriptionRow :=
  {| row_id := row_id row;
     row_endpoint := spread (row_endpoint row) (upd_endpoint updates);
     row_keys := spread (row_keys row) (upd_keys updates);
     row_user_id := spread_opt (row_user_id row) (upd_userId updates);
     row_created_at := row_created_at row;
     row_updated_at := now;
     row_last_used_at := spread_opt (row_last_used_at row) (upd_lastUsedAt updates);
     row_failed_count := spread (row_failed_count row) (upd_failedCount updates);
     row_status := spread (row_status row) (upd_status updates);
     row_expires_at := spread_opt (row_expires_at row) (upd_expiresAt updates);
     row_metadata := spread_opt (row_metadata row) (upd_metadata updates) |}.

Definition new_StorageError (message operation : string) : Thrown :=
  ThrownError {| err_name := StorageError; err_message := message;
                 err_details := operation_details operation |}.

(** Insertion into a list ordered by [nextRetryAt], after equal keys. *)
Fixpoint insert_by_nextRetryAt (r : RetryEntry) (l : list RetryEntry)
    : list RetryEntry :=
  match l with
  | [] => [r]
  | x :: l' =>
      if re_nextRetryAt r <? re_nextRetryAt x then r :: x :: l'
      else x :: insert_by_nextRetryAt r l'
  end.

Definition order_by_nextRetryAt (l : list RetryEntry) : list RetryEntry :=
  fold_left (fun acc r => insert_by_nextRetryAt r acc) l [].

(** [LIMIT n]: a negative limit means no limit. *)
Definition sql_limit {A} (n : Z) (l : list A) : list A :=
  if n <? 0 then l else take (Z.to_nat n) l.

Section SQLite.
Context {E : Type} `{Runtime E}.
Local Open Scope js_scope.

(** The adapter owns one database inside the external world. *)
Variable get_db : E -> Database.
Variable set_db : Database -> E -> E.

Definition ensureNotClosed : M E unit :=
  fun e =>
    if db_closed (get_db e) then
      (Throw (new_StorageError "Database connection is closed" "ensureNotClosed"), e)
    else (Normal tt, e).

Definition sqlite_getSubscriptionById (id : string) : M E (option Subscription) :=
  ensureNotClosed;;
  e <- get;;
  ret (rowToSubscription <$> subscriptions (get_db e) !! id).

Definition sqlite_updateSubscription (id : string) (updates : SubscriptionUpdate)
    : M E Subscription :=
  ensureNotClosed;;
  current <- sqlite_getSubscriptionById id;;
  match current with
  | None => throw (new_StorageError "Subscription not found" "updateSubscription")
  | Some _ =>
      now <- perform Date_now;;
      modify (fun e =>
        set_db {| subscriptions := alter (apply_update now updates) id
                                         (subscriptions (get_db e));
                  retry_queue := retry_queue (get_db e);
                  db_closed := db_closed (get_db e) |} e);;
      updated <- sqlite_getSubscriptionById id;;
      match updated with
      | None =>
          throw (new_StorageError "Failed to retrieve updated subscription"
                                  "updateSubscription")
      | Some updated => ret updated
      end
  end.

(** [INSERT INTO retry_queue]: rejected when the id is taken (primary key)
    or when the subscription does not exist (foreign key). *)
Definition sqlite_enqueueRetry (retry : RetryEntry) : M E unit :=
  ensureNotClosed;;
  e <- get;;
  let d := get_db e in
  if existsb (fun r => String.eqb (re_id r) (re_id retry)) (retry_queue d)
     || negb (bool_decide (is_Some (subscriptions d !! re_subscriptionId retry)))
  then throw (new_StorageError "Failed to enqueue retry" "enqueueRetry")
  else
    modify (set_db {| subscriptions := subscriptions d;
                      retry_queue := retry_queue d ++ [retry];
                      db_closed := db_closed d |}).

Definition sqlite_dequeueRetry (limit : Z) : M E (list RetryEntry) :=
  ensureNotClosed;;
  now <- perform Date_now;;
  e <- get;;
  ret (sql_limit limit
         (order_by_nextRetryAt
            (filter (fun r => re_nextRetryAt r <= now) (retry_queue (get_db e))))).

Definition sqlite_ackRetry (retryId : string) : M E unit :=
  ensureNotClosed;;
  modify (fun e =>
    let d := get_db e in
    set_db {| subscriptions := subscriptions d;
              retry_queue :=
                filter (fun r => re_id r ≠ retryId) (retry_queue d);
              db_closed := db_closed d |} e).

Definition sqlite_close : M E unit :=
  modify (fun e =>
    let d := get_db e in
    if db_closed d then e
    else set_db {| subscriptions := subscriptions d;
                   retry_queue := retry_queue d;
                   db_closed := true |} e).

Definition SQLiteStorageAdapter : StorageAdapter E :=
  {| getSubscriptionById := sqlite_getSubscriptionById;
     updateSubscription := sqlite_updateSubscription;
     enqueueRetry := sqlite_enqueueRetry;
     dequeueRetry := sqlite_dequeueRetry;
     ackRetry := sqlite_ackRetry;
     close := sqlite_close |}.
End SQLite.

(** ** A concrete external world

    One SQLite database, the three sources of the runtime given as
    sequences of future readings, and a log in which recording
    collaborators (the mocks of the test suites) note their calls. *)

Inductive Event :=
| hook_called (name : string) (subscriptionId : string)
| metric_emitted (metric : string) (value : option Z)
| provider_called (subscriptionId : string)
| limiter_called.

Record World := {
  db : Database;
  log : list Event;
  time_at : nat -> Z;
  clock_reads : nat;
  random_at : nat -> Q;
  random_reads : nat;
  uuid_at : nat -> string;
  uuid_reads : nat;
}.

Definition world_set_db (d : Database) (w : World) : World :=
  {| db := d; log := log w;
     time_at := time_at w; clock_reads := clock_reads w;
     random_at := random_at w; random_reads := random_reads w;
     uuid_at := uuid_at w; uuid_reads := uuid_reads w |}.

Definition record (ev : Event) (w : World) : World :=
  {| db := db w; log := log w ++ [ev];
     time_at := time_at w; clock_reads := clock_reads w;
     random_at := random_at w; random_reads := random_reads w;
     uuid_at := uuid_at w; uuid_reads := uuid_reads w |}.

#[export] Instance World_Runtime : Runtime World := {|
  Date_now w :=
    (time_at w (clock_reads w),
     {| db := db w; log := log w;
        time_at := time_at w; clock_reads := S (clock_reads w);
        random_at := random_at w; random_reads := random_reads w;
        uuid_at := uuid_at w; uuid_reads := uuid_reads w |});
  Math_random w :=
    (random_at w (random_reads w),
     {| db := db w; log := log w;
        time_at := time_at w; clock_reads := clock_reads w;
        random_at := random_at w; random_reads := S (random_reads w);
        uuid_at := uuid_at w; uuid_reads := uuid_reads w |});
  randomUUID w :=
    (uuid_at w (uuid_reads w),
     {| db := db w; log := log w;
        time_at := time_at w; clock_reads := clock_reads w;
        random_at := random_at w; random_reads := random_reads w;
        uuid_at := uuid_at w; uuid_reads := S (uuid_reads w) |});
|}.

Definition sqlite : StorageAdapter World := SQLiteStorageAdapter db world_set_db.

(** A provider whose answer is scripted, noting each call. *)
Definition scripted_provider
    (script : Subscription -> NotificationPayload -> SendOptions
              -> Completion ProviderResult) : ProviderAdapter World :=
  {| send subscription payload options :=
       fun w => (script subscription payload options,
                 record (provider_called (id subscription)) w);
     getName := "mock-provider" |}.

(** Hooks that note each call and finish as [outcome] says. *)
Definition recording_hooks (outcome : string -> Completion unit)
    : LifecycleHooks World :=
  {| hook_onSend := Some (fun subscription _ w =>
       (outcome "onSend", record (hook_called "onSend" (id subscription)) w));
     hook_onSuccess := Some (fun subscription _ w =>
       (outcome "onSuccess", record (hook_called "onSuccess" (id subscription)) w));
     hook_onFailure := Some (fun subscription _ w =>
       (outcome "onFailure", record (hook_called "onFailure" (id subscription)) w));
     hook_onRetry := Some (fun subscription _ w =>
       (outcome "onRetry", record (hook_called "onRetry" (id subscription)) w)) |}.

Definition recording_metrics : MetricsAdapter World :=
  {| increment metric := fun w => (Normal tt, record (metric_emitted metric None) w);
     gauge metric value :=
       fun w => (Normal tt, record (metric_emitted metric (Some value)) w) |}.

(** A collaborator that leaves the database alone. *)
Definition db_preserving {A} (m : M World A) : Prop :=
  forall w, db (snd (m w)) = db w.

(** The collaborators other than the storage adapter leave the database
    alone. *)
Definition quiet_hooks (hooks : option (LifecycleHooks World)) : Prop :=
  forall h, hooks = Some h ->
    (forall f s p, hook_onSend h = Some f -> db_preserving (f s p))
    /\ (forall f s r, hook_onSuccess h = Some f -> db_preserving (f s r))
    /\ (forall f s err, hook_onFailure h = Some f -> db_preserving (f s err))
    /\ (forall f s n, hook_onRetry h = Some f -> db_preserving (f s n)).

Definition quiet_metrics (metrics : option (MetricsAdapter World)) : Prop :=
  forall m, metrics = Some m ->
    (forall name, db_preserving (increment m name))
    /\ (forall name value, db_preserving (gauge m name value)).

Definition quiet_provider (provider : ProviderAdapter World) : Prop :=
  forall s p o, db_preserving (send provider s p o).

Definition quiet_configuration (c : PushConfiguration World) : Prop :=
  quiet_hooks (lifecycleHooks c)
  /\ quiet_metrics (metricsAdapter c)
  /\ (forall limiter, rateLimiter c = Some limiter -> db_preserving (acquire limiter))
  /\ (forall provider, providerAdapter c = Some provider -> quiet_provider provider).

(** Every record is stored under its own id. *)
Definition keyed_by_id (d : Database) : Prop :=
  forall key row, subscriptions d !! key = Some row -> row_id row = key.

(** ** Specification-side definitions *)

(** The spec's delay: [min(baseDelay × backoffFactor^attempt, maxDelay)]. *)
Definition spec_delay (attempt : Z) (policy : RetryPolicy) : Q :=
  Qmin (baseDelay policy * backoffFactor policy ^ attempt) (maxDelay policy).

(** The spec's refilled token count at time [now]:
    [min(capacity, tokens + elapsed × refillRate)], [elapsed] in seconds. *)
Definition refilled_at (now : Z) (tb : TokenBucketRateLimiter) : Q :=
  Qmin (capacity tb)
       (tokens tb + inject_Z (now - lastRefill tb) / 1000 * refillRate tb).

(** The same provider result under another status code. *)
Definition with_statusCode (statusCode : option Z) (result : ProviderResult)
    : ProviderResult :=
  {| pr_success := pr_success result;
     pr_statusCode := statusCode;
     pr_error := pr_error result;
     pr_shouldRetry := pr_shouldRetry result;
     pr_retryAfter := pr_retryAfter result |}.

(** The spec's retry decision: [(attempt < maxRetries) AND result.shouldRetry]. *)
Definition spec_shouldRetry (result : ProviderResult) (attempt maxRetries : Z) : bool :=
  (attempt <? maxRetries) && pr_shouldRetry result.

(** ** Paths through [sendNotification] *)

(** The orchestrator while one more operation is in flight. *)
Definition tracked {E} (pc : PushCore E) : PushCore E :=
  {| config := config pc; circuitBreaker := circuitBreaker pc;
     isShuttingDown := isShuttingDown pc;
     inFlightOperations := S (inFlightOperations pc) |}.

(** The external world after a send that stops at validation: the clock is
    read, the [onSend] hook and the attempt metric run, then the [onFailure]
    hook and the error metric.  Nothing else takes part. *)
Definition rejection_world {E} `{Runtime E} (pc : PushCore E)
    (subscription : Subscription) (payload : NotificationPayload)
    (error : JsError) (e : E) : E :=
  let hooks := config pc ?. lifecycleHooks in
  let metrics := config pc ?. metricsAdapter in
  let e1 := snd (Date_now e) in
  let e2 := snd (run_hook (hooks ?. call_onSend subscription payload) e1) in
  let e3 := snd (run_metric metrics "push.send.attempt" None e2) in
  let e4 := snd (run_hook (hooks ?. call_onFailure subscription error) e3) in
  snd (run_metric metrics "push.send.error" None e4).

(** ** Runs of executions and reachable breaker states *)

(** The wrapped function fails, or succeeds, whenever it is called. *)
Definition fails {E T} (fn : M E T) : Prop :=
  forall e, exists t e', fn e = (Throw t, e').

Definition succeeds {E T} (fn : M E T) : Prop :=
  forall e, exists r e', fn e = (Normal r, e').

(** An open breaker as [execute] leaves it when it lets a probe through. *)
Definition half_opened (cb : CircuitBreaker) : CircuitBreaker :=
  {| cb_state := half_open;
     cb_failureCount := cb_failureCount cb;
     cb_successCount := 0;
     cb_lastFailureTime := cb_lastFailureTime cb;
     cb_config := cb_config cb |}.

Section BreakerRuns.
Context {E : Type} `{Runtime E} {T : Type}.

(** [execute] called once per function of the list, one call after the
    other. *)
Fixpoint execute_each (fns : list (M E T)) (s : CircuitBreaker * E)
    : CircuitBreaker * E :=
  match fns with
  | [] => s
  | fn :: rest => execute_each rest (snd (execute fn s))
  end.

(** The states a breaker built with configuration [cfg] can be in. *)
Inductive reachable (cfg : Partial_CircuitBreakerConfig) : CircuitBreaker -> Prop :=
| reachable_new : reachable cfg (new_CircuitBreaker cfg)
| reachable_execute (cb : CircuitBreaker) (e : E) (fn : M E T) :
    reachable cfg cb -> reachable cfg (fst (snd (execute fn (cb, e))))
| reachable_reset (cb : CircuitBreaker) :
    reachable cfg cb -> reachable cfg (reset cb).
End BreakerRuns.

(** ** Sample data, after the fixtures of the test suites *)

Definition empty_db : Database :=
  {| subscriptions := ∅; retry_queue := []; db_closed := false |}.

(** A clock that advances one millisecond per reading, a constant random
    source and numbered UUIDs. *)
Definition sample_world (d : Database) : World :=
  {| db := d; log := [];
     time_at n := 1700000000000 + Z.of_nat n; clock_reads := 0;
     random_at n := (1 # 2)%Q; random_reads := 0;
     uuid_at n := String.append "uuid-" (pretty n); uuid_reads := 0 |}.

Definition policy_without_jitter : RetryPolicy :=
  {| maxRetries := 8; baseDelay := 1000; backoffFactor := 2;
     maxDelay := 3600000; jitter := false |}.

Definition sample_breaker_config : CircuitBreakerConfig :=
  {| failureThreshold := 2; resetTimeout := 1; halfOpenMaxAttempts := 2 |}.

Definition provider_down : M World ProviderResult :=
  throw (ThrownError (new_Error "Network unreachable")).

Definition delivered : ProviderResult :=
  {| pr_success := true; pr_statusCode := Some 201; pr_error := None;
     pr_shouldRetry := false; pr_retryAfter := None |}.

Definition provider_up : M World ProviderResult := ret delivered.

(** A breaker that opened at the given time. *)
Definition tripped_breaker (config : CircuitBreakerConfig) (at_time : Date)
    : CircuitBreaker :=
  {| cb_state := open;
     cb_failureCount := failureThreshold config;
     cb_successCount := 0;
     cb_lastFailureTime := Some at_time;
     cb_config := config |}.

Definition sample_bucket : TokenBucketRateLimiter :=
  {| capacity := 10; refillRate := 5; tokens := 2; lastRefill := 1699999999000 |}.

Definition sample_vapidKeys : VapidKeys :=
  {| publicKey := Some "test-public-key"; privateKey := Some "test-private-key";
     subject := None |}.

(** The configuration of the test suites: SQLite storage, a scripted
    provider, recording hooks and metrics. *)
Definition sample_configuration
    (script : Subscription -> NotificationPayload -> SendOptions
              -> Completion ProviderResult) : PushConfiguration World :=
  {| vapidKeys := Some sample_vapidKeys;
     storageAdapter := Some sqlite;
     providerAdapter := Some (scripted_provider script);
     retryPolicy := None;
     rateLimiter := None;
     metricsAdapter := Some recording_metrics;
     circuitBreaker_config := None;
     batchConfig := None;
     lifecycleHooks := Some (recording_hooks (fun _ => Normal tt)) |}.

Definition sample_core
    (script : Subscription -> NotificationPayload -> SendOptions
              -> Completion ProviderResult) : PushCore World :=
  configure (sample_configuration script) new_PushCore.

Definition sample_keys : SubscriptionKeys :=
  {| p256dh := Some "test-p256dh"; auth := Some "test-auth" |}.

Definition sample_subscription : Subscription :=
  {| id := "sub-1"; endpoint := Some "https://push.example.com/test";
     keys := Some sample_keys; userId := None;
     createdAt := 1699999990000; updatedAt := 1699999990000;
     lastUsedAt := None; failedCount := 3; status := active;
     expiresAt := None; metadata := None |}.

Definition subscription_without_endpoint : Subscription :=
  {| id := "sub-1"; endpoint := None;
     keys := Some sample_keys; userId := None;
     createdAt := 1699999990000; updatedAt := 1699999990000;
     lastUsedAt := None; failedCount := 0; status := active;
     expiresAt := None; metadata := None |}.

Definition sample_payload : NotificationPayload :=
  {| title := "Test Notification"; body := "Test body"; payload_rest := "" |}.

Definition always_delivers (_ : Subscription) (_ : NotificationPayload)
    (_ : SendOptions) : Completion ProviderResult := Normal delivered.

(** The stored record of [sample_subscription]: three failures counted. *)
Definition sample_row : SubscriptionRow :=
  {| row_id := "sub-1"; row_endpoint := "https://push.example.com/test";
     row_keys := sample_keys; row_user_id := None;
     row_created_at := 1699999990000; row_updated_at := 1699999990000;
     row_last_used_at := None; row_failed_count := 3; row_status := active;
     row_expires_at := None; row_metadata := None |}.

Definition sample_db : Database :=
  {| subscriptions := {[ "sub-1" := sample_row ]};
     retry_queue := []; db_closed := false |}.

Definition server_error : ProviderResult :=
  {| pr_success := false; pr_statusCode := Some 500;
     pr_error := Some (new_Error "Server error");
     pr_shouldRetry := true; pr_retryAfter := None |}.

Definition gone : ProviderResult :=
  {| pr_success := false; pr_statusCode := Some 410;
     pr_error := Some (new_Error "Gone");
     pr_shouldRetry := false; pr_retryAfter := None |}.

Definition always_fails (_ : Subscription) (_ : NotificationPayload)
    (_ : SendOptions) : Completion ProviderResult := Normal server_error.

(** An entry that has used all eight retries of the default policy. *)
Definition sample_retry : RetryEntry :=
  {| re_id := "retry-1"; re_subscriptionId := "sub-1";
     re_payload := sample_payload; re_attempt := 8;
     re_nextRetryAt := 1699999999000; re_lastError := Some "Server error";
     re_createdAt := 1699999000000 |}.

Definition sample_db_with_retry : Database :=
  {| subscriptions := {[ "sub-1" := sample_row ]};
     retry_queue := [sample_retry]; db_closed := false |}.

Definition sample_worker : RetryWorker World :=
  new_RetryWorker sqlite (scripted_provider always_fails) DEFAULT_RETRY_POLICY
                  (Some recording_metrics).

(** ** Shutdown (core/PushCore.ts) *)

Section PushCoreShutdown.
Context {E : Type} `{Runtime E}.
Local Open Scope js_scope.

Definition set_isShuttingDown (flag : bool) : PushCore E * E -> PushCore E * E :=
  fun '(pc, e) =>
    ({| config := config pc; circuitBreaker := circuitBreaker pc;
        isShuttingDown := flag;
        inFlightOperations := inFlightOperations pc |}, e).

(** [shutdown(timeout)].  The race between the in-flight operations and the
    timer only waits: tracked operations never reject and the timer
    resolves, so the race completes normally and touches no state.  With
    calls run one after the other none is in flight when [shutdown] starts. *)
Definition shutdown (timeout : Z) : M (PushCore E * E) unit :=
  pc <- this;;
  if isShuttingDown pc then ret tt
  else
    modify (set_isShuttingDown true);;
    try_catch
      (pc <- this;;
       match config pc ?. storageAdapter with
       | Some storage => on_snd (close storage)
       | None => ret tt
       end)
      (fun error => console_error;; throw error).

End PushCoreShutdown.

(** A computation on an object and the external world that leaves the
    object's own fields as they are, however it completes. *)
Definition keeps_fst {S E A} (m : M (S * E) A) : Prop :=
  forall s e, fst (snd (m (s, e))) = s.

(** The same for the orchestrator. *)
Definition keeps_this {E A} (m : M (PushCore E * E) A) : Prop := keeps_fst m.

(** What every breaker built by the constructor and driven through
    [execute] and [reset] satisfies. *)
Definition breaker_consistent (cb : CircuitBreaker) : Prop :=
  0 <= cb_failureCount cb
  /\ match cb_state cb with
     | closed =>
         cb_successCount cb = 0
         /\ (0 < failureThreshold (cb_config cb) ->
             cb_failureCount cb < failureThreshold (cb_config cb))
     | open =>
         cb_successCount cb = 0
         /\ is_Some (cb_lastFailureTime cb)
         /\ failureThreshold (cb_config cb) <= cb_failureCount cb
     | half_open =>
         1 <= cb_successCount cb < halfOpenMaxAttempts (cb_config cb)
         /\ is_Some (cb_lastFailureTime cb)
         /\ failureThreshold (cb_config cb) <= cb_failureCount cb
     end.

Definition shutting_down_error : Thrown :=
  ThrownError (new_Error
    "Push notification system is shutting down. No new operations allowed.").

(** The orchestrator with its breaker replaced, as [execute] leaves it. *)
Definition with_circuitBreaker {E} (cb : CircuitBreaker) (pc : PushCore E)
    : PushCore E :=
  {| config := config pc; circuitBreaker := Some cb;
     isShuttingDown := isShuttingDown pc;
     inFlightOperations := inFlightOperations pc |}.

(** The external world when a send reaches the provider call: the clock
    has been read, the [onSend] hook and the attempt metric have run and
    the rate limiter, if any, has let the call through. *)
Definition world_at_provider_call {E} `{Runtime E} (pc : PushCore E)
    (subscription : Subscription) (payload : NotificationPayload) (e : E) : E :=
  let hooks := config pc ?. lifecycleHooks in
  let metrics := config pc ?. metricsAdapter in
  let e1 := snd (Date_now e) in
  let e2 := snd (run_hook (hooks ?. call_onSend subscription payload) e1) in
  let e3 := snd (run_metric metrics "push.send.attempt" None e2) in
  match config pc ?. rateLimiter with
  | Some limiter => snd (acquire limiter e3)
  | None => e3
  end.

(** The external world after a send that an open breaker rejects: the
    breaker reads the clock, then the [onFailure] hook and the error metric
    run. *)
Definition breaker_rejection_world {E} `{Runtime E} (pc : PushCore E)
    (subscription : Subscription) (payload : NotificationPayload)
    (error : JsError) (e : E) : E :=
  let hooks := config pc ?. lifecycleHooks in
  let metrics := config pc ?. metricsAdapter in
  let e1 := snd (Date_now (world_at_provider_call pc subscription payload e)) in
  let e2 := snd (run_hook (hooks ?. call_onFailure subscription error) e1) in
  snd (run_metric metrics "push.send.error" None e2).

Definition provider_unreachable (_ : Subscription) (_ : NotificationPayload)
    (_ : SendOptions) : Completion ProviderResult :=
  Throw (ThrownError (new_Error "Network unreachable")).

(** The entry [sendNotification] puts on the retry queue after a failed
    first attempt. *)
Definition first_retry (uuid : string) (subscription : Subscription)
    (payload : NotificationPayload) (result : ProviderResult)
    (nextRetryAt created : Date) : RetryEntry :=
  {| re_id := uuid;
     re_subscriptionId := id subscription;
     re_payload := payload;
     re_attempt := 0;
     re_nextRetryAt := nextRetryAt;
     re_lastError := err_message <$> pr_error result;
     re_createdAt := created |}.

(** [retry_queue] holds an entry under this id. *)
Definition id_taken (retryId : string) (d : Database) : bool :=
  existsb (fun r => String.eqb (re_id r) retryId) (retry_queue d).

Definition always_gone (_ : Subscription) (_ : NotificationPayload)
    (_ : SendOptions) : Completion ProviderResult := Normal gone.

(** The configuration [sample_core] holds after [configure]. *)
Definition sample_configuration_merged
    (script : Subscription -> NotificationPayload -> SendOptions
              -> Completion ProviderResult) : PushConfiguration World :=
  default (sample_configuration script) (config (sample_core script)).


(** The worker with its set of entries in process replaced. *)
Definition with_processing {E} (p : gset string) (w : RetryWorker E)
    : RetryWorker E :=
  {| running := running w; processing := p;
     worker_options := worker_options w;
     storage := storage w; provider := provider w;
     worker_retryPolicy := worker_retryPolicy w;
     worker_metricsAdapter := worker_metricsAdapter w |}.



(** An entry with retries left, and the queue it was read from. *)
Definition pending_retry : RetryEntry :=
  {| re_id := "retry-2"; re_subscriptionId := "sub-1";
     re_payload := sample_payload; re_attempt := 1;
     re_nextRetryAt := 1699999999000; re_lastError := Some "Server error";
     re_createdAt := 1699999000000 |}.

Definition sample_db_pending : Database :=
  {| subscriptions := {[ "sub-1" := sample_row ]};
     retry_queue := [pending_retry]; db_closed := false |}.

(** An entry whose subscription has been deleted. *)
Definition orphan_retry : RetryEntry :=
  {| re_id := "retry-3"; re_subscriptionId := "sub-9";
     re_payload := sample_payload; re_attempt := 1;
     re_nextRetryAt := 1699999999000; re_lastError := None;
     re_createdAt := 1699999000000 |}.

Definition sample_db_orphan : Database :=
  {| subscriptions := {[ "sub-1" := sample_row ]};
     retry_queue := [pending_retry; orphan_retry]; db_closed := false |}.

Definition worker_with (script : Subscription -> NotificationPayload -> SendOptions
                                 -> Completion ProviderResult)
    : RetryWorker World :=
  new_RetryWorker sqlite (scripted_provider script) DEFAULT_RETRY_POLICY
                  (Some recording_metrics).


Definition closed_error : Thrown :=
  new_StorageError "Database connection is closed" "ensureNotClosed".

(** An update that mentions no field. *)
Definition no_update : SubscriptionUpdate :=
  {| upd_endpoint := None; upd_keys := None; upd_userId := None;
     upd_lastUsedAt := None; upd_failedCount := None; upd_status := None;
     upd_expiresAt := None; upd_metadata := None |}.


(** [ORDER BY next_retry_at ASC] *)
Definition by_nextRetryAt (x y : RetryEntry) : Prop :=
  re_nextRetryAt x <= re_nextRetryAt y.

(** The entries [WHERE next_retry_at <= now] selects. *)
Definition due_at (now : Z) (d : Database) : list RetryEntry :=
  filter (fun r => re_nextRetryAt r <= now) (retry_queue d).

Definition later_retry : RetryEntry :=
  {| re_id := "retry-4"; re_subscriptionId := "sub-1";
     re_payload := sample_payload; re_attempt := 0;
     re_nextRetryAt := 1699999999500; re_lastError := None;
     re_createdAt := 1699999000000 |}.

Definition future_retry : RetryEntry :=
  {| re_id := "retry-5"; re_subscriptionId := "sub-1";
     re_payload := sample_payload; re_attempt := 0;
     re_nextRetryAt := 1800000000000; re_lastError := None;
     re_createdAt := 1699999000000 |}.

Definition sample_db_queue : Database :=
  {| subscriptions := {[ "sub-1" := sample_row ]};
     retry_queue := [later_retry; future_retry; pending_retry];
     db_closed := false |}.


(** ** Token bucket: the blocking [acquire] *)

(** [setTimeout]: the external world at the moment a timer set for [ms]
    milliseconds fires. *)
Class Timers (E : Type) := {
  setTimeout : Z -> E -> E;
}.

Section TokenBucketAcquire.
Context {E : Type} `{Runtime E} `{Timers E}.

(** [sleep(ms)] *)
Definition sleep (ms : Z) (e : E) : E := setTimeout ms e.

(** [this.tokens -= tokens] *)
Definition consume (n : Q) (tb : TokenBucketRateLimiter) : TokenBucketRateLimiter :=
  {| capacity := capacity tb; refillRate := refillRate tb;
     tokens := (tokens tb - n)%Q; lastRefill := lastRefill tb |}.

(** The [while (this.tokens < tokens)] loop of [acquire], run for at most
    [fuel] tests of its condition; [None] when the loop is still waiting
    after that. *)
Fixpoint acquire_wait (fuel : nat) (n : Q) (tb : TokenBucketRateLimiter) (e : E)
    : option (TokenBucketRateLimiter * E) :=
  match fuel with
  | O => None
  | S fuel' =>
      if negb (Qle_bool n (tokens tb)) then
        let e1 := sleep 100 e in
        let '(tb1, e2) := refill tb e1 in
        acquire_wait fuel' n tb1 e2
      else Some (consume n tb, e)
  end.

(** [acquire(tokens)] of the token bucket. *)
Definition TokenBucket_acquire (fuel : nat) (n : Q) (tb : TokenBucketRateLimiter)
    (e : E) : option (TokenBucketRateLimiter * E) :=
  let '(tb1, e1) := refill tb e in
  acquire_wait fuel n tb1 e1.
End TokenBucketAcquire.

(** A wall clock: the time passes only while a timer runs. *)
Record WallClock := { wall_time : Z }.

#[export] Instance WallClock_Runtime : Runtime WallClock := {|
  Date_now c := (wall_time c, c);
  Math_random c := ((1 # 2)%Q, c);
  randomUUID c := ("00000000-0000-4000-8000-000000000000", c);
|}.

#[export] Instance WallClock_Timers : Timers WallClock := {|
  setTimeout ms c := {| wall_time := wall_time c + ms |};
|}.

(** Ten tokens at most, five per second, empty at time 0. *)
Definition empty_bucket : TokenBucketRateLimiter :=
  {| capacity := 10; refillRate := 5; tokens := 0; lastRefill := 0 |}.


(** ** Splitting into chunks (batchSend, processRetriesWithConcurrency) *)

(** [Array.prototype.slice(start, end)]: negative indices count from the
    end, both are clamped to the array. *)
Definition js_slice {A} (start stop : Z) (l : list A) : list A :=
  let len := Z.of_nat (length l) in
  let from := if start <? 0 then Z.max (len + start) 0 else Z.min start len in
  let to := if stop <? 0 then Z.max (len + stop) 0 else Z.min stop len in
  take (Z.to_nat (to - from)) (drop (Z.to_nat from) l).

(** [for (let i = ...; i < xs.length; i += size)
       chunks.push(xs.slice(i, i + size))],
    run for at most [fuel] tests of its condition; [None] when the loop is
    still running after that. *)
Fixpoint chunks_from {A} (fuel : nat) (size i : Z) (xs : list A)
    (chunks : list (list A)) : option (list (list A)) :=
  match fuel with
  | O => None
  | S fuel' =>
      if i <? Z.of_nat (length xs) then
        chunks_from fuel' size (i + size) xs (chunks ++ [js_slice i (i + size) xs])
      else Some chunks
  end.

Definition split_into_chunks {A} (fuel : nat) (size : Z) (xs : list A)
    : option (list (list A)) :=
  chunks_from fuel size 0 xs [].


(** A complete configuration without a provider adapter. *)
Definition configuration_without_provider : PushConfiguration World :=
  {| vapidKeys := Some sample_vapidKeys;
     storageAdapter := Some sqlite;
     providerAdapter := None;
     retryPolicy := None;
     rateLimiter := None;
     metricsAdapter := Some recording_metrics;
     circuitBreaker_config := None;
     batchConfig := None;
     lifecycleHooks := Some (recording_hooks (fun _ => Normal tt)) |}.


(** ** SQLite storage adapter: creating and deleting subscriptions *)

(** [CreateSubscriptionData] *)
Record CreateSubscriptionData := {
  csd_endpoint : string;
  csd_keys : SubscriptionKeys;
  csd_userId : option string;
  csd_expiresAt : option Date;
  csd_metadata : option string;
}.

Section SQLiteSubscriptions.
Context {E : Type} `{Runtime E}.
Local Open Scope js_scope.

Variable get_db : E -> Database.
Variable set_db : Database -> E -> E.

(** [createSubscription(data)]: the [INSERT] is refused when the id is
    taken (primary key). *)
Definition sqlite_createSubscription (data : CreateSubscriptionData)
    : M E Subscription :=
  ensureNotClosed get_db;;
  id <- perform randomUUID;;
  now <- perform Date_now;;
  let subscription :=
    {| id := id;
       endpoint := Some (csd_endpoint data);
       keys := Some (csd_keys data);
       userId := csd_userId data;
       createdAt := now;
       updatedAt := now;
       lastUsedAt := None;
       failedCount := 0;
       status := active;
       expiresAt := csd_expiresAt data;
       metadata := csd_metadata data |} in
  e <- get;;
  let d := get_db e in
  if bool_decide (is_Some (subscriptions d !! id))
  then throw (new_StorageError "Failed to create subscription" "createSubscription")
  else
    modify (set_db
      {| subscriptions :=
           <[id := {| row_id := id;
                      row_endpoint := csd_endpoint data;
                      row_keys := csd_keys data;
                      row_user_id := csd_userId data;
                      row_created_at := now;
                      row_updated_at := now;
                      row_last_used_at := None;
                      row_failed_count := 0;
                      row_status := active;
                      row_expires_at := csd_expiresAt data;
                      row_metadata := csd_metadata data |}]>
             (subscriptions d);
         retry_queue := retry_queue d;
         db_closed := db_closed d |});;
    ret subscription.

(** [deleteSubscription(id)]: [DELETE FROM subscriptions WHERE id = ?],
    the retry entries of the subscription going with it
    ([ON DELETE CASCADE]). *)
Definition sqlite_deleteSubscription (id : string) : M E unit :=
  ensureNotClosed get_db;;
  modify (fun e =>
    let d := get_db e in
    set_db {| subscriptions := delete id (subscriptions d);
              retry_queue :=
                filter (fun r => re_subscriptionId r ≠ id) (retry_queue d);
              db_closed := db_closed d |} e).
End SQLiteSubscriptions.

(** One call of the adapter. *)
Inductive AdapterCall :=
| call_createSubscription (data : CreateSubscriptionData)
| call_getSubscriptionById (id : string)
| call_updateSubscription (id : string) (updates : SubscriptionUpdate)
| call_deleteSubscription (id : string)
| call_enqueueRetry (retry : RetryEntry)
| call_dequeueRetry (limit : Z)
| call_ackRetry (retryId : string)
| call_close.

(** The external world after the call, however it completes. *)
Definition after_call (call : AdapterCall) (w : World) : World :=
  match call with
  | call_createSubscription data =>
      snd (sqlite_createSubscription db world_set_db data w)
  | call_getSubscriptionById id => snd (getSubscriptionById sqlite id w)
  | call_updateSubscription id updates => snd (updateSubscription sqlite id updates w)
  | call_deleteSubscription id => snd (sqlite_deleteSubscription db world_set_db id w)
  | call_enqueueRetry retry => snd (enqueueRetry sqlite retry w)
  | call_dequeueRetry limit => snd (dequeueRetry sqlite limit w)
  | call_ackRetry retryId => snd (ackRetry sqlite retryId w)
  | call_close => snd (close sqlite w)
  end.

Definition after_calls (calls : list AdapterCall) (w : World) : World :=
  fold_left (fun w call => after_call call w) calls w.

(** What the schema promises of the two tables: every record is stored
    under its own id, no two queue entries share an id, and every queue
    entry belongs to a stored subscription. *)
Definition db_consistent (d : Database) : Prop :=
  keyed_by_id d
  /\ NoDup (re_id <$> retry_queue d)
  /\ Forall (fun r => is_Some (subscriptions d !! re_subscriptionId r))
            (retry_queue d).

Definition sample_data : CreateSubscriptionData :=
  {| csd_endpoint := "https://push.example.com/test";
     csd_keys := sample_keys; csd_userId := Some "user-1";
     csd_expiresAt := None; csd_metadata := None |}.

(** * Verification *)

(** One step of a sequence: the first computation of the chain is known to
    complete as [H] says. *)
Ltac run_step H := unfold bind at 1; rewrite H; cbv beta iota.

(** ** The embedding at work: two cases of the orchestrator's test suite *)

(** "should enqueue retry on retriable failure": one entry, attempt 0, due
    one second after the clock reading (the random source at one half makes
    the jitter offset zero). *)
Example retriable_failure_is_enqueued :
  let out :=
    sendNotification sample_subscription sample_payload no_options
      (sample_core always_fails, sample_world sample_db) in
  (sr_success <$> (match fst out with Normal r => Some r | Throw _ => None end),
   sr_enqueued <$> (match fst out with Normal r => Some r | Throw _ => None end),
   (fun r => (re_subscriptionId r, re_attempt r, re_nextRetryAt r))
     <$> retry_queue (db (snd (snd out))))
  = (Some false, Some (Some true), [("sub-1", 0, 1700000001001)]).
Proof. vm_compute. reflexivity. Qed.

(** "should not enqueue retry on non-retriable failure" *)
Example permanent_failure_is_not_enqueued :
  let out :=
    sendNotification sample_subscription sample_payload no_options
      (sample_core (fun _ _ _ => Normal gone), sample_world sample_db) in
  (sr_success <$> (match fst out with Normal r => Some r | Throw _ => None end),
   sr_enqueued <$> (match fst out with Normal r => Some r | Throw _ => None end),
   retry_queue (db (snd (snd out))))
  = (Some false, Some (Some false), []).
Proof. vm_compute. reflexivity. Qed.

(** ** Numbers and dates *)








(** ** Retry decision *)

Lemma shouldRetry_equation (result : ProviderResult) (attempt maxRetries : Z) :
  shouldRetry result attempt maxRetries
  = (attempt <? maxRetries) && pr_shouldRetry result.
Proof.
  unfold shouldRetry.
  destruct (Z.geb_spec attempt maxRetries) as [Hge | Hlt].
  - replace (attempt <? maxRetries) with false by (symmetry; apply Z.ltb_ge; lia).
    reflexivity.
  - replace (attempt <? maxRetries) with true by (symmetry; apply Z.ltb_lt; lia).
    destruct (pr_shouldRetry result); simpl; [| reflexivity].
    destruct (pr_statusCode result) as [c |]; simpl; [| reflexivity].
    destruct (negb (c =? 0) && ((c >=? 500) && (c <? 600))); [reflexivity |].
    destruct (c =? 429); reflexivity.
Qed.

Lemma shouldRetry_exhausted (result : ProviderResult) (attempt maxRetries : Z) :
  maxRetries <= attempt -> shouldRetry result attempt maxRetries = false.
Proof.
  intros Hge. rewrite shouldRetry_equation.
  replace (attempt <? maxRetries) with false by (symmetry; apply Z.ltb_ge; lia).
  reflexivity.
Qed.

(** C7. [shouldRetry(result, attempt, maxRetries)] is exactly
    [(attempt < maxRetries) AND result.shouldRetry]: it is false once the
    attempts are exhausted, whatever the provider's flag, and the provider's
    flag otherwise (so false when the provider says not to retry); replacing
    the status code by any other, or by none, never changes the answer. *)
Theorem shouldRetry_is_budget_and_flag (result : ProviderResult) (attempt maxRetries : Z) :
  shouldRetry result attempt maxRetries = spec_shouldRetry result attempt maxRetries
  /\ shouldRetry result attempt maxRetries
     = (if attempt >=? maxRetries then false else pr_shouldRetry result)
  /\ forall statusCode : option Z,
       shouldRetry (with_statusCode statusCode result) attempt maxRetries
       = shouldRetry result attempt maxRetries.
Proof.
  unfold spec_shouldRetry. rewrite !shouldRetry_equation. split; [reflexivity |].
  split.
  - destruct (Z.geb_spec attempt maxRetries) as [Hge | Hlt].
    + replace (attempt <? maxRetries) with false by (symmetry; apply Z.ltb_ge; lia).
      reflexivity.
    + replace (attempt <? maxRetries) with true by (symmetry; apply Z.ltb_lt; lia).
      reflexivity.
  - intros statusCode. rewrite shouldRetry_equation. reflexivity.
Qed.

(** ** Retry policy calculator *)

Section CalculateNextRetryProofs.
Context {E : Type} `{Runtime E}.


End CalculateNextRetryProofs.





(** ** Circuit breaker *)

Section CircuitBreakerProofs.
Context {E : Type} `{Runtime E} {T : Type}.
Implicit Types (cb : CircuitBreaker) (e : E) (fn : M E T).

Lemma guard_call_not_open cb e :
  cb_state cb <> open -> guard_call cb e = (inl cb, e).
Proof. unfold guard_call. destruct (cb_state cb); congruence. Qed.

Lemma execute_throw_not_open cb e fn t e' :
  cb_state cb <> open -> fn e = (Throw t, e') ->
  execute fn (cb, e) = (Throw t, onFailure cb e').
Proof.
  intros Hst Hfn. unfold execute. rewrite guard_call_not_open, Hfn by assumption.
  destruct (onFailure cb e'); reflexivity.
Qed.

Lemma execute_normal_not_open cb e fn r e' :
  cb_state cb <> open -> fn e = (Normal r, e') ->
  execute fn (cb, e) = (Normal r, (onSuccess cb, e')).
Proof.
  intros Hst Hfn. unfold execute. now rewrite guard_call_not_open, Hfn.
Qed.

Lemma onFailure_below cb e :
  cb_failureCount cb + 1 < failureThreshold (cb_config cb) ->
  cb_state (fst (onFailure cb e)) = cb_state cb
  /\ cb_failureCount (fst (onFailure cb e)) = cb_failureCount cb + 1
  /\ cb_config (fst (onFailure cb e)) = cb_config cb.
Proof.
  intros Hlt. unfold onFailure. destruct (Date_now e) as [now e1].
  destruct (Z.geb_spec (cb_failureCount cb + 1) (failureThreshold (cb_config cb)));
    [lia | simpl; auto].
Qed.

Lemma onFailure_reaching cb e :
  failureThreshold (cb_config cb) <= cb_failureCount cb + 1 ->
  cb_state (fst (onFailure cb e)) = open
  /\ cb_failureCount (fst (onFailure cb e)) = cb_failureCount cb + 1
  /\ cb_successCount (fst (onFailure cb e)) = 0
  /\ cb_lastFailureTime (fst (onFailure cb e)) = Some (fst (Date_now e))
  /\ cb_config (fst (onFailure cb e)) = cb_config cb.
Proof.
  intros Hge. unfold onFailure. destruct (Date_now e) as [now e1].
  destruct (Z.geb_spec (cb_failureCount cb + 1) (failureThreshold (cb_config cb)));
    [simpl; auto | lia].
Qed.

(** Failures short of the threshold leave a closed breaker closed. *)
Lemma failures_below_threshold (fns : list (M E T)) : forall cb e,
  cb_state cb = closed ->
  Forall fails fns ->
  cb_failureCount cb + Z.of_nat (length fns) < failureThreshold (cb_config cb) ->
  let cb' := fst (execute_each fns (cb, e)) in
  cb_state cb' = closed
  /\ cb_failureCount cb' = cb_failureCount cb + Z.of_nat (length fns)
  /\ cb_config cb' = cb_config cb.
Proof.
  induction fns as [| fn rest IH]; intros cb e Hclosed Hfail Hlen;
    cbv zeta; cbn [execute_each length] in *.
  - simpl. repeat split; auto; lia.
  - apply Forall_cons in Hfail as [Hfn Hrest].
    destruct (Hfn e) as (t & e' & Hthrow).
    rewrite (execute_throw_not_open cb e fn t e') by (auto; congruence).
    destruct (onFailure_below cb e') as (Hst & Hcnt & Hcfg); [lia |].
    destruct (onFailure cb e') as [cb1 e1] eqn:Hfailure. cbn [fst snd] in *.
    destruct (IH cb1 e1) as (Hst' & Hcnt' & Hcfg'); auto; try congruence.
    { rewrite Hcnt, Hcfg. lia. }
    repeat split; auto; try congruence. rewrite Hcnt', Hcnt. lia.
Qed.

(** The failure that brings the count to the threshold opens the breaker. *)
Lemma failures_reaching_threshold (fns : list (M E T)) : forall cb e,
  cb_state cb = closed ->
  Forall fails fns ->
  fns <> [] ->
  cb_failureCount cb + Z.of_nat (length fns) = failureThreshold (cb_config cb) ->
  let cb' := fst (execute_each fns (cb, e)) in
  cb_state cb' = open
  /\ cb_failureCount cb' = failureThreshold (cb_config cb)
  /\ cb_config cb' = cb_config cb.
Proof.
  induction fns as [| fn rest IH]; intros cb e Hclosed Hfail Hne Hlen; [done |].
  apply Forall_cons in Hfail as [Hfn Hrest].
  destruct (Hfn e) as (t & e' & Hthrow).
  cbv zeta. cbn [execute_each].
  rewrite (execute_throw_not_open cb e fn t e') by (auto; congruence).
  destruct rest as [| fn' rest'].
  - cbn [execute_each length snd] in *.
    destruct (onFailure_reaching cb e') as (Hst & Hcnt & _ & _ & Hcfg); [lia |].
    repeat split; auto. lia.
  - destruct (onFailure_below cb e') as (Hst & Hcnt & Hcfg).
    { cbn [length] in Hlen. lia. }
    destruct (onFailure cb e') as [cb1 e1] eqn:Hfailure. cbn [fst snd] in *.
    destruct (IH cb1 e1) as (Hst' & Hcnt' & Hcfg'); auto; try congruence.
    { rewrite Hcnt, Hcfg. cbn [length] in *. lia. }
    repeat split; congruence.
Qed.

Lemma execute_rejects cb e fn t0 :
  cb_state cb = open ->
  cb_lastFailureTime cb = Some t0 ->
  fst (Date_now e) - t0 < resetTimeout (cb_config cb) ->
  execute fn (cb, e) =
    (Throw (ThrownError (CircuitBreakerOpen cb)), (cb, snd (Date_now e))).
Proof.
  intros Hopen Hlast Hearly. unfold execute, guard_call, shouldAttemptReset.
  rewrite Hopen, Hlast. destruct (Date_now e) as [now e1]. simpl in *.
  destruct (Z.geb_spec (now - t0) (resetTimeout (cb_config cb))); [lia | reflexivity].
Qed.

Lemma execute_probes cb e fn t0 :
  cb_state cb = open ->
  cb_lastFailureTime cb = Some t0 ->
  resetTimeout (cb_config cb) <= fst (Date_now e) - t0 ->
  guard_call cb e = (inl (half_opened cb), snd (Date_now e))
  /\ execute fn (cb, e) =
       match fn (snd (Date_now e)) with
       | (Normal result, e2) => (Normal result, (onSuccess (half_opened cb), e2))
       | (Throw error, e2) => (Throw error, onFailure (half_opened cb) e2)
       end.
Proof.
  intros Hopen Hlast Hlate.
  assert (Hguard : guard_call cb e = (inl (half_opened cb), snd (Date_now e))).
  { unfold guard_call, shouldAttemptReset, half_opened. rewrite Hopen, Hlast.
    destruct (Date_now e) as [now e1]. simpl in *.
    destruct (Z.geb_spec (now - t0) (resetTimeout (cb_config cb)));
      [reflexivity | lia]. }
  split; [exact Hguard |]. unfold execute. rewrite Hguard.
  destruct (fn (snd (Date_now e))) as [[result | error] e2]; [reflexivity |].
  destruct (onFailure (half_opened cb) e2); reflexivity.
Qed.
End CircuitBreakerProofs.

Section HalfOpenProofs.
Context {E : Type} `{Runtime E} {T : Type}.
Implicit Types (cb : CircuitBreaker) (e : E) (fn : M E T).

Lemma onSuccess_half_open_below cb :
  cb_state cb = half_open ->
  cb_successCount cb + 1 < halfOpenMaxAttempts (cb_config cb) ->
  onSuccess cb =
    {| cb_state := half_open;
       cb_failureCount := cb_failureCount cb;
       cb_successCount := cb_successCount cb + 1;
       cb_lastFailureTime := cb_lastFailureTime cb;
       cb_config := cb_config cb |}.
Proof.
  intros Hst Hlt. unfold onSuccess. rewrite Hst.
  destruct (Z.geb_spec (cb_successCount cb + 1) (halfOpenMaxAttempts (cb_config cb)));
    [lia | reflexivity].
Qed.

Lemma onSuccess_half_open_reaching cb :
  cb_state cb = half_open ->
  halfOpenMaxAttempts (cb_config cb) <= cb_successCount cb + 1 ->
  onSuccess cb = reset cb.
Proof.
  intros Hst Hge. unfold onSuccess, reset. rewrite Hst.
  destruct (Z.geb_spec (cb_successCount cb + 1) (halfOpenMaxAttempts (cb_config cb)));
    [reflexivity | lia].
Qed.

(** Successes short of [halfOpenMaxAttempts] keep the breaker half-open
    and only count. *)
Lemma successes_below_quota (fns : list (M E T)) : forall cb e,
  cb_state cb = half_open ->
  Forall succeeds fns ->
  cb_successCount cb + Z.of_nat (length fns) < halfOpenMaxAttempts (cb_config cb) ->
  fst (execute_each fns (cb, e)) =
    {| cb_state := half_open;
       cb_failureCount := cb_failureCount cb;
       cb_successCount := cb_successCount cb + Z.of_nat (length fns);
       cb_lastFailureTime := cb_lastFailureTime cb;
       cb_config := cb_config cb |}.
Proof.
  induction fns as [| fn rest IH]; intros cb e Hst Hok Hlen;
    cbn [execute_each length] in *.
  - destruct cb; simpl in *. subst. f_equal. lia.
  - apply Forall_cons in Hok as [Hfn Hrest].
    destruct (Hfn e) as (r & e' & Hret).
    rewrite (execute_normal_not_open cb e fn r e') by (auto; congruence).
    cbn [snd]. rewrite onSuccess_half_open_below by (auto; lia).
    rewrite IH.
    + cbn [cb_successCount cb_config cb_failureCount cb_lastFailureTime].
      f_equal. lia.
    + reflexivity.
    + assumption.
    + cbn [cb_successCount cb_config]. lia.
Qed.

(** The success that fills the quota closes the breaker and clears it. *)
Lemma successes_reaching_quota (fns : list (M E T)) : forall cb e,
  cb_state cb = half_open ->
  Forall succeeds fns ->
  fns <> [] ->
  cb_successCount cb + Z.of_nat (length fns) = halfOpenMaxAttempts (cb_config cb) ->
  fst (execute_each fns (cb, e)) = reset cb.
Proof.
  induction fns as [| fn rest IH]; intros cb e Hst Hok Hne Hlen; [done |].
  apply Forall_cons in Hok as [Hfn Hrest].
  destruct (Hfn e) as (r & e' & Hret).
  cbn [execute_each].
  rewrite (execute_normal_not_open cb e fn r e') by (auto; congruence).
  cbn [snd]. destruct rest as [| fn' rest'].
  - cbn [execute_each length fst] in *.
    apply onSuccess_half_open_reaching; auto; lia.
  - cbn [length] in Hlen.
    rewrite onSuccess_half_open_below by (auto; lia).
    rewrite IH.
    + reflexivity.
    + reflexivity.
    + assumption.
    + discriminate.
    + cbn [length cb_successCount cb_config]. lia.
Qed.

(** A breaker that is not closed has counted at least [failureThreshold]
    failures, and no call changes the configuration. *)
Lemma reachable_invariant (cfg : Partial_CircuitBreakerConfig) cb :
  reachable (E := E) (T := T) cfg cb ->
  cb_config cb = cb_config (new_CircuitBreaker cfg)
  /\ (cb_state cb <> closed ->
      failureThreshold (cb_config cb) <= cb_failureCount cb).
Proof.
  induction 1 as [| cb e fn Hreach [IHcfg IHcount] | cb Hreach [IHcfg IHcount]].
  - split; [reflexivity | simpl; congruence].
  - unfold execute, guard_call, shouldAttemptReset.
    destruct (cb_state cb) eqn:Hst.
    + destruct (fn e) as [[r | t] e2]; cbn [fst snd].
      * unfold onSuccess. rewrite Hst. simpl. split; [assumption | congruence].
      * unfold onFailure. destruct (Date_now e2) as [now e3].
        destruct (Z.geb_spec (cb_failureCount cb + 1)
                             (failureThreshold (cb_config cb)));
          cbn [fst snd cb_state cb_config cb_failureCount];
          (split; [assumption | intros; try lia; congruence]).
    + assert (Hcount : failureThreshold (cb_config cb) <= cb_failureCount cb)
        by (apply IHcount; congruence).
      destruct (cb_lastFailureTime cb) as [t0 |].
      * destruct (Date_now e) as [now e1].
        destruct (now - t0 >=? resetTimeout (cb_config cb)).
        -- destruct (fn e1) as [[r | t] e2]; cbn [fst snd].
           ++ unfold onSuccess. cbn [cb_state cb_successCount cb_config].
              destruct (0 + 1 >=? halfOpenMaxAttempts (cb_config cb));
                cbn [fst snd cb_state cb_config cb_failureCount];
                (split; [assumption | intros; congruence || assumption]).
           ++ unfold onFailure. destruct (Date_now e2) as [now' e3].
              cbn [cb_failureCount cb_config cb_state cb_successCount].
              destruct (Z.geb_spec (cb_failureCount cb + 1)
                                   (failureThreshold (cb_config cb)));
                cbn [fst snd cb_state cb_config cb_failureCount];
                (split; [assumption | intros; lia]).
        -- cbn [fst snd]. split; [assumption | intros; assumption].
      * cbn [fst snd]. split; [assumption | intros; assumption].
    + assert (Hcount : failureThreshold (cb_config cb) <= cb_failureCount cb)
        by (apply IHcount; congruence).
      destruct (fn e) as [[r | t] e2]; cbn [fst snd].
      * unfold onSuccess. rewrite Hst.
        destruct (cb_successCount cb + 1 >=? halfOpenMaxAttempts (cb_config cb));
          cbn [fst snd cb_state cb_config cb_failureCount];
          (split; [assumption | intros; congruence || assumption]).
      * unfold onFailure. destruct (Date_now e2) as [now' e3].
        destruct (Z.geb_spec (cb_failureCount cb + 1)
                             (failureThreshold (cb_config cb)));
          cbn [fst snd cb_state cb_config cb_failureCount];
          (split; [assumption | intros; lia]).
  - split; [assumption | simpl; congruence].
Qed.

(** One failure reopens a breaker that has counted [failureThreshold]
    failures, whatever state it is in. *)
Lemma failure_over_threshold cb e :
  failureThreshold (cb_config cb) <= cb_failureCount cb ->
  cb_state (fst (onFailure cb e)) = open.
Proof. intros Hge. apply onFailure_reaching. lia. Qed.
End HalfOpenProofs.

(** C3. From the closed state with no failure counted, failed executions
    fewer than [failureThreshold] leave the breaker closed and the
    [failureThreshold]-th opens it.  While the breaker is open and less than
    [resetTimeout] has passed since the last failure, [execute] rejects with
    the breaker-open error whatever the wrapped function is, leaving breaker
    and world as they were (the clock reading apart).  Once [resetTimeout]
    has passed, the next [execute] moves the breaker to half-open with the
    success counter at zero and calls the function. *)
Theorem breaker_trips_rejects_and_probes {E : Type} `{Runtime E} {T : Type} :
  (forall (cb : CircuitBreaker) (e : E) (fns : list (M E T)),
     cb_state cb = closed ->
     cb_failureCount cb = 0 ->
     0 < failureThreshold (cb_config cb) ->
     Forall fails fns ->
     (Z.of_nat (length fns) < failureThreshold (cb_config cb) ->
      cb_state (fst (execute_each fns (cb, e))) = closed)
     /\ (Z.of_nat (length fns) = failureThreshold (cb_config cb) ->
         cb_state (fst (execute_each fns (cb, e))) = open))
  /\ (forall (cb : CircuitBreaker) (e : E) (fn : M E T) (lastFailure : Date),
        cb_state cb = open ->
        cb_lastFailureTime cb = Some lastFailure ->
        fst (Date_now e) - lastFailure < resetTimeout (cb_config cb) ->
        execute fn (cb, e) =
          (Throw (ThrownError (CircuitBreakerOpen cb)), (cb, snd (Date_now e))))
  /\ (forall (cb : CircuitBreaker) (e : E) (fn : M E T) (lastFailure : Date),
        cb_state cb = open ->
        cb_lastFailureTime cb = Some lastFailure ->
        resetTimeout (cb_config cb) <= fst (Date_now e) - lastFailure ->
        guard_call cb e = (inl (half_opened cb), snd (Date_now e))
        /\ execute fn (cb, e) =
             match fn (snd (Date_now e)) with
             | (Normal result, e2) =>
                 (Normal result, (onSuccess (half_opened cb), e2))
             | (Throw error, e2) => (Throw error, onFailure (half_opened cb) e2)
             end).
Proof.
  split; [| split].
  - intros cb e fns Hclosed Hzero Hpos Hfail. split; intros Hlen.
    + apply failures_below_threshold; auto. lia.
    + apply failures_reaching_threshold; auto; [| lia].
      intros ->. simpl in Hlen. lia.
  - intros cb e fn t0. apply execute_rejects.
  - intros cb e fn t0. apply execute_probes.
Qed.

Lemma breaker_trips_rejects_and_probes_witness :
  let w := sample_world empty_db in
  let fresh := new_CircuitBreaker (total_config sample_breaker_config) in
  let stuck := tripped_breaker DEFAULT_CIRCUIT_BREAKER_CONFIG 1699999999000 in
  let due := tripped_breaker sample_breaker_config 1699999999000 in
  cb_state (fst (execute_each [provider_down; provider_down] (fresh, w))) = open
  /\ execute provider_up (stuck, w) =
       (Throw (ThrownError (CircuitBreakerOpen stuck)), (stuck, snd (Date_now w)))
  /\ execute provider_up (due, w) =
       (Normal delivered, (onSuccess (half_opened due), snd (Date_now w))).
Proof.
  pose proof (@breaker_trips_rejects_and_probes World _ ProviderResult)
    as (Htrips & Hrejects & Hprobes).
  assert (Hdown : fails provider_down)
    by (intros e; eexists _, _; reflexivity).
  split; [| split].
  - apply (Htrips _ (sample_world empty_db) [provider_down; provider_down]);
      [reflexivity | reflexivity | reflexivity | repeat constructor; exact Hdown
       | reflexivity].
  - apply (Hrejects _ _ _ 1699999999000); reflexivity.
  - apply (Hprobes (tripped_breaker sample_breaker_config 1699999999000)
                   (sample_world empty_db) provider_up 1699999999000);
      [reflexivity | reflexivity | discriminate].
Defined.

(** C4. In the half-open state one failed execution reopens the breaker,
    be it a later call or the probe that entered half-open itself.  From
    half-open with the success counter at zero, successful executions fewer
    than [halfOpenMaxAttempts] leave it half-open and the
    [halfOpenMaxAttempts]-th closes it with failure count, success count and
    last failure time cleared; counted from the probe, the same holds for an
    open breaker whose [resetTimeout] has passed. *)
Theorem half_open_reopens_or_recloses {E : Type} `{Runtime E} {T : Type} :
  (forall (cfg : Partial_CircuitBreakerConfig) (cb : CircuitBreaker) (e : E)
          (fn : M E T),
     reachable (E := E) (T := T) cfg cb ->
     cb_state cb = half_open ->
     fails fn ->
     cb_state (fst (snd (execute fn (cb, e)))) = open)
  /\ (forall (cfg : Partial_CircuitBreakerConfig) (cb : CircuitBreaker) (e : E)
             (fn : M E T) (lastFailure : Date),
        reachable (E := E) (T := T) cfg cb ->
        cb_state cb = open ->
        cb_lastFailureTime cb = Some lastFailure ->
        resetTimeout (cb_config cb) <= fst (Date_now e) - lastFailure ->
        fails fn ->
        cb_state (fst (snd (execute fn (cb, e)))) = open)
  /\ (forall (cb : CircuitBreaker) (e : E) (fns : list (M E T)),
        cb_state cb = half_open ->
        cb_successCount cb = 0 ->
        Forall succeeds fns ->
        (Z.of_nat (length fns) < halfOpenMaxAttempts (cb_config cb) ->
         cb_state (fst (execute_each fns (cb, e))) = half_open)
        /\ (0 < halfOpenMaxAttempts (cb_config cb) ->
            Z.of_nat (length fns) = halfOpenMaxAttempts (cb_config cb) ->
            fst (execute_each fns (cb, e)) =
              {| cb_state := closed; cb_failureCount := 0; cb_successCount := 0;
                 cb_lastFailureTime := None; cb_config := cb_config cb |}))
  /\ (forall (cb : CircuitBreaker) (e : E) (fns : list (M E T)) (lastFailure : Date),
        cb_state cb = open ->
        cb_lastFailureTime cb = Some lastFailure ->
        resetTimeout (cb_config cb) <= fst (Date_now e) - lastFailure ->
        Forall succeeds fns ->
        0 < halfOpenMaxAttempts (cb_config cb) ->
        Z.of_nat (length fns) = halfOpenMaxAttempts (cb_config cb) ->
        fst (execute_each fns (cb, e)) =
          {| cb_state := closed; cb_failureCount := 0; cb_successCount := 0;
             cb_lastFailureTime := None; cb_config := cb_config cb |}).
Proof.
  split; [| split; [| split]].
  - intros cfg cb e fn Hreach Hhalf Hfn.
    destruct (Hfn e) as (t & e' & Hthrow).
    rewrite (execute_throw_not_open cb e fn t e') by (auto; congruence).
    apply failure_over_threshold.
    apply (reachable_invariant cfg cb Hreach). congruence.
  - intros cfg cb e fn t0 Hreach Hopen Hlast Hlate Hfn.
    destruct (execute_probes cb e fn t0 Hopen Hlast Hlate) as [_ ->].
    destruct (Hfn (snd (Date_now e))) as (t & e' & ->). cbn [snd].
    apply failure_over_threshold. cbn [half_opened cb_config cb_failureCount].
    apply (reachable_invariant cfg cb Hreach). congruence.
  - intros cb e fns Hhalf Hzero Hok. split.
    + intros Hlen. rewrite successes_below_quota by (auto; lia). reflexivity.
    + intros Hpos Hlen. rewrite successes_reaching_quota; auto; [| lia].
      intros ->. simpl in Hlen. lia.
  - intros cb e fns t0 Hopen Hlast Hlate Hok Hpos Hlen.
    destruct fns as [| fn rest]; [simpl in Hlen; lia |].
    apply Forall_cons in Hok as [Hfn Hrest]. cbn [execute_each].
    destruct (execute_probes cb e fn t0 Hopen Hlast Hlate) as [_ ->].
    destruct (Hfn (snd (Date_now e))) as (r & e' & ->). cbn [snd].
    destruct rest as [| fn' rest'].
    + cbn [execute_each fst length] in *.
      rewrite onSuccess_half_open_reaching; [reflexivity | reflexivity |].
      cbn [half_opened cb_config cb_successCount]. lia.
    + cbn [length] in Hlen.
      rewrite onSuccess_half_open_below;
        [| reflexivity | cbn [half_opened cb_config cb_successCount]; lia].
      rewrite successes_reaching_quota.
      * reflexivity.
      * reflexivity.
      * assumption.
      * discriminate.
      * cbn [half_opened length cb_config cb_successCount]. lia.
Qed.

Lemma half_open_reopens_or_recloses_witness :
  let w := sample_world empty_db in
  let fresh := new_CircuitBreaker (total_config sample_breaker_config) in
  let probing :=
    fst (execute_each [provider_down; provider_down; provider_up] (fresh, w)) in
  let due := tripped_breaker sample_breaker_config 1699999999000 in
  cb_state probing = half_open
  /\ cb_state (fst (snd (execute provider_down (probing, w)))) = open
  /\ fst (execute_each [provider_up; provider_up] (half_opened due, w)) = reset due
  /\ fst (execute_each [provider_up; provider_up] (due, w)) = reset due.
Proof.
  pose proof (@half_open_reopens_or_recloses World _ ProviderResult)
    as (Hreopens & _ & Hrecloses & Hprobe).
  assert (Hdown : fails provider_down)
    by (intros e; eexists _, _; reflexivity).
  assert (Hup : succeeds provider_up)
    by (intros e; eexists _, _; reflexivity).
  split; [reflexivity | split; [| split]].
  - apply (Hreopens (total_config sample_breaker_config));
      [| reflexivity | exact Hdown].
    pose (s1 := snd (execute provider_down
      (new_CircuitBreaker (total_config sample_breaker_config),
       sample_world empty_db))).
    pose (s2 := snd (execute provider_down s1)).
    exact (reachable_execute _ _ (snd s2) provider_up
             (reachable_execute _ _ (snd s1) provider_down
                (reachable_execute _ _ (sample_world empty_db) provider_down
                   (reachable_new _)))).
  - apply (Hrecloses (half_opened (tripped_breaker sample_breaker_config
                                                    1699999999000))
                     (sample_world empty_db) [provider_up; provider_up]);
      [reflexivity | reflexivity | repeat constructor; exact Hup
       | reflexivity | reflexivity].
  - apply (Hprobe (tripped_breaker sample_breaker_config 1699999999000)
                  (sample_world empty_db) [provider_up; provider_up]
                  1699999999000);
      [reflexivity | reflexivity | discriminate | repeat constructor; exact Hup
       | reflexivity | reflexivity].
Defined.

(** ** Token bucket *)

Section TokenBucketProofs.
Context {E : Type} `{Runtime E}.
Implicit Types (tb : TokenBucketRateLimiter) (e : E).






End TokenBucketProofs.



(** ** Orchestrator: building blocks *)

Section PushCoreProofs.
Context {E : Type} `{Runtime E}.
Implicit Types (pc : PushCore E) (e : E).

Lemma run_hook_total (hook : option (M E unit)) e :
  fst (run_hook hook e) = Normal tt.
Proof.
  unfold run_hook, try_catch, console_error, ret.
  destruct hook as [h |]; [| reflexivity].
  destruct (h e) as [[[] | t] e']; reflexivity.
Qed.

Lemma run_metric_total (adapter : option (MetricsAdapter E)) metric value e :
  fst (run_metric adapter metric value e) = Normal tt.
Proof.
  unfold run_metric, try_catch, console_error, ret.
  destruct adapter as [m |]; [| reflexivity].
  destruct value as [v |];
    [destruct (gauge m metric v e) as [[[] | t] e']
    | destruct (increment m metric e) as [[[] | t] e']]; reflexivity.
Qed.

Lemma emitHook_run (call : LifecycleHooks E -> option (M E unit)) pc e :
  emitHook call (pc, e) =
    (Normal tt, (pc, snd (run_hook (config pc ?. lifecycleHooks ?. call) e))).
Proof.
  unfold emitHook, bind, this, on_snd.
  pose proof (run_hook_total (config pc ?. lifecycleHooks ?. call) e) as Htotal.
  destruct (run_hook (config pc ?. lifecycleHooks ?. call) e) as [c e'].
  simpl in *. now subst.
Qed.

Lemma emitMetric_run (metric : string) (value : option Z) pc e :
  emitMetric metric value (pc, e) =
    (Normal tt, (pc, snd (run_metric (config pc ?. metricsAdapter) metric value e))).
Proof.
  unfold emitMetric, bind, this, on_snd.
  pose proof (run_metric_total (config pc ?. metricsAdapter) metric value e)
    as Htotal.
  destruct (run_metric (config pc ?. metricsAdapter) metric value e) as [c e'].
  simpl in *. now subst.
Qed.

Lemma verifySubscription_state {S : Type} (subscription : Subscription) (s : S) :
  verifySubscription subscription s = (fst (verifySubscription subscription tt), s).
Proof.
  unfold verifySubscription, throw, ret.
  destruct (truthy_string (endpoint subscription)); [| reflexivity].
  destruct (keys subscription) as [k |]; [| reflexivity].
  destruct (truthy_string (p256dh k)); [| reflexivity].
  destruct (truthy_string (auth k)); reflexivity.
Qed.

Lemma verifySubscription_valid (subscription : Subscription) :
  subscription_valid subscription = true ->
  fst (verifySubscription subscription tt) = Normal tt.
Proof.
  unfold subscription_valid, verifySubscription, throw, ret.
  destruct (truthy_string (endpoint subscription)); [| discriminate].
  destruct (keys subscription) as [k |]; [| discriminate].
  destruct (truthy_string (p256dh k)); [| discriminate].
  destruct (truthy_string (auth k)); [reflexivity | discriminate].
Qed.


Lemma validateConfiguration_complete pc e :
  configuration_complete pc = true ->
  validateConfiguration (pc, e) = (Normal tt, (pc, e)).
Proof.
  unfold configuration_complete, validateConfiguration, bind, this, throw, ret.
  destruct (config pc) as [c |]; [| discriminate].
  destruct (vapidKeys c) as [v |]; [| discriminate].
  destruct (truthy_string (publicKey v)); [| discriminate].
  destruct (truthy_string (privateKey v)); [| discriminate].
  destruct (storageAdapter c); [reflexivity | discriminate].
Qed.

Lemma ensureNotShuttingDown_running pc e :
  isShuttingDown pc = false ->
  ensureNotShuttingDown (pc, e) = (Normal tt, (pc, e)).
Proof.
  intros Hrun. unfold ensureNotShuttingDown, bind, this. now rewrite Hrun.
Qed.

Lemma sendNotification_run pc e subscription payload options :
  isShuttingDown pc = false ->
  configuration_complete pc = true ->
  sendNotification subscription payload options (pc, e) =
    (fst (send_operation subscription payload options (tracked pc, e)),
     set_inFlight Nat.pred
       (snd (send_operation subscription payload options (tracked pc, e)))).
Proof.
  intros Hrun Hcomplete. unfold sendNotification, bind at 1.
  rewrite ensureNotShuttingDown_running by assumption.
  unfold bind at 1. rewrite validateConfiguration_complete by assumption.
  unfold trackOperation, bind, modify, try_finally. cbn [set_inFlight].
  fold (tracked pc).
  destruct (send_operation subscription payload options (tracked pc, e));
    reflexivity.
Qed.

End PushCoreProofs.

(** ** Orchestrator: a malformed subscription *)

Section MalformedSubscription.
Context {E : Type} `{Runtime E}.

End MalformedSubscription.




(** ** Orchestrator: failures are caught *)



Section FailuresAreCaught.
Context {E : Type} `{Runtime E}.
Implicit Types (pc : PushCore E) (e : E).








End FailuresAreCaught.



(** ** The SQLite adapter at work *)

Lemma alter_present {A} (f : A -> A) (k : string) (m : gmap string A) (x : A) :
  m !! k = Some x -> alter f k m = <[k := f x]> m.
Proof.
  intros Hk. apply map_eq. intros j. destruct (decide (k = j)) as [<- | Hne].
  - rewrite lookup_alter_eq, lookup_insert_eq, Hk. reflexivity.
  - rewrite lookup_alter_ne, lookup_insert_ne by assumption. reflexivity.
Qed.

Section SQLiteAtWork.
Implicit Types (w : World) (row : SubscriptionRow).

Lemma ensureNotClosed_run w :
  db_closed (db w) = false ->
  ensureNotClosed db w = (Normal tt, w).
Proof. intros Hopen. unfold ensureNotClosed. now rewrite Hopen. Qed.

Lemma sqlite_getSubscriptionById_run w (key : string) :
  db_closed (db w) = false ->
  sqlite_getSubscriptionById db key w =
    (Normal (rowToSubscription <$> subscriptions (db w) !! key), w).
Proof.
  intros Hopen. unfold sqlite_getSubscriptionById, bind.
  now rewrite ensureNotClosed_run.
Qed.

(** The world after the [UPDATE] statement of [updateSubscription]. *)
Lemma sqlite_updateSubscription_run w (key : string) (updates : SubscriptionUpdate) row :
  db_closed (db w) = false ->
  subscriptions (db w) !! key = Some row ->
  exists w',
    updateSubscription sqlite key updates w =
      (Normal (rowToSubscription (apply_update (fst (Date_now w)) updates row)), w')
    /\ db w' =
         {| subscriptions :=
              <[key := apply_update (fst (Date_now w)) updates row]>
                (subscriptions (db w));
            retry_queue := retry_queue (db w);
            db_closed := false |}.
Proof.
  intros Hopen Hrow. cbn [updateSubscription sqlite SQLiteStorageAdapter].
  unfold sqlite_updateSubscription.
  unfold bind at 1. rewrite ensureNotClosed_run by assumption.
  unfold bind at 1. rewrite sqlite_getSubscriptionById_run by assumption.
  rewrite Hrow. cbn [fmap option_fmap option_map].
  unfold bind at 1, perform. cbn [Date_now World_Runtime fst].
  unfold bind at 1, modify.
  unfold bind at 1. rewrite sqlite_getSubscriptionById_run by exact Hopen.
  cbn [db world_set_db subscriptions].
  rewrite (alter_present _ _ _ row Hrow), lookup_insert_eq.
  cbn [fmap option_fmap option_map]. unfold ret.
  eexists. split; [reflexivity |]. cbn [db]. now rewrite Hopen.
Qed.

Lemma sqlite_ackRetry_run w (retryId : string) :
  db_closed (db w) = false ->
  exists w',
    ackRetry sqlite retryId w = (Normal tt, w')
    /\ db w' =
         {| subscriptions := subscriptions (db w);
            retry_queue := filter (fun r => re_id r ≠ retryId) (retry_queue (db w));
            db_closed := false |}.
Proof.
  intros Hopen. cbn [ackRetry sqlite SQLiteStorageAdapter].
  unfold sqlite_ackRetry, bind. rewrite ensureNotClosed_run by assumption.
  unfold modify. eexists. split; [reflexivity |].
  cbn [db world_set_db]. now rewrite Hopen.
Qed.
End SQLiteAtWork.

(** ** Orchestrator: a delivered notification *)

Section DeliveredNotification.
Implicit Types (pc : PushCore World) (w : World) (c : PushConfiguration World).

Lemma run_hook_quiet (hook : option (M World unit)) w :
  (forall h, hook = Some h -> db_preserving h) ->
  db (snd (run_hook hook w)) = db w.
Proof.
  intros Hquiet. unfold run_hook, try_catch, console_error, ret.
  destruct hook as [h |]; [| reflexivity].
  specialize (Hquiet h eq_refl w).
  destruct (h w) as [[[] | t] w']; exact Hquiet.
Qed.

Lemma run_metric_quiet (metrics : option (MetricsAdapter World)) metric value w :
  quiet_metrics metrics ->
  db (snd (run_metric metrics metric value w)) = db w.
Proof.
  intros Hquiet. unfold run_metric, try_catch, console_error, ret.
  destruct metrics as [m |]; [| reflexivity].
  destruct (Hquiet m eq_refl) as [Hincrement Hgauge].
  destruct value as [v |].
  - specialize (Hgauge metric v w).
    destruct (gauge m metric v w) as [[[] | t] w']; exact Hgauge.
  - specialize (Hincrement metric w).
    destruct (increment m metric w) as [[[] | t] w']; exact Hincrement.
Qed.

Lemma emitMetric_quiet pc c w metric value :
  config pc = Some c -> quiet_configuration c ->
  exists w', emitMetric metric value (pc, w) = (Normal tt, (pc, w'))
             /\ db w' = db w.
Proof.
  intros Hc (_ & Hmetrics & _). rewrite emitMetric_run. eexists. split; [reflexivity |].
  rewrite Hc. cbn [chain]. now apply run_metric_quiet.
Qed.

Lemma emitHook_onSend_quiet pc c w subscription payload :
  config pc = Some c -> quiet_configuration c ->
  exists w', emitHook (call_onSend subscription payload) (pc, w)
             = (Normal tt, (pc, w'))
             /\ db w' = db w.
Proof.
  intros Hc (Hhooks & _). rewrite emitHook_run. eexists. split; [reflexivity |].
  rewrite Hc. cbn [chain]. apply run_hook_quiet. intros h Hh.
  destruct (lifecycleHooks c) as [hooks |]; [| discriminate].
  destruct (Hhooks hooks eq_refl) as (Hsend & _).
  cbn [chain] in Hh. unfold call_onSend in Hh.
  destruct (hook_onSend hooks) as [f |] eqn:Hf; [| discriminate].
  injection Hh as <-. now apply (Hsend f).
Qed.


Lemma acquire_token_run pc c w :
  config pc = Some c -> quiet_configuration c ->
  (forall limiter, rateLimiter c = Some limiter -> succeeds (acquire limiter)) ->
  exists w', acquire_token (pc, w) = (Normal tt, (pc, w')) /\ db w' = db w.
Proof.
  intros Hc (_ & _ & Hquiet & _) Hsucceeds.
  unfold acquire_token, bind, this. rewrite Hc. cbn [chain].
  destruct (rateLimiter c) as [limiter |] eqn:Hlimiter.
  - destruct (Hsucceeds limiter eq_refl w) as ([] & w' & Hacquire).
    pose proof (Hquiet limiter eq_refl w) as Hdb.
    unfold on_snd. rewrite Hacquire in *. eauto.
  - unfold ret. eauto.
Qed.

Lemma provider_call_run pc c w provider subscription payload options result w1 :
  config pc = Some c ->
  providerAdapter c = Some provider ->
  (forall cb, circuitBreaker pc = Some cb -> cb_state cb <> open) ->
  send provider subscription payload options w = (Normal result, w1) ->
  exists pc1,
    provider_call subscription payload options (pc, w) = (Normal result, (pc1, w1))
    /\ config pc1 = config pc
    /\ isShuttingDown pc1 = isShuttingDown pc
    /\ inFlightOperations pc1 = inFlightOperations pc.
Proof.
  intros Hc Hprovider Hbreaker Hsend.
  unfold provider_call, bind at 1, getProviderAdapter, bind at 1, this at 1.
  rewrite Hc, Hprovider. unfold ret, bind, this.
  destruct (circuitBreaker pc) as [cb |] eqn:Hcb.
  - unfold circuitBreaker_execute.
    rewrite (execute_normal_not_open cb w _ result w1) by auto.
    eexists. split; [reflexivity |]. auto.
  - unfold on_snd. rewrite Hsend. eauto.
Qed.

End DeliveredNotification.



Lemma sample_configuration_quiet
    (script : Subscription -> NotificationPayload -> SendOptions
              -> Completion ProviderResult) (c : PushConfiguration World) :
  config (sample_core script) = Some c -> quiet_configuration c.
Proof.
  intros [= <-]. split; [| split; [| split]];
    cbn [lifecycleHooks metricsAdapter rateLimiter providerAdapter].
  - intros hooks [= <-]. cbn [recording_hooks hook_onSend hook_onSuccess
                              hook_onFailure hook_onRetry].
    split; [| split; [| split]]; intros f s x [= <-] w; reflexivity.
  - intros m [= <-]. split; intros; intros w; reflexivity.
  - discriminate.
  - intros provider [= <-] s p o w. reflexivity.
Qed.



(** ** Worker: a retry entry out of attempts *)

Section ExhaustedRetry.
Implicit Types (worker : RetryWorker World) (w : World).

Lemma worker_emitMetric_quiet worker w metric value (this_worker : RetryWorker World) :
  quiet_metrics (worker_metricsAdapter worker) ->
  exists w', worker_emitMetric worker metric value (this_worker, w)
             = (Normal tt, (this_worker, w'))
             /\ db w' = db w.
Proof.
  intros Hquiet. unfold worker_emitMetric, on_snd.
  pose proof (run_metric_total (worker_metricsAdapter worker) metric value w) as Htotal.
  pose proof (run_metric_quiet (worker_metricsAdapter worker) metric value w Hquiet)
    as Hdb.
  destruct (run_metric (worker_metricsAdapter worker) metric value w) as [c w'].
  cbn [fst snd] in *. subst c. eauto.
Qed.

Lemma processRetry_body_exhausted worker (this_worker : RetryWorker World) w
    (retry : RetryEntry) (row : SubscriptionRow) :
  storage worker = sqlite ->
  maxRetries (worker_retryPolicy worker) <= re_attempt retry ->
  quiet_metrics (worker_metricsAdapter worker) ->
  quiet_provider (provider worker) ->
  (forall w0, exists result w1,
     send (provider worker) (rowToSubscription row) (re_payload retry) no_options w0
     = (Normal result, w1)
     /\ pr_success result = false) ->
  db_closed (db w) = false ->
  subscriptions (db w) !! re_subscriptionId retry = Some row ->
  row_id row = re_subscriptionId retry ->
  exists w' at_time,
    processRetry_body worker retry (this_worker, w) = (Normal tt, (this_worker, w'))
    /\ db w' =
         {| subscriptions :=
              <[re_subscriptionId retry :=
                  apply_update at_time (expired_update (row_failed_count row)) row]>
                (subscriptions (db w));
            retry_queue :=
              filter (fun r => re_id r ≠ re_id retry) (retry_queue (db w));
            db_closed := false |}.
Proof.
  intros Hstorage Hexhausted Hmetrics Hprovider Hfails Hopen Hrow Hkey.
  unfold processRetry_body.
  destruct (worker_emitMetric_quiet worker w "worker.retry.processing" None
              this_worker Hmetrics) as (w1 & Hmetric1 & Hdb1).
  run_step Hmetric1.
  unfold bind at 1, on_snd at 1. rewrite Hstorage.
  cbn [getSubscriptionById sqlite SQLiteStorageAdapter].
  rewrite sqlite_getSubscriptionById_run by congruence.
  rewrite Hdb1, Hrow. cbn [fmap option_fmap option_map]. cbv beta iota.
  destruct (Hfails w1) as (result & w2 & Hsend & Hfailed).
  assert (Hdb2 : db w2 = db w1).
  { pose proof (Hprovider (rowToSubscription row) (re_payload retry) no_options w1)
      as Hdb. now rewrite Hsend in Hdb. }
  unfold bind at 1, on_snd at 1. rewrite Hsend. cbv beta iota.
  rewrite Hfailed, (shouldRetry_exhausted _ _ _ Hexhausted).
  destruct (sqlite_ackRetry_run w2 (re_id retry)) as (w3 & Hack & Hdb3);
    [congruence |].
  unfold bind at 1, on_snd at 1.
  change (SQLiteStorageAdapter db world_set_db) with sqlite.
  rewrite Hack. cbv beta iota.
  destruct (sqlite_updateSubscription_run w3 (re_subscriptionId retry)
              (expired_update (row_failed_count row)) row)
    as (w4 & Hupdate & Hdb4).
  { rewrite Hdb3. reflexivity. }
  { rewrite Hdb3. cbn [subscriptions]. congruence. }
  unfold bind at 1, on_snd at 1.
  cbn [id rowToSubscription failedCount]. rewrite Hkey, Hupdate. cbv beta iota.
  destruct (worker_emitMetric_quiet worker w4 "worker.retry.max_retries_exceeded"
              None this_worker Hmetrics) as (w5 & Hmetric5 & Hdb5).
  rewrite Hmetric5. exists w5, (fst (Date_now w3)). split; [reflexivity |].
  rewrite Hdb5, Hdb4, Hdb3. cbn [subscriptions retry_queue].
  rewrite Hdb2, Hdb1. reflexivity.
Qed.
End ExhaustedRetry.

(** C9. When the worker processes an entry whose [attempt] equals
    [maxRetries], the subscription is in the database and the provider fails
    again with [shouldRetry: true], [processRetry] completes normally; the
    entry is acknowledged (removed from the queue) and the queue gains no
    entry; the subscription's [status] becomes [expired] and its
    [failedCount] grows by one, the adapter refreshing [updatedAt]; no other
    column and no other record changes. *)
Theorem processRetry_exhausted_expires_subscription
    (worker : RetryWorker World) (w : World) (retry : RetryEntry)
    (row : SubscriptionRow) :
  storage worker = sqlite ->
  re_attempt retry = maxRetries (worker_retryPolicy worker) ->
  quiet_metrics (worker_metricsAdapter worker) ->
  quiet_provider (provider worker) ->
  (forall w0, exists result w1,
     send (provider worker) (rowToSubscription row) (re_payload retry) no_options w0
     = (Normal result, w1)
     /\ pr_success result = false
     /\ pr_shouldRetry result = true) ->
  db_closed (db w) = false ->
  keyed_by_id (db w) ->
  subscriptions (db w) !! re_subscriptionId retry = Some row ->
  exists (worker' : RetryWorker World) (w' : World) (at_time : Date),
    processRetry retry (worker, w) = (Normal tt, (worker', w'))
    /\ retry_queue (db w') =
         filter (fun r => re_id r ≠ re_id retry) (retry_queue (db w))
    /\ subscriptions (db w') =
         <[re_subscriptionId retry :=
             {| row_id := row_id row;
                row_endpoint := row_endpoint row;
                row_keys := row_keys row;
                row_user_id := row_user_id row;
                row_created_at := row_created_at row;
                row_updated_at := at_time;
                row_last_used_at := row_last_used_at row;
                row_failed_count := row_failed_count row + 1;
                row_status := expired;
                row_expires_at := row_expires_at row;
                row_metadata := row_metadata row |}]>
           (subscriptions (db w))
    /\ db_closed (db w') = false.
Proof.
  intros Hstorage Hattempt Hmetrics Hprovider Hfails Hopen Hkeyed Hrow.
  unfold processRetry, bind, modify, try_finally, try_catch.
  cbn [set_processing].
  match goal with
  | |- context [processRetry_body worker retry (?this_worker, w)] =>
      destruct (processRetry_body_exhausted worker this_worker w retry row)
        as (w' & at_time & Hbody & Hdb); auto
  end.
  - lia.
  - intros w0. destruct (Hfails w0) as (result & w1 & Hsend & Hfailed & _). eauto.
  - rewrite Hbody. cbn [set_processing].
    eexists _, w', at_time. split; [reflexivity |].
    rewrite Hdb. cbn [subscriptions retry_queue db_closed]. auto.
Qed.

Lemma processRetry_exhausted_expires_subscription_witness :
  exists (worker' : RetryWorker World) (w' : World) (at_time : Date),
    processRetry sample_retry (sample_worker, sample_world sample_db_with_retry)
    = (Normal tt, (worker', w'))
    /\ retry_queue (db w') =
         filter (fun r => re_id r ≠ "retry-1") [sample_retry]
    /\ subscriptions (db w') =
         <["sub-1" :=
             {| row_id := "sub-1";
                row_endpoint := "https://push.example.com/test";
                row_keys := sample_keys;
                row_user_id := None;
                row_created_at := 1699999990000;
                row_updated_at := at_time;
                row_last_used_at := None;
                row_failed_count := 3 + 1;
                row_status := expired;
                row_expires_at := None;
                row_metadata := None |}]>
           {[ "sub-1" := sample_row ]}
    /\ db_closed (db w') = false.
Proof.
  apply (processRetry_exhausted_expires_subscription sample_worker
           (sample_world sample_db_with_retry) sample_retry sample_row);
    try reflexivity.
  - intros m [= <-]. split; intros; intros w; reflexivity.
  - intros s p o w. reflexivity.
  - intros w0. eexists _, _. repeat split.
  - intros key row. cbn [db sample_world sample_db_with_retry subscriptions].
    intros Hlookup. apply lookup_singleton_Some in Hlookup as [<- <-]. reflexivity.
Defined.

(** * Further properties of the code *)

(** ** Retry policy calculator: jitter and growth *)







(** ** Orchestrator: the checks made before any work *)

(** The goal asks for an error of a given class that the computation at
    hand throws: run the computation, then read off the class. *)
Ltac throws_it := eexists; (split; [| reflexivity]); reflexivity.

(** X3. [sendNotification] refuses before doing anything: while shutting
    down it throws the shutting-down error, whatever the configuration, and
    with an incomplete configuration (no configuration, no VAPID keys, a
    missing public or private key, no storage adapter) it throws a
    [ConfigurationError]; in both cases the orchestrator and the external
    world are exactly as before - no clock reading, no hook, no metric. *)
Theorem sendNotification_refuses_before_any_work
    {E : Type} `{Runtime E} (pc : PushCore E) (e : E)
    (subscription : Subscription) (payload : NotificationPayload)
    (options : SendOptions) :
  (isShuttingDown pc = true ->
   sendNotification subscription payload options (pc, e)
   = (Throw shutting_down_error, (pc, e)))
  /\ (isShuttingDown pc = false ->
      configuration_complete pc = false ->
      exists err : JsError,
        err_name err = ConfigurationError
        /\ sendNotification subscription payload options (pc, e)
           = (Throw (ThrownError err), (pc, e))).
Proof.
  split.
  - intros Hdown. unfold sendNotification, bind at 1, ensureNotShuttingDown,
      bind, this. now rewrite Hdown.
  - intros Hrun Hincomplete. unfold sendNotification, bind at 1.
    rewrite ensureNotShuttingDown_running by assumption.
    unfold bind at 1, validateConfiguration, bind, this, throw,
      new_ConfigurationError.
    unfold configuration_complete in Hincomplete.
    destruct (config pc) as [c |]; [| throws_it].
    destruct (vapidKeys c) as [v |]; [| throws_it].
    destruct (truthy_string (publicKey v)); [| throws_it].
    destruct (truthy_string (privateKey v)); [| throws_it].
    destruct (storageAdapter c); [discriminate | throws_it].
Qed.

Lemma sendNotification_refuses_before_any_work_witness :
  let stopped := fst (set_isShuttingDown true
                        (sample_core always_delivers, sample_world sample_db)) in
  sendNotification sample_subscription sample_payload no_options
    (stopped, sample_world sample_db)
  = (Throw shutting_down_error, (stopped, sample_world sample_db))
  /\ exists err : JsError,
       err_name err = ConfigurationError
       /\ sendNotification sample_subscription sample_payload no_options
            (new_PushCore, sample_world sample_db)
          = (Throw (ThrownError err), (new_PushCore, sample_world sample_db)).
Proof.
  split.
  - apply (sendNotification_refuses_before_any_work
             (fst (set_isShuttingDown true
                     (sample_core always_delivers, sample_world sample_db)))
             (sample_world sample_db) sample_subscription sample_payload
             no_options).
    reflexivity.
  - apply (sendNotification_refuses_before_any_work new_PushCore
             (sample_world sample_db) sample_subscription sample_payload
             no_options); reflexivity.
Defined.

(** ** Orchestrator: what the circuit breaker gets to see *)

Section BreakerBookkeeping.
Context {E : Type} `{Runtime E}.
Implicit Types (pc : PushCore E) (e : E).

Lemma keeps_fst_ret {S A} (a : A) : keeps_fst (S := S) (E := E) (ret a).
Proof. intros s e. reflexivity. Qed.

Lemma keeps_fst_throw {S A} (t : Thrown) :
  keeps_fst (S := S) (E := E) (A := A) (throw t).
Proof. intros s e. reflexivity. Qed.

Lemma keeps_fst_on_snd {S A} (m : M E A) : keeps_fst (S := S) (on_snd m).
Proof. intros s e. unfold on_snd. destruct (m e). reflexivity. Qed.

Lemma keeps_fst_bind {S A B} (m : M (S * E) A) (k : A -> M (S * E) B) :
  keeps_fst m -> (forall a, keeps_fst (k a)) -> keeps_fst (bind m k).
Proof.
  intros Hm Hk s e. unfold bind. specialize (Hm s e).
  destruct (m (s, e)) as [[a | t] [s1 e1]]; cbn [fst snd] in *; subst s1.
  - apply Hk.
  - reflexivity.
Qed.

Lemma keeps_fst_try_catch {S A} (body : M (S * E) A)
    (handler : Thrown -> M (S * E) A) :
  keeps_fst body -> (forall t, keeps_fst (handler t)) ->
  keeps_fst (try_catch body handler).
Proof.
  intros Hbody Hhandler s e. unfold try_catch. specialize (Hbody s e).
  destruct (body (s, e)) as [[a | t] [s1 e1]]; cbn [fst snd] in *; subst s1.
  - reflexivity.
  - apply Hhandler.
Qed.

Lemma keeps_this_this : keeps_this (E := E) this.
Proof. intros pc e. reflexivity. Qed.

Lemma keeps_this_emitHook (call : LifecycleHooks E -> option (M E unit)) :
  keeps_this (emitHook call).
Proof. intros pc e. now rewrite emitHook_run. Qed.

Lemma keeps_this_emitMetric (metric : string) (value : option Z) :
  keeps_this (E := E) (emitMetric metric value).
Proof. intros pc e. now rewrite emitMetric_run. Qed.

Lemma keeps_this_the_storageAdapter : keeps_this (E := E) the_storageAdapter.
Proof.
  intros pc e. unfold the_storageAdapter, bind, this.
  destruct (config pc ?. storageAdapter); reflexivity.
Qed.

Ltac keeps_this_steps :=
  repeat first
    [ apply keeps_this_the_storageAdapter
    | apply keeps_this_emitHook
    | apply keeps_this_emitMetric
    | apply keeps_fst_on_snd
    | apply keeps_fst_ret
    | apply keeps_fst_throw
    | apply keeps_this_this
    | apply keeps_fst_bind; [| intros ?] ].

Lemma keeps_this_handle_success (startTime : Z) (subscription : Subscription)
    (result : ProviderResult) :
  keeps_this (E := E) (handle_success startTime subscription result).
Proof.
  unfold handle_success.
  keeps_this_steps.
Qed.

Lemma keeps_this_handle_failure (subscription : Subscription)
    (payload : NotificationPayload) (result : ProviderResult) :
  keeps_this (E := E) (handle_failure subscription payload result).
Proof.
  unfold handle_failure. apply keeps_fst_bind; [apply keeps_this_this |].
  intros pc0. destruct (config pc0) as [c |]; [| apply keeps_fst_throw].
  cbv zeta. destruct (shouldRetry result 0 (maxRetries (effective_retryPolicy c)));
    keeps_this_steps.
Qed.

Lemma keeps_this_send_recovery (subscription : Subscription) (error : Thrown) :
  keeps_this (E := E) (send_recovery subscription error).
Proof.
  unfold send_recovery.
  keeps_this_steps.
Qed.

Lemma acquire_token_succeeds pc e :
  (forall limiter, config pc ?. rateLimiter = Some limiter ->
     succeeds (acquire limiter)) ->
  exists e1, acquire_token (pc, e) = (Normal tt, (pc, e1)).
Proof.
  intros Hsucceeds. unfold acquire_token, bind, this.
  destruct (config pc ?. rateLimiter) as [limiter |].
  - destruct (Hsucceeds limiter eq_refl e) as ([] & e1 & Hacquire).
    unfold on_snd. rewrite Hacquire. eauto.
  - unfold ret. eauto.
Qed.

(** The state in which the [try] block hands over to the provider call. *)
Lemma send_pipeline_reaches_provider pc e startTime subscription payload options :
  subscription_valid subscription = true ->
  (forall limiter, config pc ?. rateLimiter = Some limiter ->
     succeeds (acquire limiter)) ->
  exists e1,
    send_pipeline startTime subscription payload options (pc, e)
    = (result <- provider_call subscription payload options;;
       if pr_success result then handle_success startTime subscription result
       else handle_failure subscription payload result)%js (pc, e1).
Proof.
  intros Hvalid Hlimiter. unfold send_pipeline.
  unfold bind at 1. rewrite emitHook_run. cbv beta iota.
  unfold bind at 1. rewrite emitMetric_run. cbv beta iota.
  unfold bind at 1.
  rewrite verifySubscription_state, (verifySubscription_valid subscription Hvalid).
  cbv beta iota. unfold bind at 1.
  match goal with
  | |- context [acquire_token (pc, ?w)] =>
      destruct (acquire_token_succeeds pc w Hlimiter) as (e1 & Htoken)
  end.
  rewrite Htoken. cbv beta iota.
  exists e1. reflexivity.
Qed.
End BreakerBookkeeping.

Section BreakerInSend.
Context {E : Type} `{Runtime E}.
Implicit Types (pc : PushCore E) (e : E).

Lemma provider_call_guarded pc e subscription payload options provider cb :
  config pc ?. providerAdapter = Some provider ->
  circuitBreaker pc = Some cb ->
  provider_call subscription payload options (pc, e)
  = circuitBreaker_execute cb (send provider subscription payload options) (pc, e).
Proof.
  intros Hprovider Hbreaker. unfold provider_call, bind at 1.
  unfold getProviderAdapter, bind at 1, this. cbv beta iota.
  destruct (config pc) as [c |]; [| discriminate]. cbn [chain] in Hprovider.
  rewrite Hprovider. unfold ret, bind, this. cbv beta iota.
  now rewrite Hbreaker.
Qed.

(** What is left of the orchestrator after the [try] block and, when it
    throws, the [catch] block: the state the provider call left. *)
Lemma send_after_provider_call (startTime : Z) subscription payload options
    (s : PushCore E * E) :
  fst (snd (try_catch
              (result <- provider_call subscription payload options;;
               if pr_success result
               then handle_success startTime subscription result
               else handle_failure subscription payload result)%js
              (send_recovery subscription) s))
  = fst (snd (provider_call subscription payload options s)).
Proof.
  unfold try_catch, bind.
  destruct (provider_call subscription payload options s)
    as [[result | t] [pc1 e1]]; cbn [fst snd].
  - assert (Hrest : keeps_this
              (if pr_success result
               then handle_success startTime subscription result
               else handle_failure subscription payload result)).
    { destruct (pr_success result);
        [apply keeps_this_handle_success | apply keeps_this_handle_failure]. }
    specialize (Hrest pc1 e1).
    destruct ((if pr_success result
               then handle_success startTime subscription result
               else handle_failure subscription payload result) (pc1, e1))
      as [[r | t] [pc2 e2]]; cbn [fst snd] in *; subst pc2.
    + reflexivity.
    + apply keeps_this_send_recovery.
  - apply keeps_this_send_recovery.
Qed.

Lemma try_catch_from {A} (body body' : M (PushCore E * E) A)
    (handler : Thrown -> M (PushCore E * E) A) (s s' : PushCore E * E) :
  body s = body' s' -> try_catch body handler s = try_catch body' handler s'.
Proof. intros Heq. unfold try_catch. now rewrite Heq. Qed.

Lemma set_inFlight_fst (f : nat -> nat) (s : PushCore E * E) e :
  fst (set_inFlight f s) = fst (set_inFlight f (fst s, e)).
Proof. destruct s. reflexivity. Qed.

Lemma sendNotification_breaker pc e subscription payload options :
  isShuttingDown pc = false ->
  configuration_complete pc = true ->
  subscription_valid subscription = true ->
  (forall limiter, config pc ?. rateLimiter = Some limiter ->
     succeeds (acquire limiter)) ->
  exists e1,
    fst (snd (sendNotification subscription payload options (pc, e)))
    = fst (set_inFlight Nat.pred
             (fst (snd (provider_call subscription payload options
                          (tracked pc, e1))), e1)).
Proof.
  intros Hrun Hcomplete Hvalid Hlimiter.
  rewrite sendNotification_run by assumption. cbn [snd].
  unfold send_operation, bind at 1, on_snd, perform.
  destruct (Date_now e) as [startTime e0]. cbv beta iota.
  destruct (send_pipeline_reaches_provider (tracked pc) e0 startTime
              subscription payload options Hvalid Hlimiter) as (e1 & Hpipeline).
  exists e1.
  rewrite (try_catch_from _ _ _ _ _ Hpipeline).
  rewrite (set_inFlight_fst _ _ e1), send_after_provider_call. reflexivity.
Qed.
End BreakerInSend.

(** X4. Inside [sendNotification] the circuit breaker wraps the provider
    call only, and it counts what the call throws, not what it answers.
    With a breaker that is not open, a valid subscription and a rate
    limiter that lets the call through: when the provider answers - also
    with [success: false], a 500 or a 410 - the breaker records a success
    ([onSuccess]: a closed breaker's failure count goes back to zero), and
    when the provider throws it records one failure ([onFailure]).  Nothing
    else of the orchestrator changes: what handles the answer, the hooks,
    the metrics and the [catch] block leave the breaker alone. *)
Theorem sendNotification_breaker_counts_thrown_errors_only
    {E : Type} `{Runtime E} (pc : PushCore E) (e : E)
    (subscription : Subscription) (payload : NotificationPayload)
    (options : SendOptions) (provider : ProviderAdapter E) (cb : CircuitBreaker) :
  isShuttingDown pc = false ->
  configuration_complete pc = true ->
  config pc ?. providerAdapter = Some provider ->
  circuitBreaker pc = Some cb ->
  cb_state cb <> open ->
  subscription_valid subscription = true ->
  (forall limiter, config pc ?. rateLimiter = Some limiter ->
     succeeds (acquire limiter)) ->
  (succeeds (send provider subscription payload options) ->
   fst (snd (sendNotification subscription payload options (pc, e)))
   = with_circuitBreaker (onSuccess cb) pc)
  /\ (fails (send provider subscription payload options) ->
      exists e0,
        fst (snd (sendNotification subscription payload options (pc, e)))
        = with_circuitBreaker (fst (onFailure cb e0)) pc
        /\ cb_failureCount (fst (onFailure cb e0)) = cb_failureCount cb + 1).
Proof.
  intros Hrun Hcomplete Hprovider Hbreaker Hstate Hvalid Hlimiter.
  destruct (sendNotification_breaker pc e subscription payload options
              Hrun Hcomplete Hvalid Hlimiter) as (e1 & Hsend).
  rewrite Hsend.
  rewrite (provider_call_guarded (tracked pc) e1 subscription payload options
             provider cb Hprovider Hbreaker).
  unfold circuitBreaker_execute. split.
  - intros Hanswers. destruct (Hanswers e1) as (r & e2 & Hcall).
    rewrite (execute_normal_not_open cb e1 _ r e2 Hstate Hcall).
    cbn [fst snd set_inFlight]. destruct pc; reflexivity.
  - intros Hthrows. destruct (Hthrows e1) as (t & e2 & Hcall).
    rewrite (execute_throw_not_open cb e1 _ t e2 Hstate Hcall).
    exists e2. split.
    + destruct (onFailure cb e2) as [cb2 e3].
      cbn [fst snd set_inFlight]. destruct pc; reflexivity.
    + unfold onFailure. destruct (Date_now e2) as [now e3].
      destruct (cb_failureCount cb + 1 >=? failureThreshold (cb_config cb));
        reflexivity.
Qed.

Lemma sendNotification_breaker_counts_thrown_errors_only_witness :
  fst (snd (sendNotification sample_subscription sample_payload no_options
              (sample_core always_fails, sample_world sample_db)))
  = with_circuitBreaker
      (onSuccess (new_CircuitBreaker (merge_circuitBreaker None None)))
      (sample_core always_fails)
  /\ exists w0 : World,
       fst (snd (sendNotification sample_subscription sample_payload no_options
                   (sample_core provider_unreachable, sample_world sample_db)))
       = with_circuitBreaker
           (fst (onFailure (new_CircuitBreaker (merge_circuitBreaker None None)) w0))
           (sample_core provider_unreachable)
       /\ cb_failureCount
            (fst (onFailure (new_CircuitBreaker (merge_circuitBreaker None None)) w0))
          = 0 + 1.
Proof.
  split.
  - apply (sendNotification_breaker_counts_thrown_errors_only
             (sample_core always_fails) (sample_world sample_db)
             sample_subscription sample_payload no_options
             (scripted_provider always_fails)
             (new_CircuitBreaker (merge_circuitBreaker None None)));
      try reflexivity; try discriminate.
    intros w. eexists. eexists. reflexivity.
  - apply (sendNotification_breaker_counts_thrown_errors_only
             (sample_core provider_unreachable) (sample_world sample_db)
             sample_subscription sample_payload no_options
             (scripted_provider provider_unreachable)
             (new_CircuitBreaker (merge_circuitBreaker None None)));
      try reflexivity; try discriminate.
    intros w. eexists. eexists. reflexivity.
Defined.

(** X5. While the breaker is open and its reset timeout has not passed at
    the moment of the provider call, [sendNotification] does not reach the
    provider: it resolves to [{success: false, enqueued: false}] with the
    [CircuitBreakerOpenError] built from the breaker's fields.  The
    notification is not queued for a retry and the subscription record is
    not touched; the [onSend] hook, the attempt metric and the rate limiter
    have run before the breaker was asked, the [onFailure] hook and the
    error metric run after.  The breaker itself is as before. *)
Theorem sendNotification_open_breaker_drops_notification
    {E : Type} `{Runtime E} (pc : PushCore E) (e : E)
    (subscription : Subscription) (payload : NotificationPayload)
    (options : SendOptions) (provider : ProviderAdapter E) (cb : CircuitBreaker)
    (lastFailure : Date) :
  isShuttingDown pc = false ->
  configuration_complete pc = true ->
  config pc ?. providerAdapter = Some provider ->
  circuitBreaker pc = Some cb ->
  cb_state cb = open ->
  cb_lastFailureTime cb = Some lastFailure ->
  subscription_valid subscription = true ->
  (forall limiter, config pc ?. rateLimiter = Some limiter ->
     succeeds (acquire limiter)) ->
  fst (Date_now (world_at_provider_call pc subscription payload e)) - lastFailure
    < resetTimeout (cb_config cb) ->
  sendNotification subscription payload options (pc, e)
  = (Normal {| sr_success := false; sr_subscriptionId := id subscription;
               sr_error := Some (CircuitBreakerOpen cb);
               sr_enqueued := Some false |},
     (pc, breaker_rejection_world pc subscription payload
            (CircuitBreakerOpen cb) e)).
Proof.
  intros Hrun Hcomplete Hprovider Hbreaker Hopen Hlast Hvalid Hlimiter Hearly.
  rewrite sendNotification_run by assumption.
  assert (Hop : send_operation subscription payload options (tracked pc, e)
    = (Normal {| sr_success := false; sr_subscriptionId := id subscription;
                 sr_error := Some (CircuitBreakerOpen cb);
                 sr_enqueued := Some false |},
       (tracked pc, breaker_rejection_world pc subscription payload
                      (CircuitBreakerOpen cb) e))).
  { unfold breaker_rejection_world. revert Hearly.
    unfold world_at_provider_call. cbv zeta. intros Hearly.
    unfold send_operation, bind at 1, on_snd, perform.
    destruct (Date_now e) as [startTime e0]. cbn [snd] in Hearly |- *.
    unfold try_catch, send_pipeline.
    unfold bind at 1. rewrite emitHook_run. cbv beta iota.
    unfold bind at 1. rewrite emitMetric_run. cbv beta iota.
    unfold bind at 1.
    rewrite verifySubscription_state, (verifySubscription_valid subscription Hvalid).
    cbv beta iota. cbn [tracked config] in Hearly |- *.
    unfold bind at 1, acquire_token, bind at 1, this. cbv beta iota.
    cbn [tracked config].
    assert (Htoken : forall w,
      match config pc ?. rateLimiter with
      | Some limiter => on_snd (acquire limiter)
      | None => ret tt
      end (tracked pc, w)
      = (Normal tt, (tracked pc,
                     match config pc ?. rateLimiter with
                     | Some limiter => snd (acquire limiter w)
                     | None => w
                     end))).
    { intros w. destruct (config pc ?. rateLimiter) as [limiter |] eqn:Hl;
        [| reflexivity].
      destruct (Hlimiter limiter eq_refl w) as ([] & w' & Hacquire).
      unfold on_snd. now rewrite Hacquire. }
    rewrite Htoken. cbv beta iota.
    unfold bind at 1.
    rewrite (provider_call_guarded (tracked pc) _ subscription payload options
               provider cb Hprovider Hbreaker).
    unfold circuitBreaker_execute.
    rewrite (execute_rejects cb _ _ lastFailure Hopen Hlast Hearly).
    cbv beta iota.
    unfold send_recovery. cbv zeta. cbn [as_Error].
    unfold bind at 1. rewrite emitHook_run. cbv beta iota.
    unfold bind at 1. rewrite emitMetric_run. cbv beta iota.
    unfold ret. cbn [config snd]. rewrite <- Hbreaker. reflexivity. }
  rewrite Hop. cbn [fst snd set_inFlight tracked]. destruct pc; reflexivity.
Qed.

Lemma sendNotification_open_breaker_drops_notification_witness :
  let cb := tripped_breaker DEFAULT_CIRCUIT_BREAKER_CONFIG 1700000000000 in
  let pc := with_circuitBreaker cb (sample_core always_delivers) in
  sendNotification sample_subscription sample_payload no_options
    (pc, sample_world sample_db)
  = (Normal {| sr_success := false; sr_subscriptionId := "sub-1";
               sr_error := Some (CircuitBreakerOpen cb);
               sr_enqueued := Some false |},
     (pc, breaker_rejection_world pc sample_subscription sample_payload
            (CircuitBreakerOpen cb) (sample_world sample_db))).
Proof.
  exact (sendNotification_open_breaker_drops_notification
           (with_circuitBreaker
              (tripped_breaker DEFAULT_CIRCUIT_BREAKER_CONFIG 1700000000000)
              (sample_core always_delivers))
           (sample_world sample_db) sample_subscription sample_payload
           no_options (scripted_provider always_delivers)
           (tripped_breaker DEFAULT_CIRCUIT_BREAKER_CONFIG 1700000000000)
           1700000000000 eq_refl eq_refl eq_refl eq_refl eq_refl eq_refl eq_refl
           ltac:(discriminate) ltac:(vm_compute; reflexivity)).
Defined.

(** ** Orchestrator: a send the provider answers with a failure *)

Section FailedSend.
Implicit Types (pc : PushCore World) (w : World) (c : PushConfiguration World).



Lemma calculateNextRetry_db (attempt : Z) (policy : RetryPolicy)
    (retryAfter : option Q) w :
  db (snd (calculateNextRetry attempt policy retryAfter w)) = db w.
Proof.
  unfold calculateNextRetry.
  destruct (if retryAfter_given retryAfter then retryAfter else None);
    [reflexivity |].
  destruct (jitter policy); reflexivity.
Qed.

Lemma emitHook_quiet pc c w (call : LifecycleHooks World -> option (M World unit)) :
  config pc = Some c ->
  (forall hooks h, lifecycleHooks c = Some hooks -> call hooks = Some h ->
     db_preserving h) ->
  exists w', emitHook call (pc, w) = (Normal tt, (pc, w')) /\ db w' = db w.
Proof.
  intros Hc Hquiet. rewrite emitHook_run. eexists. split; [reflexivity |].
  rewrite Hc. cbn [chain]. apply run_hook_quiet. intros h Hh.
  destruct (lifecycleHooks c) as [hooks |] eqn:Hhooks; [| discriminate].
  exact (Hquiet hooks h eq_refl Hh).
Qed.

Lemma emitHook_onFailure_quiet pc c w subscription error :
  config pc = Some c -> quiet_configuration c ->
  exists w', emitHook (call_onFailure subscription error) (pc, w)
             = (Normal tt, (pc, w'))
             /\ db w' = db w.
Proof.
  intros Hc (Hhooks & _). apply (emitHook_quiet pc c); [exact Hc |].
  intros hooks h Hsome Hcall. destruct (Hhooks hooks Hsome) as (_ & _ & Hfailure & _).
  unfold call_onFailure in Hcall.
  destruct (hook_onFailure hooks) as [f |] eqn:Hf; [| discriminate].
  injection Hcall as <-. now apply (Hfailure f).
Qed.



(** The [INSERT] of [enqueueRetry] on an open database. *)
Lemma sqlite_enqueueRetry_run w (retry : RetryEntry) :
  db_closed (db w) = false ->
  enqueueRetry sqlite retry w =
    if id_taken (re_id retry) (db w)
       || negb (bool_decide (is_Some (subscriptions (db w) !! re_subscriptionId retry)))
    then (Throw (new_StorageError "Failed to enqueue retry" "enqueueRetry"), w)
    else (Normal tt,
          world_set_db {| subscriptions := subscriptions (db w);
                          retry_queue := retry_queue (db w) ++ [retry];
                          db_closed := db_closed (db w) |} w).
Proof.
  intros Hopen. cbn [enqueueRetry sqlite SQLiteStorageAdapter].
  unfold sqlite_enqueueRetry, id_taken.
  unfold bind at 1. rewrite ensureNotClosed_run by assumption.
  unfold bind, get.
  destruct (existsb _ _ || negb _); reflexivity.
Qed.

(** [handle_failure] when the answer is not to be retried. *)
Lemma handle_failure_final pc c w subscription payload result :
  config pc = Some c ->
  quiet_configuration c ->
  shouldRetry result 0 (maxRetries (effective_retryPolicy c)) = false ->
  exists w',
    handle_failure subscription payload result (pc, w)
    = (Normal {| sr_success := false; sr_subscriptionId := id subscription;
                 sr_error := pr_error result; sr_enqueued := Some false |},
       (pc, w'))
    /\ db w' = db w.
Proof.
  intros Hc Hquiet Hfinal. unfold handle_failure.
  unfold bind at 1, this at 1. rewrite Hc. cbv zeta. rewrite Hfinal.
  destruct (emitHook_onFailure_quiet pc c w subscription
              (default (new_Error "Send failed") (pr_error result)) Hc Hquiet)
    as (w1 & Hhook & Hdb1).
  run_step Hhook.
  destruct (emitMetric_quiet pc c w1 "push.send.failure" None Hc Hquiet)
    as (w2 & Hmetric & Hdb2).
  run_step Hmetric.
  exists w2. split; [reflexivity | congruence].
Qed.

End FailedSend.

(** The way of a valid subscription up to the provider's answer. *)
Lemma send_operation_answered
    (pc : PushCore World) (w : World) (c : PushConfiguration World)
    (provider : ProviderAdapter World) (subscription : Subscription)
    (payload : NotificationPayload) (options : SendOptions)
    (result : ProviderResult) :
  config pc = Some c ->
  providerAdapter c = Some provider ->
  quiet_configuration c ->
  (forall limiter, rateLimiter c = Some limiter -> succeeds (acquire limiter)) ->
  (forall cb, circuitBreaker pc = Some cb -> cb_state cb <> open) ->
  subscription_valid subscription = true ->
  (forall w0, exists w1,
     send provider subscription payload options w0 = (Normal result, w1)) ->
  exists (pc1 : PushCore World) (w1 : World) (startTime : Z),
    send_operation subscription payload options (pc, w)
    = try_catch
        (if pr_success result then handle_success startTime subscription result
         else handle_failure subscription payload result)
        (send_recovery subscription) (pc1, w1)
    /\ config pc1 = config pc
    /\ isShuttingDown pc1 = isShuttingDown pc
    /\ inFlightOperations pc1 = inFlightOperations pc
    /\ db w1 = db w.
Proof.
  intros Hc Hprovider Hquiet Hlimiter Hbreaker Hvalid Hanswers.
  unfold send_operation, bind at 1, on_snd at 1, perform at 1.
  destruct (Date_now w) as [startTime w0] eqn:Hstart.
  assert (Hdb0 : db w0 = db w) by (injection Hstart as _ <-; reflexivity).
  unfold try_catch, send_pipeline.
  destruct (emitHook_onSend_quiet pc c w0 subscription payload Hc Hquiet)
    as (w1 & Hhook & Hdb1).
  run_step Hhook.
  destruct (emitMetric_quiet pc c w1 "push.send.attempt" None Hc Hquiet)
    as (w2 & Hmetric & Hdb2).
  run_step Hmetric.
  unfold bind at 1.
  rewrite verifySubscription_state, (verifySubscription_valid subscription Hvalid).
  cbv beta iota.
  destruct (acquire_token_run pc c w2 Hc Hquiet Hlimiter) as (w3 & Htoken & Hdb3).
  run_step Htoken.
  destruct (Hanswers w3) as (w4 & Hsend).
  assert (Hdb4 : db w4 = db w3).
  { destruct Hquiet as (_ & _ & _ & Hquiet).
    pose proof (Hquiet provider Hprovider subscription payload options w3) as Hdb.
    now rewrite Hsend in Hdb. }
  destruct (provider_call_run pc c w3 provider subscription payload
              options result w4 Hc Hprovider Hbreaker Hsend)
    as (pc1 & Hcall & Hconfig & Hdown & Hflight).
  run_step Hcall.
  exists pc1, w4, startTime. split; [reflexivity |].
  repeat split; congruence.
Qed.



(** X7. A failed answer that is not to be retried - the provider says
    [shouldRetry: false], or the retry budget [maxRetries] is zero or
    less - is final: [sendNotification] resolves to
    [{success: false, enqueued: false}] with the provider's error, and the
    storage adapter is not called at all: whatever adapter is configured,
    the database (records and retry queue) is as before. *)
Theorem sendNotification_final_failure_leaves_storage_alone
    (pc : PushCore World) (w : World) (c : PushConfiguration World)
    (provider : ProviderAdapter World) (subscription : Subscription)
    (payload : NotificationPayload) (options : SendOptions)
    (result : ProviderResult) :
  isShuttingDown pc = false ->
  configuration_complete pc = true ->
  config pc = Some c ->
  providerAdapter c = Some provider ->
  quiet_configuration c ->
  (forall limiter, rateLimiter c = Some limiter -> succeeds (acquire limiter)) ->
  (forall cb, circuitBreaker pc = Some cb -> cb_state cb <> open) ->
  subscription_valid subscription = true ->
  (forall w0, exists w1,
     send provider subscription payload options w0 = (Normal result, w1)) ->
  pr_success result = false ->
  pr_shouldRetry result = false \/ maxRetries (effective_retryPolicy c) <= 0 ->
  exists (pc' : PushCore World) (w' : World),
    sendNotification subscription payload options (pc, w)
    = (Normal {| sr_success := false; sr_subscriptionId := id subscription;
                 sr_error := pr_error result; sr_enqueued := Some false |},
       (pc', w'))
    /\ config pc' = config pc
    /\ db w' = db w.
Proof.
  intros Hrun Hcomplete Hc Hprovider Hquiet Hlimiter Hbreaker Hvalid
         Hanswers Hfailed Hfinal.
  rewrite sendNotification_run by assumption.
  destruct (send_operation_answered (tracked pc) w c provider subscription
              payload options result)
    as (pc1 & w1 & startTime & -> & Hconfig & _ & _ & Hdb1); auto.
  rewrite Hfailed. cbn [config tracked] in Hconfig.
  assert (Hstop : shouldRetry result 0 (maxRetries (effective_retryPolicy c)) = false).
  { rewrite shouldRetry_equation. destruct Hfinal as [Hflag | Hbudget].
    - rewrite Hflag. apply andb_false_r.
    - replace (0 <? maxRetries (effective_retryPolicy c)) with false
        by (symmetry; apply Z.ltb_ge; lia).
      reflexivity. }
  destruct (handle_failure_final pc1 c w1 subscription payload result)
    as (w2 & Hhandled & Hdb2); try congruence.
  unfold try_catch. rewrite Hhandled. cbn [fst snd set_inFlight].
  eexists _, w2. split; [reflexivity |]. cbn [config].
  split; congruence.
Qed.

Lemma sendNotification_final_failure_leaves_storage_alone_witness :
  exists (pc' : PushCore World) (w' : World),
    sendNotification sample_subscription sample_payload no_options
      (sample_core always_gone, sample_world sample_db)
    = (Normal {| sr_success := false; sr_subscriptionId := id sample_subscription;
                 sr_error := pr_error gone; sr_enqueued := Some false |},
       (pc', w'))
    /\ config pc' = config (sample_core always_gone)
    /\ db w' = db (sample_world sample_db).
Proof.
  eapply (sendNotification_final_failure_leaves_storage_alone
            (sample_core always_gone) (sample_world sample_db) _
            (scripted_provider always_gone) sample_subscription
            sample_payload no_options gone);
    try reflexivity.
  - now apply (sample_configuration_quiet always_gone).
  - discriminate.
  - intros cb [= <-]. discriminate.
  - intros w0. eexists. reflexivity.
  - left. reflexivity.
Defined.

(** ** Orchestrator: [configure] *)

(** X8. [configure] can be repeated: applying the same options a second
    time changes nothing.  Every call builds a new breaker from the merged
    breaker settings, so whatever the previous breaker had counted - an
    open circuit included - is forgotten, also when the options do not
    mention the breaker; the merged settings are complete and are the ones
    stored in the configuration.  The shutdown flag and the operations in
    flight are not touched: configuring again does not revive an
    orchestrator that is shutting down. *)
Theorem configure_is_idempotent_and_renews_breaker
    {E : Type} (options : PushConfiguration E) (pc : PushCore E) :
  configure options (configure options pc) = configure options pc
  /\ (exists cb,
        circuitBreaker (configure options pc) = Some cb
        /\ cb_state cb = closed
        /\ cb_failureCount cb = 0
        /\ cb_successCount cb = 0
        /\ cb_lastFailureTime cb = None
        /\ config (configure options pc) ?. circuitBreaker_config
           = Some (total_config (cb_config cb)))
  /\ isShuttingDown (configure options pc) = isShuttingDown pc
  /\ inFlightOperations (configure options pc) = inFlightOperations pc.
Proof.
  split; [| split; [| split; reflexivity]].
  - unfold configure. cbn [config chain isShuttingDown inFlightOperations
                           vapidKeys storageAdapter providerAdapter retryPolicy
                           rateLimiter metricsAdapter circuitBreaker_config
                           batchConfig lifecycleHooks].
    assert (Hopt : forall A (x y : option A),
              spread_opt (spread_opt x y) y = spread_opt x y)
      by (intros A x [y |]; reflexivity).
    assert (Hfield : forall A (d : A) (x y : option A),
              spread (spread d (Some (spread (spread d x) y))) y
              = spread (spread d x) y)
      by (intros A d x [y |]; reflexivity).
    rewrite !Hopt.
    unfold merge_retryPolicy, merge_circuitBreaker, merge_batchConfig.
    cbn [chain p_maxRetries p_baseDelay p_backoffFactor p_maxDelay p_jitter
         p_failureThreshold p_resetTimeout p_halfOpenMaxAttempts
         p_batchSize p_concurrency].
    rewrite !Hfield. reflexivity.
  - eexists. split; [reflexivity |]. repeat split.
Qed.

(** ** Circuit breaker: what holds of every state the class can reach *)

Section BreakerStates.
Context {E : Type} `{Runtime E} {T : Type}.

Lemma breaker_consistent_onFailure cb e :
  breaker_consistent cb -> breaker_consistent (fst (onFailure cb e)).
Proof.
  intros (Hcount & Hstate). unfold onFailure.
  destruct (Date_now e) as [now e1].
  destruct (Z.geb_spec (cb_failureCount cb + 1) (failureThreshold (cb_config cb)))
    as [Hreached | Hbelow]; cbn [fst]; unfold breaker_consistent;
    cbn [cb_state cb_failureCount cb_successCount cb_lastFailureTime cb_config].
  - split; [lia |]. split; [reflexivity |]. split; [eauto | lia].
  - split; [lia |]. destruct (cb_state cb).
    + destruct Hstate as (Hsuccess & _). split; [exact Hsuccess | lia].
    + destruct Hstate as (_ & _ & Hover). lia.
    + destruct Hstate as (_ & _ & Hover). lia.
Qed.

Lemma breaker_consistent_onSuccess cb :
  breaker_consistent cb ->
  cb_state cb <> open ->
  breaker_consistent (onSuccess cb).
Proof.
  intros (Hcount & Hstate) Hnot_open. unfold onSuccess.
  destruct (cb_state cb) eqn:Hst; [| congruence |].
  - destruct Hstate as (Hsuccess & _). unfold breaker_consistent.
    cbn [cb_state cb_failureCount cb_successCount cb_config].
    split; [lia |]. split; [exact Hsuccess | intros; lia].
  - destruct Hstate as (Hsuccess & Hlast & Hover).
    destruct (Z.geb_spec (cb_successCount cb + 1) (halfOpenMaxAttempts (cb_config cb)));
      unfold breaker_consistent;
      cbn [cb_state cb_failureCount cb_successCount cb_lastFailureTime cb_config].
    + split; [lia |]. split; [reflexivity | intros; lia].
    + split; [lia |]. split; [lia |]. split; assumption.
Qed.

Lemma breaker_consistent_half_opened_failure cb e :
  breaker_consistent cb -> cb_state cb = open ->
  breaker_consistent (fst (onFailure (half_opened cb) e)).
Proof.
  intros (Hcount & Hstate) Hopen. rewrite Hopen in Hstate.
  destruct Hstate as (_ & Hlast & Hover).
  unfold onFailure, half_opened. destruct (Date_now e) as [now e1].
  cbn [cb_failureCount cb_config cb_state cb_successCount].
  destruct (Z.geb_spec (cb_failureCount cb + 1) (failureThreshold (cb_config cb)));
    [| lia].
  cbn [fst]. unfold breaker_consistent.
  cbn [cb_state cb_failureCount cb_successCount cb_lastFailureTime cb_config].
  split; [lia |]. split; [reflexivity |]. split; [eauto | lia].
Qed.

Lemma breaker_consistent_half_opened_success cb :
  breaker_consistent cb -> cb_state cb = open ->
  breaker_consistent (onSuccess (half_opened cb)).
Proof.
  intros (Hcount & Hstate) Hopen. rewrite Hopen in Hstate.
  destruct Hstate as (_ & Hlast & Hover).
  unfold onSuccess, half_opened.
  cbn [cb_failureCount cb_config cb_state cb_successCount cb_lastFailureTime].
  destruct (Z.geb_spec (0 + 1) (halfOpenMaxAttempts (cb_config cb)));
    unfold breaker_consistent;
    cbn [cb_state cb_failureCount cb_successCount cb_lastFailureTime cb_config].
  - split; [lia |]. split; [reflexivity | intros; lia].
  - split; [lia |]. split; [lia |]. split; assumption.
Qed.

Lemma breaker_consistent_execute cb e (fn : M E T) :
  breaker_consistent cb ->
  breaker_consistent (fst (snd (execute fn (cb, e)))).
Proof.
  intros Hcb. destruct (cb_state cb) eqn:Hst.
  - unfold execute. rewrite guard_call_not_open by congruence.
    destruct (fn e) as [[r | t] e2].
    + cbn [fst snd]. apply breaker_consistent_onSuccess; congruence.
    + pose proof (breaker_consistent_onFailure cb e2 Hcb) as Hnext.
      destruct (onFailure cb e2). exact Hnext.
  - pose proof Hcb as (_ & Hstate). rewrite Hst in Hstate.
    destruct Hstate as (_ & [lastFailure Hlast] & _).
    destruct (Z.lt_ge_cases (fst (Date_now e) - lastFailure)
                            (resetTimeout (cb_config cb))) as [Hearly | Hlate].
    + rewrite (execute_rejects cb e fn lastFailure Hst Hlast Hearly). exact Hcb.
    + destruct (execute_probes cb e fn lastFailure Hst Hlast Hlate) as (_ & ->).
      destruct (fn (snd (Date_now e))) as [[r | t] e2].
      * cbn [fst snd]. now apply breaker_consistent_half_opened_success.
      * pose proof (breaker_consistent_half_opened_failure cb e2 Hcb Hst) as Hnext.
        destruct (onFailure (half_opened cb) e2). exact Hnext.
  - unfold execute. rewrite guard_call_not_open by congruence.
    destruct (fn e) as [[r | t] e2].
    + cbn [fst snd]. apply breaker_consistent_onSuccess; congruence.
    + pose proof (breaker_consistent_onFailure cb e2 Hcb) as Hnext.
      destruct (onFailure cb e2). exact Hnext.
Qed.

Lemma reachable_consistent (cfg : Partial_CircuitBreakerConfig) cb :
  reachable (E := E) (T := T) cfg cb -> breaker_consistent cb.
Proof.
  induction 1 as [| cb e fn Hreach IH | cb Hreach IH].
  - unfold breaker_consistent. cbn. split; [lia |]. split; [reflexivity | auto].
  - now apply breaker_consistent_execute.
  - unfold breaker_consistent, reset. cbn [cb_state cb_failureCount cb_successCount
                                          cb_config].
    split; [lia |]. split; [reflexivity | auto].
Qed.
End BreakerStates.

(** X9. Every breaker state that the constructor, [execute] and [reset]
    can produce is consistent: the failure count is never negative; a
    closed breaker has counted fewer failures than the threshold (for a
    positive threshold) and no half-open success; an open or half-open
    breaker has counted at least [failureThreshold] failures and knows the
    time of the last one; a half-open breaker between calls has between one
    success and fewer than [halfOpenMaxAttempts].  So the branch of
    [shouldAttemptReset] that answers [false] for want of a
    [lastFailureTime] is never taken by an open breaker: once
    [resetTimeout] has passed since the last failure, the next [execute]
    does call the function. *)
Theorem reachable_breaker_is_consistent_and_recovers
    {E : Type} `{Runtime E} {T : Type}
    (cfg : Partial_CircuitBreakerConfig) (cb : CircuitBreaker) :
  reachable (E := E) (T := T) cfg cb ->
  breaker_consistent cb
  /\ (cb_state cb = open ->
      exists lastFailure,
        cb_lastFailureTime cb = Some lastFailure
        /\ forall (e : E) (fn : M E T),
             resetTimeout (cb_config cb) <= fst (Date_now e) - lastFailure ->
             fst (execute fn (cb, e)) = fst (fn (snd (Date_now e)))).
Proof.
  intros Hreach. pose proof (reachable_consistent cfg cb Hreach) as Hcb.
  split; [exact Hcb |]. intros Hopen.
  destruct Hcb as (_ & Hstate). rewrite Hopen in Hstate.
  destruct Hstate as (_ & [lastFailure Hlast] & _).
  exists lastFailure. split; [exact Hlast |]. intros e fn Hlate.
  destruct (execute_probes cb e fn lastFailure Hopen Hlast Hlate) as (_ & ->).
  destruct (fn (snd (Date_now e))) as [[r | t] e2]; [reflexivity |].
  destruct (onFailure (half_opened cb) e2). reflexivity.
Qed.

Lemma reachable_breaker_is_consistent_and_recovers_witness :
  let cfg := total_config sample_breaker_config in
  let cb :=
    fst (snd (execute provider_down
                (fst (snd (execute provider_down
                             (new_CircuitBreaker cfg, sample_world empty_db))),
                 sample_world empty_db))) in
  cb_state cb = open
  /\ breaker_consistent cb
  /\ (cb_state cb = open ->
      exists lastFailure,
        cb_lastFailureTime cb = Some lastFailure
        /\ forall (e : World) (fn : M World ProviderResult),
             resetTimeout (cb_config cb) <= fst (Date_now e) - lastFailure ->
             fst (execute fn (cb, e)) = fst (fn (snd (Date_now e)))).
Proof.
  split; [reflexivity |].
  apply (reachable_breaker_is_consistent_and_recovers
           (total_config sample_breaker_config)).
  apply reachable_execute. apply reachable_execute. apply reachable_new.
Defined.

(** ** Worker: [processRetry] *)

Section ProcessRetryAlways.
Context {E : Type} `{Runtime E}.
Implicit Types (worker : RetryWorker E) (e : E).

Lemma keeps_fst_worker_emitMetric worker metric value :
  keeps_fst (S := RetryWorker E) (worker_emitMetric worker metric value).
Proof. apply keeps_fst_on_snd. Qed.

Lemma keeps_fst_processRetry_body worker (retry : RetryEntry) :
  keeps_fst (processRetry_body worker retry).
Proof.
  unfold processRetry_body.
  apply keeps_fst_bind; [apply keeps_fst_worker_emitMetric | intros _].
  apply keeps_fst_bind; [apply keeps_fst_on_snd | intros [subscription |]].
  - apply keeps_fst_bind; [apply keeps_fst_on_snd | intros result].
    destruct (pr_success result); [| cbv zeta; destruct (shouldRetry _ _ _)];
      repeat first
        [ apply keeps_fst_worker_emitMetric
        | apply keeps_fst_on_snd
        | apply keeps_fst_bind; [| intros ?] ].
  - apply keeps_fst_bind; [apply keeps_fst_on_snd | intros _].
    apply keeps_fst_worker_emitMetric.
Qed.

Lemma processRetry_recovery_run worker (retry : RetryEntry) (error : Thrown)
    (this_worker : RetryWorker E) e :
  exists e',
    processRetry_recovery worker retry error (this_worker, e)
    = (Normal tt, (this_worker, e')).
Proof.
  unfold processRetry_recovery, console_error.
  unfold bind at 1, ret at 1. cbv beta iota.
  unfold bind at 1, worker_emitMetric, on_snd at 1.
  pose proof (run_metric_total (worker_metricsAdapter worker)
                "worker.retry.error" None e) as Htotal.
  destruct (run_metric (worker_metricsAdapter worker) "worker.retry.error" None e)
    as [c e1]. cbn [fst] in Htotal. subst c. cbv beta iota.
  unfold try_catch, on_snd, ret.
  destruct (ackRetry (storage worker) (re_id retry) e1) as [[[] | t] e2]; eauto.
Qed.
End ProcessRetryAlways.

Lemma union_difference_singleton (x : string) (p : gset string) :
  ({[ x ]} ∪ p) ∖ {[ x ]} = p ∖ {[ x ]}.
Proof.
  apply set_eq. intros y.
  rewrite !elem_of_difference, elem_of_union, !elem_of_singleton. tauto.
Qed.

(** X10. [processRetry] never throws, whatever the storage adapter, the
    provider and the metrics adapter do - also when they throw on every
    call, the acknowledgement in the [catch] block included.  When it
    returns, the entry's id is no longer in the worker's [processing] set,
    which is otherwise as before, and nothing else of the worker has
    changed. *)
Theorem processRetry_never_throws_and_clears_processing
    {E : Type} `{Runtime E} (worker : RetryWorker E) (e : E) (retry : RetryEntry) :
  exists e',
    processRetry retry (worker, e)
    = (Normal tt,
       (with_processing (processing worker ∖ {[ re_id retry ]}) worker, e')).
Proof.
  unfold processRetry, bind, modify, try_finally, try_catch.
  cbn [set_processing].
  match goal with
  | |- context [processRetry_body worker retry (?this_worker, e)] =>
      set (tw := this_worker);
      pose proof (keeps_fst_processRetry_body worker retry tw e) as Hkeeps
  end.
  pose proof (union_difference_singleton (re_id retry) (processing worker))
    as Hset.
  destruct (processRetry_body worker retry (tw, e)) as [[[] | t] [tw1 e1]];
    cbn [fst snd] in Hkeeps; subst tw1.
  - exists e1. subst tw. cbn [set_processing processing running worker_options
                              storage provider worker_retryPolicy
                              worker_metricsAdapter].
    unfold with_processing. now rewrite Hset.
  - destruct (processRetry_recovery_run worker retry t tw e1) as (e2 & ->).
    exists e2. subst tw. cbn [set_processing processing running worker_options
                              storage provider worker_retryPolicy
                              worker_metricsAdapter].
    unfold with_processing. now rewrite Hset.
Qed.

Section ProcessRetryOnSQLite.
Implicit Types (worker : RetryWorker World) (w : World).

Lemma filter_id_app_same (retryId : string) (q : list RetryEntry) (r : RetryEntry) :
  re_id r = retryId ->
  filter (fun x => re_id x ≠ retryId) (q ++ [r])
  = filter (fun x => re_id x ≠ retryId) q.
Proof.
  intros Hid. rewrite filter_app, filter_cons_False by (intros Hne; now apply Hne).
  rewrite filter_nil. apply app_nil_r.
Qed.

Lemma id_taken_filter (retryId : string) (d : Database) :
  id_taken retryId
    {| subscriptions := subscriptions d;
       retry_queue := filter (fun x => re_id x ≠ retryId) (retry_queue d);
       db_closed := db_closed d |} = false.
Proof.
  unfold id_taken. cbn [retry_queue]. apply not_true_is_false. intros Htaken.
  apply existsb_exists in Htaken as (r & Hin & Heq).
  apply String.eqb_eq in Heq. apply list_elem_of_In in Hin.
  apply list_elem_of_filter in Hin as [Hne _]. now apply Hne.
Qed.

(** The [try] block when the subscription of the entry is gone. *)
Lemma processRetry_body_orphan worker (this_worker : RetryWorker World) w
    (retry : RetryEntry) :
  storage worker = sqlite ->
  quiet_metrics (worker_metricsAdapter worker) ->
  db_closed (db w) = false ->
  subscriptions (db w) !! re_subscriptionId retry = None ->
  exists w',
    processRetry_body worker retry (this_worker, w) = (Normal tt, (this_worker, w'))
    /\ db w' =
         {| subscriptions := subscriptions (db w);
            retry_queue :=
              filter (fun r => re_id r ≠ re_id retry) (retry_queue (db w));
            db_closed := false |}.
Proof.
  intros Hstorage Hmetrics Hopen Hgone. unfold processRetry_body.
  destruct (worker_emitMetric_quiet worker w "worker.retry.processing" None
              this_worker Hmetrics) as (w1 & Hmetric1 & Hdb1).
  run_step Hmetric1.
  unfold bind at 1, on_snd at 1. rewrite Hstorage.
  cbn [getSubscriptionById sqlite SQLiteStorageAdapter].
  rewrite sqlite_getSubscriptionById_run by congruence.
  rewrite Hdb1, Hgone. cbn [fmap option_fmap option_map]. cbv beta iota.
  destruct (sqlite_ackRetry_run w1 (re_id retry)) as (w2 & Hack & Hdb2);
    [congruence |].
  unfold bind at 1, on_snd at 1.
  change (SQLiteStorageAdapter db world_set_db) with sqlite.
  rewrite Hack. cbv beta iota.
  destruct (worker_emitMetric_quiet worker w2 "worker.retry.subscription_not_found"
              None this_worker Hmetrics) as (w3 & Hmetric3 & Hdb3).
  rewrite Hmetric3. exists w3. split; [reflexivity |].
  rewrite Hdb3, Hdb2, Hdb1. reflexivity.
Qed.


(** The [try] block when the provider fails and attempts are left: the
    [INSERT] of the successor under the entry's own id. *)
Lemma processRetry_body_again worker (this_worker : RetryWorker World) w
    (retry : RetryEntry) (row : SubscriptionRow) :
  storage worker = sqlite ->
  quiet_metrics (worker_metricsAdapter worker) ->
  quiet_provider (provider worker) ->
  (forall w0, exists result w1,
     send (provider worker) (rowToSubscription row) (re_payload retry) no_options w0
     = (Normal result, w1)
     /\ pr_success result = false
     /\ pr_shouldRetry result = true) ->
  re_attempt retry < maxRetries (worker_retryPolicy worker) ->
  db_closed (db w) = false ->
  subscriptions (db w) !! re_subscriptionId retry = Some row ->
  exists w',
    db_closed (db w') = false
    /\ subscriptions (db w') = subscriptions (db w)
    /\ if id_taken (re_id retry) (db w) then
         (exists err,
            processRetry_body worker retry (this_worker, w)
            = (Throw (ThrownError err), (this_worker, w'))
            /\ err_name err = StorageError)
         /\ retry_queue (db w') = retry_queue (db w)
       else
         processRetry_body worker retry (this_worker, w)
         = (Normal tt, (this_worker, w'))
         /\ retry_queue (db w')
            = filter (fun r => re_id r ≠ re_id retry) (retry_queue (db w)).
Proof.
  intros Hstorage Hmetrics Hprovider Hfails Hleft Hopen Hrow.
  destruct (worker_emitMetric_quiet worker w "worker.retry.processing" None
              this_worker Hmetrics) as (w1 & Hmetric1 & Hdb1).
  destruct (Hfails w1) as (result & w2 & Hsend & Hfailed & Hflag).
  assert (Hdb2 : db w2 = db w1).
  { pose proof (Hprovider (rowToSubscription row) (re_payload retry) no_options w1)
      as Hdb. now rewrite Hsend in Hdb. }
  pose proof (calculateNextRetry_db (re_attempt retry + 1)
                (worker_retryPolicy worker) (pr_retryAfter result) w2) as Hdb3.
  destruct (calculateNextRetry (re_attempt retry + 1) (worker_retryPolicy worker)
              (pr_retryAfter result) w2) as [nextRetryAt w3] eqn:Hnext.
  cbn [snd] in Hdb3.
  assert (Hdb : db w3 = db w) by congruence.
  set (successor :=
         {| re_id := re_id retry;
            re_subscriptionId := re_subscriptionId retry;
            re_payload := re_payload retry;
            re_attempt := re_attempt retry + 1;
            re_nextRetryAt := nextRetryAt;
            re_lastError := err_message <$> pr_error result;
            re_createdAt := re_createdAt retry |}).
  assert (Hsteps : processRetry_body worker retry (this_worker, w)
    = (on_snd (enqueueRetry sqlite successor);;
       on_snd (ackRetry sqlite (re_id retry));;
       worker_emitMetric worker "worker.retry.re_enqueued" None)%js
      (this_worker, w3)).
  { unfold processRetry_body. run_step Hmetric1.
    unfold bind at 1, on_snd at 1. rewrite Hstorage.
    cbn [getSubscriptionById sqlite SQLiteStorageAdapter].
    rewrite sqlite_getSubscriptionById_run by congruence.
    rewrite Hdb1, Hrow. cbn [fmap option_fmap option_map]. cbv beta iota.
    unfold bind at 1, on_snd at 1. rewrite Hsend. cbv beta iota.
    rewrite Hfailed. cbv zeta.
    rewrite shouldRetry_equation, Hflag.
    replace (re_attempt retry <? maxRetries (worker_retryPolicy worker)) with true
      by (symmetry; apply Z.ltb_lt; lia).
    cbn [andb].
    unfold bind at 1, on_snd at 1, perform at 1. rewrite Hnext.
    reflexivity. }
  assert (Hinsert : enqueueRetry sqlite successor w3 =
    if id_taken (re_id retry) (db w)
    then (Throw (new_StorageError "Failed to enqueue retry" "enqueueRetry"), w3)
    else (Normal tt,
          world_set_db {| subscriptions := subscriptions (db w);
                          retry_queue := retry_queue (db w) ++ [successor];
                          db_closed := false |} w3)).
  { rewrite sqlite_enqueueRetry_run by congruence.
    subst successor. cbn [re_id re_subscriptionId].
    rewrite Hdb, Hrow, Hopen.
    rewrite bool_decide_eq_true_2 by eauto. cbn [negb]. rewrite orb_false_r.
    reflexivity. }
  destruct (id_taken (re_id retry) (db w)) eqn:Htaken.
  - exists w3. rewrite Hdb. split; [exact Hopen |]. split; [reflexivity |].
    split; [| reflexivity].
    rewrite Hsteps. unfold bind at 1, on_snd at 1. rewrite Hinsert.
    eexists. split; reflexivity.
  - set (w4 := world_set_db {| subscriptions := subscriptions (db w);
                               retry_queue := retry_queue (db w) ++ [successor];
                               db_closed := false |} w3) in *.
    destruct (sqlite_ackRetry_run w4 (re_id retry)) as (w5 & Hack & Hdb5);
      [reflexivity |].
    destruct (worker_emitMetric_quiet worker w5 "worker.retry.re_enqueued"
                None this_worker Hmetrics) as (w6 & Hmetric6 & Hdb6).
    exists w6. rewrite Hdb6, Hdb5.
    subst w4. cbn [db world_set_db subscriptions retry_queue db_closed].
    split; [reflexivity |]. split; [reflexivity |]. split.
    + rewrite Hsteps. unfold bind at 1, on_snd at 1. rewrite Hinsert.
      cbv beta iota. unfold bind at 1, on_snd at 1. rewrite Hack.
      cbv beta iota. exact Hmetric6.
    + now apply filter_id_app_same.
Qed.
End ProcessRetryOnSQLite.

(** X11. On the SQLite adapter a retry cannot be scheduled again.  When the
    provider fails once more with [shouldRetry: true] and attempts are
    left, [processRetry] inserts the successor under the id of the entry it
    is processing.  If that entry is still in the queue - [dequeueRetry]
    only reads - the primary key refuses the [INSERT], the [StorageError]
    is caught and the [catch] block acknowledges the entry; if it is not,
    the successor goes in and the acknowledgement that follows deletes it
    by its id.  Either way [processRetry] completes normally, no entry
    under that id is left in the queue, the other entries are as before
    and no subscription record changes: the notification is dropped
    without the subscription being marked expired. *)
Theorem processRetry_cannot_reschedule_on_sqlite
    (worker : RetryWorker World) (w : World) (retry : RetryEntry)
    (row : SubscriptionRow) :
  storage worker = sqlite ->
  quiet_metrics (worker_metricsAdapter worker) ->
  quiet_provider (provider worker) ->
  (forall w0, exists result w1,
     send (provider worker) (rowToSubscription row) (re_payload retry) no_options w0
     = (Normal result, w1)
     /\ pr_success result = false
     /\ pr_shouldRetry result = true) ->
  re_attempt retry < maxRetries (worker_retryPolicy worker) ->
  db_closed (db w) = false ->
  subscriptions (db w) !! re_subscriptionId retry = Some row ->
  exists (worker' : RetryWorker World) (w' : World),
    processRetry retry (worker, w) = (Normal tt, (worker', w'))
    /\ retry_queue (db w')
       = filter (fun r => re_id r ≠ re_id retry) (retry_queue (db w))
    /\ id_taken (re_id retry) (db w') = false
    /\ subscriptions (db w') = subscriptions (db w).
Proof.
  intros Hstorage Hmetrics Hprovider Hfails Hleft Hopen Hrow.
  assert (Hgoal : exists (worker' : RetryWorker World) (w' : World),
    processRetry retry (worker, w) = (Normal tt, (worker', w'))
    /\ db w' = {| subscriptions := subscriptions (db w);
                  retry_queue :=
                    filter (fun r => re_id r ≠ re_id retry) (retry_queue (db w));
                  db_closed := db_closed (db w) |}).
  { unfold processRetry, bind, modify, try_finally, try_catch.
    cbn [set_processing].
    match goal with
    | |- context [processRetry_body worker retry (?this_worker, w)] =>
        set (tw := this_worker);
        destruct (processRetry_body_again worker tw w retry row)
          as (w1 & Hopen1 & Hsubs & Hbody); auto
    end.
    destruct (id_taken (re_id retry) (db w)).
    - destruct Hbody as ((err & -> & _) & Hqueue).
      unfold processRetry_recovery, console_error.
      unfold bind at 1, ret at 1. cbv beta iota.
      destruct (worker_emitMetric_quiet worker w1 "worker.retry.error" None
                  tw Hmetrics) as (w2 & Hmetric & Hdb2).
      run_step Hmetric.
      destruct (sqlite_ackRetry_run w2 (re_id retry)) as (w3 & Hack & Hdb3);
        [congruence |].
      unfold try_catch, on_snd. rewrite Hstorage, Hack.
      eexists _, w3. split; [reflexivity |].
      rewrite Hdb3, Hdb2, Hsubs, Hqueue, Hopen. reflexivity.
    - destruct Hbody as (-> & Hqueue).
      eexists _, w1. split; [reflexivity |].
      destruct (db w1) as [subs queue closed].
      cbn [subscriptions retry_queue db_closed] in *. congruence. }
  destruct Hgoal as (worker' & w' & Hrun & Hdb).
  exists worker', w'. split; [exact Hrun |]. rewrite Hdb.
  split; [reflexivity |]. split; [apply id_taken_filter | reflexivity].
Qed.

Lemma processRetry_cannot_reschedule_on_sqlite_witness :
  exists (worker' : RetryWorker World) (w' : World),
    processRetry pending_retry
      (worker_with always_fails, sample_world sample_db_pending)
    = (Normal tt, (worker', w'))
    /\ retry_queue (db w')
       = filter (fun r => re_id r ≠ "retry-2") [pending_retry]
    /\ id_taken "retry-2" (db w') = false
    /\ subscriptions (db w') = {[ "sub-1" := sample_row ]}.
Proof.
  apply (processRetry_cannot_reschedule_on_sqlite (worker_with always_fails)
           (sample_world sample_db_pending) pending_retry sample_row);
    try reflexivity.
  - intros m [= <-]. split; intros; intros w; reflexivity.
  - intros s p o w. reflexivity.
  - intros w0. eexists _, _. repeat split.
Defined.

(** X12. An entry whose subscription is no longer stored is acknowledged
    and nothing else: [processRetry] completes normally, the entry leaves
    the queue, the other entries and all subscription records are as
    before.  The provider takes no part - the statement holds whatever the
    provider would do. *)
Theorem processRetry_drops_entry_of_missing_subscription
    (worker : RetryWorker World) (w : World) (retry : RetryEntry) :
  storage worker = sqlite ->
  quiet_metrics (worker_metricsAdapter worker) ->
  db_closed (db w) = false ->
  subscriptions (db w) !! re_subscriptionId retry = None ->
  exists (worker' : RetryWorker World) (w' : World),
    processRetry retry (worker, w) = (Normal tt, (worker', w'))
    /\ db w' =
         {| subscriptions := subscriptions (db w);
            retry_queue :=
              filter (fun r => re_id r ≠ re_id retry) (retry_queue (db w));
            db_closed := false |}.
Proof.
  intros Hstorage Hmetrics Hopen Hgone.
  unfold processRetry, bind, modify, try_finally, try_catch.
  cbn [set_processing].
  match goal with
  | |- context [processRetry_body worker retry (?this_worker, w)] =>
      destruct (processRetry_body_orphan worker this_worker w retry)
        as (w' & Hbody & Hdb); auto
  end.
  rewrite Hbody. cbn [set_processing].
  eexists _, w'. split; [reflexivity | exact Hdb].
Qed.

Lemma processRetry_drops_entry_of_missing_subscription_witness :
  exists (worker' : RetryWorker World) (w' : World),
    processRetry orphan_retry
      (worker_with provider_unreachable, sample_world sample_db_orphan)
    = (Normal tt, (worker', w'))
    /\ db w' =
         {| subscriptions := subscriptions sample_db_orphan;
            retry_queue :=
              filter (fun r => re_id r ≠ re_id orphan_retry)
                     (retry_queue sample_db_orphan);
            db_closed := false |}.
Proof.
  apply (processRetry_drops_entry_of_missing_subscription
           (worker_with provider_unreachable) (sample_world sample_db_orphan)
           orphan_retry);
    try reflexivity.
  intros m [= <-]. split; intros; intros w; reflexivity.
Defined.



(** ** SQLite adapter *)

(** X14. [close] marks the connection closed and keeps the data; closing
    again does nothing.  On a closed connection every operation of the
    adapter throws the same [StorageError] before doing anything: no
    record is read or written and the clock is not even consulted. *)
Theorem sqlite_closed_connection_refuses_every_operation (w : World) :
  let w1 := snd (close sqlite w) in
  close sqlite w = (Normal tt, w1)
  /\ db_closed (db w1) = true
  /\ subscriptions (db w1) = subscriptions (db w)
  /\ retry_queue (db w1) = retry_queue (db w)
  /\ close sqlite w1 = (Normal tt, w1)
  /\ (forall key, getSubscriptionById sqlite key w1 = (Throw closed_error, w1))
  /\ (forall key updates,
        updateSubscription sqlite key updates w1 = (Throw closed_error, w1))
  /\ (forall retry, enqueueRetry sqlite retry w1 = (Throw closed_error, w1))
  /\ (forall limit, dequeueRetry sqlite limit w1 = (Throw closed_error, w1))
  /\ (forall retryId, ackRetry sqlite retryId w1 = (Throw closed_error, w1)).
Proof.
  cbv zeta. cbn [close sqlite SQLiteStorageAdapter getSubscriptionById
                 updateSubscription enqueueRetry dequeueRetry ackRetry].
  unfold sqlite_close, modify. cbn [snd].
  assert (Hclosed : db_closed
            (db (if db_closed (db w) then w
                 else world_set_db {| subscriptions := subscriptions (db w);
                                      retry_queue := retry_queue (db w);
                                      db_closed := true |} w)) = true).
  { destruct (db_closed (db w)) eqn:Hc; [exact Hc | reflexivity]. }
  set (w1 := if db_closed (db w) then w else _) in *.
  assert (Hrefuse : ensureNotClosed db w1 = (Throw closed_error, w1)).
  { unfold ensureNotClosed. now rewrite Hclosed. }
  split; [reflexivity |]. split; [exact Hclosed |].
  split; [subst w1; destruct (db_closed (db w)); reflexivity |].
  split; [subst w1; destruct (db_closed (db w)); reflexivity |].
  split; [now rewrite Hclosed |].
  split; [| split; [| split; [| split]]]; intros;
    unfold sqlite_getSubscriptionById, sqlite_updateSubscription,
      sqlite_enqueueRetry, sqlite_dequeueRetry, sqlite_ackRetry;
    unfold bind at 1; now rewrite Hrefuse.
Qed.

Section RetryQueue.
Implicit Types (w : World) (r : RetryEntry) (l : list RetryEntry).

Lemma insert_by_nextRetryAt_perm r l : insert_by_nextRetryAt r l ≡ₚ r :: l.
Proof.
  induction l as [| x l IH]; cbn [insert_by_nextRetryAt]; [reflexivity |].
  destruct (re_nextRetryAt r <? re_nextRetryAt x); [reflexivity |].
  rewrite IH. apply Permutation_swap.
Qed.

Lemma insert_by_nextRetryAt_sorted r l :
  StronglySorted by_nextRetryAt l ->
  StronglySorted by_nextRetryAt (insert_by_nextRetryAt r l).
Proof.
  induction 1 as [| x l Hsorted IH Hall]; cbn [insert_by_nextRetryAt].
  - repeat constructor.
  - destruct (Z.ltb_spec (re_nextRetryAt r) (re_nextRetryAt x)) as [Hlt | Hge].
    + constructor; [constructor; assumption |].
      constructor; [unfold by_nextRetryAt; lia |].
      eapply Forall_impl; [exact Hall |]. unfold by_nextRetryAt. intros y Hy. lia.
    + constructor; [exact IH |].
      rewrite insert_by_nextRetryAt_perm. constructor; [exact Hge | exact Hall].
Qed.

Lemma order_by_nextRetryAt_from l acc :
  StronglySorted by_nextRetryAt acc ->
  fold_left (fun acc r => insert_by_nextRetryAt r acc) l acc ≡ₚ acc ++ l
  /\ StronglySorted by_nextRetryAt
       (fold_left (fun acc r => insert_by_nextRetryAt r acc) l acc).
Proof.
  revert acc. induction l as [| x l IH]; intros acc Hacc; cbn [fold_left].
  - rewrite app_nil_r. split; [reflexivity | exact Hacc].
  - destruct (IH (insert_by_nextRetryAt x acc)) as [Hperm Hsorted];
      [now apply insert_by_nextRetryAt_sorted |].
    split; [| exact Hsorted].
    rewrite Hperm, insert_by_nextRetryAt_perm. cbn [app].
    apply Permutation_middle.
Qed.

Lemma order_by_nextRetryAt_spec l :
  order_by_nextRetryAt l ≡ₚ l
  /\ StronglySorted by_nextRetryAt (order_by_nextRetryAt l).
Proof.
  unfold order_by_nextRetryAt.
  destruct (order_by_nextRetryAt_from l []) as [Hperm Hsorted]; [constructor |].
  split; assumption.
Qed.

Lemma sqlite_dequeueRetry_run w (limit : Z) :
  db_closed (db w) = false ->
  dequeueRetry sqlite limit w
  = (Normal (sql_limit limit
               (order_by_nextRetryAt (due_at (fst (Date_now w)) (db w)))),
     snd (Date_now w)).
Proof.
  intros Hopen. cbn [dequeueRetry sqlite SQLiteStorageAdapter].
  unfold sqlite_dequeueRetry.
  unfold bind at 1. rewrite ensureNotClosed_run by assumption.
  unfold bind, perform, get, ret. reflexivity.
Qed.
End RetryQueue.

(** X15. [dequeueRetry(limit)] reads and does not remove: the database is
    as before.  What it returns is the beginning of the due entries -
    those whose [nextRetryAt] is not after the clock reading - in ascending
    order of [nextRetryAt]: together with the due entries it leaves out, it
    is a rearrangement of all due entries, sorted, so every entry returned
    is due no later than every due entry left out.  With a limit of zero or
    more it returns [limit] entries, or all due entries if there are fewer;
    a negative limit means no limit. *)
Theorem sqlite_dequeueRetry_returns_the_earliest_due (w : World) (limit : Z) :
  db_closed (db w) = false ->
  exists (w' : World) (returned left_out : list RetryEntry),
    dequeueRetry sqlite limit w = (Normal returned, w')
    /\ db w' = db w
    /\ returned ++ left_out ≡ₚ due_at (fst (Date_now w)) (db w)
    /\ StronglySorted by_nextRetryAt (returned ++ left_out)
    /\ (0 <= limit ->
        length returned
        = Nat.min (Z.to_nat limit) (length (due_at (fst (Date_now w)) (db w))))
    /\ (limit < 0 -> left_out = []).
Proof.
  intros Hopen.
  destruct (order_by_nextRetryAt_spec (due_at (fst (Date_now w)) (db w)))
    as [Hperm Hsorted].
  set (sorted := order_by_nextRetryAt (due_at (fst (Date_now w)) (db w))) in *.
  exists (snd (Date_now w)), (sql_limit limit sorted),
         (if limit <? 0 then [] else drop (Z.to_nat limit) sorted).
  split; [now apply sqlite_dequeueRetry_run |]. split; [reflexivity |].
  assert (Hwhole : sql_limit limit sorted
                   ++ (if limit <? 0 then [] else drop (Z.to_nat limit) sorted)
                   = sorted).
  { unfold sql_limit. destruct (limit <? 0);
      [apply app_nil_r | apply take_drop]. }
  rewrite Hwhole. split; [exact Hperm |]. split; [exact Hsorted |]. split.
  - intros Hlimit. unfold sql_limit.
    replace (limit <? 0) with false by (symmetry; apply Z.ltb_ge; lia).
    rewrite length_take, <- Hperm. reflexivity.
  - intros Hnegative.
    replace (limit <? 0) with true by (symmetry; apply Z.ltb_lt; lia).
    reflexivity.
Qed.

Lemma sqlite_dequeueRetry_returns_the_earliest_due_witness :
  exists (w' : World) (returned left_out : list RetryEntry),
    dequeueRetry sqlite 1 (sample_world sample_db_queue) = (Normal returned, w')
    /\ db w' = db (sample_world sample_db_queue)
    /\ returned ++ left_out
       ≡ₚ due_at (fst (Date_now (sample_world sample_db_queue)))
                 (db (sample_world sample_db_queue))
    /\ StronglySorted by_nextRetryAt (returned ++ left_out)
    /\ (0 <= 1 ->
        length returned
        = Nat.min (Z.to_nat 1)
            (length (due_at (fst (Date_now (sample_world sample_db_queue)))
                            (db (sample_world sample_db_queue)))))
    /\ (1 < 0 -> left_out = []).
Proof.
  apply (sqlite_dequeueRetry_returns_the_earliest_due
           (sample_world sample_db_queue) 1).
  reflexivity.
Defined.

Lemma filter_id_fresh (retryId : string) (q : list RetryEntry) :
  existsb (fun r => String.eqb (re_id r) retryId) q = false ->
  filter (fun x => re_id x ≠ retryId) q = q.
Proof.
  induction q as [| x q IH]; [reflexivity |]. cbn [existsb]. intros Hfresh.
  apply orb_false_elim in Hfresh as [Hx Hq].
  rewrite filter_cons_True by (intros Heq; apply String.eqb_eq in Heq; congruence).
  now rewrite IH.
Qed.

(** X16. The retry queue, one entry through its life.  An entry with an
    unused id for a stored subscription is accepted and goes to the end of
    the queue; a second [INSERT] under the same id is refused with a
    [StorageError] and changes nothing.  Once the entry is due,
    [dequeueRetry] without a limit returns it.  [ackRetry] with its id then
    restores the database exactly as it was before the entry came, and
    acknowledging once more is not an error and changes nothing. *)
Theorem sqlite_retry_entry_round_trip (w : World) (retry : RetryEntry)
    (row : SubscriptionRow) :
  db_closed (db w) = false ->
  id_taken (re_id retry) (db w) = false ->
  subscriptions (db w) !! re_subscriptionId retry = Some row ->
  exists w1 w2 w3 : World,
    enqueueRetry sqlite retry w = (Normal tt, w1)
    /\ retry_queue (db w1) = retry_queue (db w) ++ [retry]
    /\ (exists err,
          enqueueRetry sqlite retry w1 = (Throw (ThrownError err), w1)
          /\ err_name err = StorageError)
    /\ (re_nextRetryAt retry <= fst (Date_now w1) ->
        exists due, fst (dequeueRetry sqlite (-1) w1) = Normal due
                    /\ retry ∈ due)
    /\ ackRetry sqlite (re_id retry) w1 = (Normal tt, w2)
    /\ db w2 = db w
    /\ ackRetry sqlite (re_id retry) w2 = (Normal tt, w3)
    /\ db w3 = db w.
Proof.
  intros Hopen Hfresh Hrow.
  pose proof (sqlite_enqueueRetry_run w retry Hopen) as Hinsert.
  rewrite Hfresh, Hrow in Hinsert.
  rewrite bool_decide_eq_true_2 in Hinsert by eauto. cbn [negb orb] in Hinsert.
  set (w1 := world_set_db {| subscriptions := subscriptions (db w);
                             retry_queue := retry_queue (db w) ++ [retry];
                             db_closed := db_closed (db w) |} w) in *.
  assert (Hopen1 : db_closed (db w1) = false) by exact Hopen.
  destruct (sqlite_ackRetry_run w1 (re_id retry) Hopen1) as (w2 & Hack & Hdb2).
  assert (Hback : db w2 = db w).
  { rewrite Hdb2. subst w1. cbn [db world_set_db subscriptions retry_queue].
    rewrite filter_id_app_same by reflexivity.
    rewrite filter_id_fresh by exact Hfresh.
    destruct (db w) as [subs queue closed]. cbn in Hopen |- *. now rewrite Hopen. }
  destruct (sqlite_ackRetry_run w2 (re_id retry)) as (w3 & Hack' & Hdb3);
    [congruence |].
  exists w1, w2, w3.
  split; [exact Hinsert |]. split; [reflexivity |]. split.
  { rewrite (sqlite_enqueueRetry_run w1 retry Hopen1).
    replace (id_taken (re_id retry) (db w1)) with true.
    - cbn [orb]. eexists. split; reflexivity.
    - symmetry. unfold id_taken. apply existsb_exists. exists retry. split.
      + subst w1. cbn [db world_set_db retry_queue]. apply in_or_app. right.
        now left.
      + apply String.eqb_refl. }
  split.
  { intros Hdue. rewrite (sqlite_dequeueRetry_run w1 (-1) Hopen1). cbn [fst].
    eexists. split; [reflexivity |]. unfold sql_limit. cbn [Z.ltb Z.compare].
    destruct (order_by_nextRetryAt_spec (due_at (fst (Date_now w1)) (db w1)))
      as [Hperm _].
    rewrite Hperm. unfold due_at. apply list_elem_of_filter. split; [exact Hdue |].
    subst w1. cbn [db world_set_db retry_queue]. apply elem_of_app. right.
    apply list_elem_of_singleton. reflexivity. }
  split; [exact Hack |]. split; [exact Hback |]. split; [exact Hack' |].
  rewrite Hdb3, Hback.
  rewrite filter_id_fresh by exact Hfresh.
  destruct (db w) as [subs queue closed]. cbn in Hopen |- *. now rewrite Hopen.
Qed.

Lemma sqlite_retry_entry_round_trip_witness :
  exists w1 w2 w3 : World,
    enqueueRetry sqlite pending_retry (sample_world sample_db) = (Normal tt, w1)
    /\ retry_queue (db w1)
       = retry_queue (db (sample_world sample_db)) ++ [pending_retry]
    /\ (exists err,
          enqueueRetry sqlite pending_retry w1 = (Throw (ThrownError err), w1)
          /\ err_name err = StorageError)
    /\ (re_nextRetryAt pending_retry <= fst (Date_now w1) ->
        exists due, fst (dequeueRetry sqlite (-1) w1) = Normal due
                    /\ pending_retry ∈ due)
    /\ ackRetry sqlite (re_id pending_retry) w1 = (Normal tt, w2)
    /\ db w2 = db (sample_world sample_db)
    /\ ackRetry sqlite (re_id pending_retry) w2 = (Normal tt, w3)
    /\ db w3 = db (sample_world sample_db).
Proof.
  apply (sqlite_retry_entry_round_trip (sample_world sample_db) pending_retry
           sample_row); reflexivity.
Defined.

(** X17. [updateSubscription] on the SQLite adapter.  For an id that is
    not stored it throws a [StorageError] and leaves the world exactly as
    it was - nothing is written and the clock is not read.  For a stored
    record it returns what [getSubscriptionById] answers afterwards; the
    record keeps its id and its [createdAt] and gets the clock reading as
    [updatedAt]; an update that mentions no field changes nothing else; no
    other record and no queue entry changes. *)
Theorem sqlite_updateSubscription_reads_back (w : World) (key : string)
    (updates : SubscriptionUpdate) :
  db_closed (db w) = false ->
  match subscriptions (db w) !! key with
  | None =>
      exists err,
        updateSubscription sqlite key updates w = (Throw (ThrownError err), w)
        /\ err_name err = StorageError
  | Some row =>
      exists (updated : Subscription) (w' : World),
        updateSubscription sqlite key updates w = (Normal updated, w')
        /\ getSubscriptionById sqlite key w' = (Normal (Some updated), w')
        /\ id updated = row_id row
        /\ createdAt updated = row_created_at row
        /\ updatedAt updated = fst (Date_now w)
        /\ (updates = no_update ->
            updated = rowToSubscription
                        {| row_id := row_id row;
                           row_endpoint := row_endpoint row;
                           row_keys := row_keys row;
                           row_user_id := row_user_id row;
                           row_created_at := row_created_at row;
                           row_updated_at := fst (Date_now w);
                           row_last_used_at := row_last_used_at row;
                           row_failed_count := row_failed_count row;
                           row_status := row_status row;
                           row_expires_at := row_expires_at row;
                           row_metadata := row_metadata row |})
        /\ (forall other, other <> key ->
              subscriptions (db w') !! other = subscriptions (db w) !! other)
        /\ retry_queue (db w') = retry_queue (db w)
  end.
Proof.
  intros Hopen. destruct (subscriptions (db w) !! key) as [row |] eqn:Hrow.
  - destruct (sqlite_updateSubscription_run w key updates row Hopen Hrow)
      as (w' & Hupdate & Hdb).
    exists (rowToSubscription (apply_update (fst (Date_now w)) updates row)), w'.
    split; [exact Hupdate |]. split.
    { cbn [getSubscriptionById sqlite SQLiteStorageAdapter].
      rewrite sqlite_getSubscriptionById_run by (rewrite Hdb; reflexivity).
      rewrite Hdb. cbn [subscriptions]. now rewrite lookup_insert_eq. }
    split; [reflexivity |]. split; [reflexivity |]. split; [reflexivity |].
    split; [intros ->; reflexivity |]. split.
    + intros other Hother. rewrite Hdb. cbn [subscriptions].
      now rewrite lookup_insert_ne.
    + rewrite Hdb. reflexivity.
  - cbn [updateSubscription sqlite SQLiteStorageAdapter].
    unfold sqlite_updateSubscription.
    unfold bind at 1. rewrite ensureNotClosed_run by assumption.
    unfold bind at 1. rewrite sqlite_getSubscriptionById_run by assumption.
    rewrite Hrow. cbn [fmap option_fmap option_map].
    eexists. split; reflexivity.
Qed.

Lemma sqlite_updateSubscription_reads_back_witness :
  (exists err,
     updateSubscription sqlite "sub-9" no_update (sample_world sample_db)
     = (Throw (ThrownError err), sample_world sample_db)
     /\ err_name err = StorageError)
  /\ exists (updated : Subscription) (w' : World),
       updateSubscription sqlite "sub-1" (delivered_update 1700000000000)
         (sample_world sample_db) = (Normal updated, w')
       /\ getSubscriptionById sqlite "sub-1" w' = (Normal (Some updated), w')
       /\ id updated = "sub-1"
       /\ createdAt updated = 1699999990000
       /\ updatedAt updated = 1700000000000
       /\ (delivered_update 1700000000000 = no_update ->
           updated = rowToSubscription
                       {| row_id := row_id sample_row;
                          row_endpoint := row_endpoint sample_row;
                          row_keys := row_keys sample_row;
                          row_user_id := row_user_id sample_row;
                          row_created_at := row_created_at sample_row;
                          row_updated_at := 1700000000000;
                          row_last_used_at := row_last_used_at sample_row;
                          row_failed_count := row_failed_count sample_row;
                          row_status := row_status sample_row;
                          row_expires_at := row_expires_at sample_row;
                          row_metadata := row_metadata sample_row |})
       /\ (forall other, other <> "sub-1" ->
             subscriptions (db w') !! other
             = subscriptions (db (sample_world sample_db)) !! other)
       /\ retry_queue (db w') = retry_queue (db (sample_world sample_db)).
Proof.
  split.
  - exact (sqlite_updateSubscription_reads_back (sample_world sample_db) "sub-9"
             no_update eq_refl).
  - exact (sqlite_updateSubscription_reads_back (sample_world sample_db) "sub-1"
             (delivered_update 1700000000000) eq_refl).
Defined.

(** ** Token bucket *)

Section TokenBucketBounds.
Context {E : Type} `{Runtime E}.

End TokenBucketBounds.



Section AcquireProofs.
Context {E : Type} `{Runtime E} `{Timers E}.



End AcquireProofs.



(** ** Orchestrator: [shutdown] *)

(** X20. The first [shutdown] sets the shutdown flag and closes the
    configured storage adapter, once; it rejects exactly when [close]
    throws, with the same error, and nothing else of the orchestrator
    changes.  The flag is never taken back: from then on every
    [sendNotification] is refused with the shutting-down error before any
    work, and a further [shutdown] returns at once without calling the
    storage adapter - also when the first one failed to close it. *)
Theorem shutdown_closes_storage_once_and_refuses_sends
    {E : Type} `{Runtime E} (pc : PushCore E) (e : E) (timeout : Z) :
  isShuttingDown pc = false ->
  let stopped := fst (set_isShuttingDown true (pc, e)) in
  shutdown timeout (pc, e)
  = match config pc ?. storageAdapter with
    | Some storage => (fst (close storage e), (stopped, snd (close storage e)))
    | None => (Normal tt, (stopped, e))
    end
  /\ isShuttingDown stopped = true
  /\ config stopped = config pc
  /\ circuitBreaker stopped = circuitBreaker pc
  /\ (forall (timeout' : Z) (e' : E),
        shutdown timeout' (stopped, e') = (Normal tt, (stopped, e')))
  /\ (forall subscription payload options (e' : E),
        sendNotification subscription payload options (stopped, e')
        = (Throw shutting_down_error, (stopped, e'))).
Proof.
  intros Hrun. cbv zeta. cbn [set_isShuttingDown fst].
  split; [| split; [reflexivity | split; [reflexivity | split; [reflexivity |]]]].
  - unfold shutdown, bind at 1, this at 1. rewrite Hrun.
    unfold bind at 1, modify. cbn [set_isShuttingDown].
    unfold try_catch, bind at 1, this at 1. cbn [config].
    destruct (config pc ?. storageAdapter) as [storage |]; [| reflexivity].
    unfold on_snd. destruct (close storage e) as [[[] | t] e1]; reflexivity.
  - split.
    + intros timeout' e'. reflexivity.
    + intros subscription payload options e'. reflexivity.
Qed.

Lemma shutdown_closes_storage_once_and_refuses_sends_witness :
  let pc := sample_core always_delivers in
  let w := sample_world sample_db in
  let stopped := fst (set_isShuttingDown true (pc, w)) in
  shutdown 30000 (pc, w)
  = match config pc ?. storageAdapter with
    | Some storage => (fst (close storage w), (stopped, snd (close storage w)))
    | None => (Normal tt, (stopped, w))
    end
  /\ isShuttingDown stopped = true
  /\ config stopped = config pc
  /\ circuitBreaker stopped = circuitBreaker pc
  /\ (forall (timeout' : Z) (w' : World),
        shutdown timeout' (stopped, w') = (Normal tt, (stopped, w')))
  /\ (forall subscription payload options (w' : World),
        sendNotification subscription payload options (stopped, w')
        = (Throw shutting_down_error, (stopped, w'))).
Proof.
  exact (shutdown_closes_storage_once_and_refuses_sends
           (sample_core always_delivers) (sample_world sample_db) 30000 eq_refl).
Defined.

(** ** Splitting into batches and chunks *)

Section Chunks.
Context {A : Type}.
Implicit Types (xs : list A) (chunks : list (list A)).

Lemma js_slice_chunk (size i : Z) xs :
  0 <= i < Z.of_nat (length xs) -> 1 <= size ->
  js_slice i (i + size) xs = take (Z.to_nat size) (drop (Z.to_nat i) xs)
  /\ (1 <= length (js_slice i (i + size) xs) <= Z.to_nat size)%nat.
Proof.
  intros Hi Hsize. unfold js_slice. cbv zeta.
  replace (i <? 0) with false by (symmetry; apply Z.ltb_ge; lia).
  replace (i + size <? 0) with false by (symmetry; apply Z.ltb_ge; lia).
  rewrite (Z.min_l i) by lia.
  assert (Hsame : take (Z.to_nat (Z.min (i + size) (Z.of_nat (length xs)) - i))
                       (drop (Z.to_nat i) xs)
                  = take (Z.to_nat size) (drop (Z.to_nat i) xs)).
  { destruct (Z.le_ge_cases (i + size) (Z.of_nat (length xs))) as [Hin | Hout].
    - rewrite Z.min_l by lia. f_equal. lia.
    - rewrite Z.min_r by lia. rewrite !take_ge; [reflexivity | |];
        rewrite length_drop; lia. }
  rewrite Hsame. split; [reflexivity |].
  rewrite length_take, length_drop. lia.
Qed.

Lemma chunks_from_finishes (size : Z) xs (fuel : nat) :
  1 <= size ->
  forall (i : Z) chunks,
    0 <= i ->
    (0 < fuel)%nat ->
    Z.of_nat (length xs) - i < Z.of_nat fuel ->
    exists rest,
      chunks_from fuel size i xs chunks = Some (chunks ++ rest)
      /\ concat rest = drop (Z.to_nat i) xs
      /\ Forall (fun c => (1 <= length c <= Z.to_nat size)%nat) rest.
Proof.
  intros Hsize. induction fuel as [| fuel IH]; intros i chunks Hi Hsome Hfuel;
    [lia |].
  cbn [chunks_from].
  destruct (Z.ltb_spec i (Z.of_nat (length xs))) as [Hin | Hout].
  - destruct (js_slice_chunk size i xs) as [Hchunk Hlength]; [lia | lia |].
    destruct (IH (i + size) (chunks ++ [js_slice i (i + size) xs]))
      as (rest & Hrun & Hconcat & Hall); [lia | lia | lia |].
    exists (js_slice i (i + size) xs :: rest).
    split; [rewrite Hrun, <- app_assoc; reflexivity |].
    split; [| constructor; assumption].
    cbn [concat]. rewrite Hconcat, Hchunk.
    replace (Z.to_nat (i + size)) with (Z.to_nat i + Z.to_nat size)%nat by lia.
    rewrite <- drop_drop. apply take_drop.
  - exists []. rewrite app_nil_r. split; [reflexivity |].
    split; [| constructor]. cbn [concat]. symmetry. apply drop_ge. lia.
Qed.

Lemma chunks_from_runs_on (size : Z) xs (fuel : nat) :
  size <= 0 -> xs <> [] ->
  forall (i : Z) chunks, i <= 0 -> chunks_from fuel size i xs chunks = None.
Proof.
  intros Hsize Hxs. induction fuel as [| fuel IH]; intros i chunks Hi;
    [reflexivity |].
  cbn [chunks_from].
  replace (i <? Z.of_nat (length xs)) with true.
  - apply IH. lia.
  - symmetry. apply Z.ltb_lt. destruct xs; [congruence | cbn [length]; lia].
Qed.
End Chunks.

(** X21. The loop that cuts a list into batches ([batchSend], by
    [batchSize] and by [concurrency]) or chunks
    ([processRetriesWithConcurrency]).  With a size of one or more it ends
    after at most one test per element and one more; the pieces, in order,
    make up the list again, none is empty and none is longer than the
    size.  With a size of zero or less and a list that is not empty the
    index never gets past the length: the loop does not end, however many
    steps it is given.  ([batchSend] replaces a size of zero by its
    default, so there only a negative size has this effect.) *)
Theorem split_into_chunks_partitions_or_never_ends
    {A : Type} (size : Z) (xs : list A) :
  (1 <= size ->
   forall fuel, (length xs < fuel)%nat ->
     exists chunks,
       split_into_chunks fuel size xs = Some chunks
       /\ concat chunks = xs
       /\ Forall (fun c => (1 <= length c <= Z.to_nat size)%nat) chunks)
  /\ (size <= 0 -> xs <> [] ->
      forall fuel, split_into_chunks fuel size xs = None).
Proof.
  split.
  - intros Hsize fuel Hfuel. unfold split_into_chunks.
    destruct (chunks_from_finishes size xs fuel Hsize 0 [])
      as (rest & Hrun & Hconcat & Hall); [lia | lia | lia |].
    exists rest. split; [exact Hrun |]. split; [exact Hconcat | exact Hall].
  - intros Hsize Hxs fuel. unfold split_into_chunks.
    now apply chunks_from_runs_on.
Qed.

Lemma split_into_chunks_partitions_or_never_ends_witness :
  (forall fuel, (length [1; 2; 3; 4; 5] < fuel)%nat ->
     exists chunks,
       split_into_chunks fuel 2 [1; 2; 3; 4; 5] = Some chunks
       /\ concat chunks = [1; 2; 3; 4; 5]
       /\ Forall (fun c => (1 <= length c <= Z.to_nat 2)%nat) chunks)
  /\ (forall fuel, split_into_chunks fuel (-2) [1; 2; 3; 4; 5] = None).
Proof.
  split.
  - apply (split_into_chunks_partitions_or_never_ends 2 [1; 2; 3; 4; 5]). lia.
  - apply (split_into_chunks_partitions_or_never_ends (-2) [1; 2; 3; 4; 5]);
      [lia | discriminate].
Defined.

(** ** Orchestrator: no provider adapter *)



(** ** SQLite adapter: subscriptions *)

Section SQLiteSubscriptionsAtWork.
Implicit Types (w : World) (d : Database).

Lemma sqlite_createSubscription_run w (data : CreateSubscriptionData) :
  db_closed (db w) = false ->
  let uuid := fst (randomUUID w) in
  let now := fst (Date_now (snd (randomUUID w))) in
  let w0 := snd (Date_now (snd (randomUUID w))) in
  sqlite_createSubscription db world_set_db data w
  = if bool_decide (is_Some (subscriptions (db w) !! uuid))
    then (Throw (new_StorageError "Failed to create subscription"
                                  "createSubscription"), w0)
    else (Normal {| id := uuid;
                    endpoint := Some (csd_endpoint data);
                    keys := Some (csd_keys data);
                    userId := csd_userId data;
                    createdAt := now;
                    updatedAt := now;
                    lastUsedAt := None;
                    failedCount := 0;
                    status := active;
                    expiresAt := csd_expiresAt data;
                    metadata := csd_metadata data |},
          world_set_db
            {| subscriptions :=
                 <[uuid := {| row_id := uuid;
                              row_endpoint := csd_endpoint data;
                              row_keys := csd_keys data;
                              row_user_id := csd_userId data;
                              row_created_at := now;
                              row_updated_at := now;
                              row_last_used_at := None;
                              row_failed_count := 0;
                              row_status := active;
                              row_expires_at := csd_expiresAt data;
                              row_metadata := csd_metadata data |}]>
                   (subscriptions (db w));
               retry_queue := retry_queue (db w);
               db_closed := db_closed (db w) |} w0).
Proof.
  intros Hopen. cbv zeta. unfold sqlite_createSubscription.
  unfold bind at 1. rewrite ensureNotClosed_run by assumption.
  unfold bind, perform, get, modify, ret, throw.
  cbn [randomUUID Date_now World_Runtime fst snd db].
  destruct (bool_decide (is_Some (subscriptions (db w) !! uuid_at w (uuid_reads w))));
    reflexivity.
Qed.

Lemma sqlite_deleteSubscription_run w (key : string) :
  db_closed (db w) = false ->
  sqlite_deleteSubscription db world_set_db key w
  = (Normal tt,
     world_set_db
       {| subscriptions := delete key (subscriptions (db w));
          retry_queue :=
            filter (fun r => re_subscriptionId r ≠ key) (retry_queue (db w));
          db_closed := db_closed (db w) |} w).
Proof.
  intros Hopen. unfold sqlite_deleteSubscription, bind.
  now rewrite ensureNotClosed_run.
Qed.
End SQLiteSubscriptionsAtWork.



(** ** SQLite adapter: the constraints of the schema hold throughout *)

Section SchemaConstraints.
Implicit Types (w : World) (d : Database) (subs : gmap string SubscriptionRow)
  (queue : list RetryEntry).

Lemma db_consistent_same d d' :
  subscriptions d' = subscriptions d -> retry_queue d' = retry_queue d ->
  db_consistent d -> db_consistent d'.
Proof.
  intros Hsubs Hqueue (Hkeyed & Hunique & Hfk).
  unfold db_consistent, keyed_by_id. rewrite Hsubs, Hqueue. auto.
Qed.

Lemma db_consistent_insert d (key : string) (row : SubscriptionRow) (closed : bool) :
  row_id row = key ->
  db_consistent d ->
  db_consistent {| subscriptions := <[key := row]> (subscriptions d);
                   retry_queue := retry_queue d;
                   db_closed := closed |}.
Proof.
  intros Hid (Hkeyed & Hunique & Hfk).
  split; [| split]; unfold keyed_by_id in *; cbn [subscriptions retry_queue].
  - intros k r Hlookup. apply lookup_insert_Some in Hlookup as [[<- <-] | [_ Hold]];
      [exact Hid | now apply Hkeyed].
  - exact Hunique.
  - eapply Forall_impl; [exact Hfk |]. intros r Hr.
    apply lookup_insert_is_Some'. now right.
Qed.

Lemma db_consistent_delete d (key : string) (closed : bool) :
  db_consistent d ->
  db_consistent
    {| subscriptions := delete key (subscriptions d);
       retry_queue := filter (fun r => re_subscriptionId r ≠ key) (retry_queue d);
       db_closed := closed |}.
Proof.
  intros (Hkeyed & Hunique & Hfk).
  split; [| split]; unfold keyed_by_id in *; cbn [subscriptions retry_queue].
  - intros k r Hlookup. apply lookup_delete_Some in Hlookup as [_ Hold].
    now apply Hkeyed.
  - eapply sublist_NoDup; [exact Hunique |]. apply fmap_sublist, sublist_filter.
  - apply Forall_forall. intros r Hr. apply list_elem_of_filter in Hr as [Hne Hr].
    rewrite lookup_delete_ne by congruence.
    rewrite Forall_forall in Hfk. now apply Hfk.
Qed.

Lemma db_consistent_ack d (retryId : string) (closed : bool) :
  db_consistent d ->
  db_consistent
    {| subscriptions := subscriptions d;
       retry_queue := filter (fun r => re_id r ≠ retryId) (retry_queue d);
       db_closed := closed |}.
Proof.
  intros (Hkeyed & Hunique & Hfk).
  split; [| split]; unfold keyed_by_id in *; cbn [subscriptions retry_queue].
  - exact Hkeyed.
  - eapply sublist_NoDup; [exact Hunique |]. apply fmap_sublist, sublist_filter.
  - apply Forall_forall. intros r Hr. apply list_elem_of_filter in Hr as [_ Hr].
    rewrite Forall_forall in Hfk. now apply Hfk.
Qed.

Lemma db_consistent_enqueue d (retry : RetryEntry) (closed : bool) :
  id_taken (re_id retry) d = false ->
  is_Some (subscriptions d !! re_subscriptionId retry) ->
  db_consistent d ->
  db_consistent {| subscriptions := subscriptions d;
                   retry_queue := retry_queue d ++ [retry];
                   db_closed := closed |}.
Proof.
  intros Hfresh Hstored (Hkeyed & Hunique & Hfk).
  split; [| split]; unfold keyed_by_id in *; cbn [subscriptions retry_queue].
  - exact Hkeyed.
  - rewrite fmap_app. apply NoDup_app. split; [exact Hunique |].
    split; [| apply NoDup_singleton].
    intros x Hx Hnew. apply list_elem_of_singleton in Hnew. subst x.
    apply list_elem_of_fmap in Hx as (r & Hid & Hr).
    unfold id_taken in Hfresh. apply not_true_iff_false in Hfresh.
    apply Hfresh. apply existsb_exists. exists r.
    split; [now apply list_elem_of_In | apply String.eqb_eq; congruence].
  - apply Forall_app. split; [exact Hfk |]. now apply Forall_singleton.
Qed.

Lemma ensureNotClosed_refuses w :
  db_closed (db w) = true ->
  ensureNotClosed db w = (Throw closed_error, w).
Proof. intros Hclosed. unfold ensureNotClosed. now rewrite Hclosed. Qed.

Lemma after_call_closed (call : AdapterCall) w :
  db_closed (db w) = true -> db (after_call call w) = db w.
Proof.
  intros Hclosed. pose proof (ensureNotClosed_refuses w Hclosed) as Hrefuse.
  destruct call; cbn [after_call getSubscriptionById updateSubscription
                      enqueueRetry dequeueRetry ackRetry close sqlite
                      SQLiteStorageAdapter];
    unfold sqlite_createSubscription, sqlite_getSubscriptionById,
      sqlite_updateSubscription, sqlite_deleteSubscription, sqlite_enqueueRetry,
      sqlite_dequeueRetry, sqlite_ackRetry, sqlite_close;
    try (unfold bind at 1; rewrite Hrefuse; reflexivity).
  unfold modify. cbn [snd]. now rewrite Hclosed.
Qed.

Lemma after_call_consistent (call : AdapterCall) w :
  db_consistent (db w) -> db_consistent (db (after_call call w)).
Proof.
  intros Hdb. destruct (db_closed (db w)) eqn:Hopen.
  { now rewrite after_call_closed. }
  destruct call as [data | key | key updates | key | retry | limit | retryId |];
    cbn [after_call].
  - rewrite (sqlite_createSubscription_run w data Hopen). cbv zeta.
    destruct (bool_decide _); cbn [snd]; [exact Hdb |].
    cbn [db world_set_db]. now apply db_consistent_insert.
  - cbn [getSubscriptionById sqlite SQLiteStorageAdapter].
    now rewrite sqlite_getSubscriptionById_run.
  - destruct (subscriptions (db w) !! key) as [row |] eqn:Hrow.
    + destruct (sqlite_updateSubscription_run w key updates row Hopen Hrow)
        as (w' & Hupdate & Hafter).
      rewrite Hupdate. cbn [snd]. rewrite Hafter.
      apply db_consistent_insert; [| exact Hdb].
      destruct Hdb as (Hkeyed & _). cbn [apply_update row_id]. now apply Hkeyed.
    + cbn [updateSubscription sqlite SQLiteStorageAdapter].
      unfold sqlite_updateSubscription.
      unfold bind at 1. rewrite ensureNotClosed_run by assumption.
      unfold bind at 1. rewrite sqlite_getSubscriptionById_run by assumption.
      rewrite Hrow. exact Hdb.
  - rewrite (sqlite_deleteSubscription_run w key Hopen). cbn [snd db world_set_db].
    now apply db_consistent_delete.
  - rewrite (sqlite_enqueueRetry_run w retry Hopen).
    destruct (id_taken (re_id retry) (db w)) eqn:Htaken; [exact Hdb |].
    cbn [orb].
    destruct (bool_decide (is_Some (subscriptions (db w) !! re_subscriptionId retry)))
      eqn:Hstored; cbn [negb snd]; [| exact Hdb].
    cbn [db world_set_db]. apply db_consistent_enqueue; [exact Htaken | | exact Hdb].
    now apply bool_decide_eq_true in Hstored.
  - rewrite (sqlite_dequeueRetry_run w limit Hopen). exact Hdb.
  - destruct (sqlite_ackRetry_run w retryId Hopen) as (w' & Hack & Hafter).
    rewrite Hack. cbn [snd]. rewrite Hafter. now apply db_consistent_ack.
  - cbn [close sqlite SQLiteStorageAdapter]. unfold sqlite_close, modify.
    cbn [snd]. rewrite Hopen. cbn [db world_set_db].
    eapply db_consistent_same; [| | exact Hdb]; reflexivity.
Qed.
End SchemaConstraints.

(** X24. The constraints of the schema are kept by every operation of the
    adapter, in any order and with any arguments, whether the operation
    succeeds or throws: every record is stored under its own id, no two
    entries of the retry queue share an id, and every entry belongs to a
    stored subscription.  They hold of the empty database, so they hold of
    every database the adapter has built. *)
Theorem sqlite_adapter_keeps_schema_constraints
    (calls : list AdapterCall) (w : World) :
  db_consistent (db w) ->
  db_consistent (db (after_calls calls w)).
Proof.
  unfold after_calls. revert w.
  induction calls as [| call calls IH]; intros w Hdb; cbn [fold_left];
    [exact Hdb |].
  apply IH. now apply after_call_consistent.
Qed.

Lemma sqlite_adapter_keeps_schema_constraints_witness :
  db_consistent
    (db (after_calls
           [call_createSubscription sample_data;
            call_enqueueRetry pending_retry;
            call_enqueueRetry pending_retry;
            call_updateSubscription "sub-1" (delivered_update 1700000000000);
            call_deleteSubscription "sub-1";
            call_ackRetry "retry-2";
            call_close;
            call_dequeueRetry 10]
           (sample_world empty_db))).
Proof.
  apply (sqlite_adapter_keeps_schema_constraints _ (sample_world empty_db)).
  split; [| split].
  - intros key row Hlookup. cbn in Hlookup. now rewrite lookup_empty in Hlookup.
  - constructor.
  - constructor.
Defined.
